(** * Asset tracker: offline reconciliation engine

    A shallow embedding of the parts of the asset-tracker PWA that queue
    scanned (asset tag, serial) pairs locally, replay them when the
    browser comes back online and merge them on the server:

    - [Server]         : the [POST /api/pairs/batch] handler of
                         [server/server.js] over its SQLite tables, one
                         callback at a time;
    - [Db]             : the Dexie tables of the client ([db.ts]);
    - [Runtime]        : the clock, [fetch] and the asynchronous code of
                         the client as state passing with exceptions;
    - [dbHelpers]      : the helpers of [db.ts];
    - [ApiClient]      : [makeRequest] and the calls built on it ([api.ts]);
    - [NetworkManager] : [processOfflineQueue] and [syncAssetTags];
    - [PairBuilder]    : [validateAndAddPair] and the missing-tag dialog;
    - [Endpoints]      : the listing, search and replace handlers of
                         [server/server.js];
    - [Middleware]     : [authenticateToken];
    - [App]            : the session handlers of [App.tsx].

    Strings are Rocq strings, timestamps are the strings the code stores
    (ISO 8601 on the client, what SQLite or the request supplied on the
    server), tables keyed by a natural key are [gmap]s, tables with an
    auto-incremented key are lists in key order.  The definitions come
    first, then the vocabulary of the statements, then the proofs. *)

From Stdlib Require Import String Ascii List Arith Bool Lia Sorted.
From stdpp Require Import gmap strings list fin_maps pretty.

Open Scope string_scope.
Open Scope nat_scope.

(** ** Wire types shared by client and server *)

(** [status] of an asset tag: ['unused' | 'used']. *)
Inductive TagStatus := unused | used.

(** [status] of one entry of a batch response.  The client's TypeScript
    union has the first four; the server also writes ['error'] when a
    statement fails, and never writes ['asset_tag_in_use']. *)
Inductive UploadStatus :=
| ok_inserted
| ok_overwrite_same_pair
| missing_asset_tag
| asset_tag_in_use
| status_error.

#[global] Instance TagStatus_eq_dec : EqDecision TagStatus.
Proof. solve_decision. Defined.

#[global] Instance UploadStatus_eq_dec : EqDecision UploadStatus.
Proof. solve_decision. Defined.

(** One element of the request body of [POST /pairs/batch], as the
    handler destructures it: [{ asset_tag, serial, scanned_at }]. *)
Record PairUploadRequest := {
  req_asset_tag : string;
  req_serial : string;
  req_scanned_at : option string
}.

(** One element of the response array. *)
Record PairUploadResponse := {
  res_status : UploadStatus;
  res_asset_tag : string;
  res_serial : string;
  res_message : option string
}.

(** [result.status === 'ok_inserted' || result.status === 'ok_overwrite_same_pair'] *)
Definition is_success (r : PairUploadResponse) : bool :=
  bool_decide (res_status r = ok_inserted)
  || bool_decide (res_status r = ok_overwrite_same_pair).

(** JavaScript truthiness of a possibly missing string. *)
Definition truthy (s : option string) : bool :=
  match s with
  | Some s => negb (String.eqb s "")
  | None => false
  end.

(** [results[index] = v] on a JavaScript array: writing past the end
    grows the array and leaves holes in between. *)
Definition array_set {A} (i : nat) (v : A) (arr : list (option A)) : list (option A) :=
  if decide (i < length arr) then <[i := Some v]> arr
  else arr ++ replicate (i - length arr) None ++ [Some v].

(** Reading [arr[i]]: a hole and an index past the end both read as
    [undefined]. *)
Definition slot {A} (arr : list (option A)) (i : nat) : option A :=
  arr !! i ≫= id.

(** * The server: [POST /api/pairs/batch] *)

Module Server.

(** Row of [asset_tags]; the primary key [tag] is the key of the map. *)
Record AssetTagRow := {
  at_status : TagStatus;
  at_last_serial : option string;
  at_updated_at : string
}.

(** Row of [pairs]; [UNIQUE(asset_tag, serial)]. *)
Record PairRow := {
  pr_id : nat;
  pr_asset_tag : string;
  pr_serial : string;
  pr_assigned_by : string;
  pr_assigned_at : string
}.

Record Database := {
  asset_tags : gmap string AssetTagRow;
  pairs : list PairRow;
  pairs_seq : nat            (* AUTOINCREMENT: next id of [pairs] *)
}.

(** The two clocks the handler reads: [new Date().toISOString()] and
    SQLite's [CURRENT_TIMESTAMP], each as a function of the moment. *)
Record Clock := {
  js_now : nat → string;
  sql_now : nat → string
}.

(** [SELECT * FROM asset_tags WHERE tag = ?] *)
Definition select_tag (d : Database) (t : string) : option AssetTagRow :=
  asset_tags d !! t.

Definition same_pair (t s : string) (r : PairRow) : bool :=
  String.eqb (pr_asset_tag r) t && String.eqb (pr_serial r) s.

(** [SELECT * FROM pairs WHERE asset_tag = ? AND serial = ?] *)
Definition select_pair (d : Database) (t s : string) : option PairRow :=
  List.find (same_pair t s) (pairs d).

(** [INSERT OR REPLACE INTO pairs (asset_tag, serial, assigned_by, assigned_at)]:
    the row that would violate the unique constraint is deleted, and the
    new row takes a fresh id. *)
Definition insert_or_replace_pair (t s by_ at_ : string) (d : Database) : Database :=
  {| asset_tags := asset_tags d;
     pairs := List.filter (λ r, negb (same_pair t s r)) (pairs d)
              ++ [ {| pr_id := pairs_seq d; pr_asset_tag := t; pr_serial := s;
                      pr_assigned_by := by_; pr_assigned_at := at_ |} ];
     pairs_seq := S (pairs_seq d) |}.

(** [UPDATE asset_tags SET status = 'used', last_serial = ?,
    updated_at = CURRENT_TIMESTAMP WHERE tag = ?] *)
Definition update_tag_used (t s now : string) (d : Database) : Database :=
  {| asset_tags := alter (λ _, {| at_status := used; at_last_serial := Some s;
                                  at_updated_at := now |}) t (asset_tags d);
     pairs := pairs d;
     pairs_seq := pairs_seq d |}.

(** Where the callback chain of one item stands: which statement it is
    waiting for.  [AwaitInsert] remembers the [status] computed from the
    pair lookup and the bound [assigned_at] parameter. *)
Inductive Stage :=
| AwaitTag
| AwaitPair
| AwaitInsert (st : UploadStatus) (assigned_at : string)
| AwaitUpdate
| Finished.

(** State of one request: the database, the closure variables
    [results] and [completed], and what has been sent. *)
Record Handler := {
  db : Database;
  stages : list Stage;
  results : list (option PairUploadResponse);
  completed : nat;
  response : option (list (option PairUploadResponse));
  tick : nat
}.

(** A statement of item [ev_item] finishes, with or without [err]. *)
Record Event := { ev_item : nat; ev_err : bool }.

Definition set_stage (i : nat) (s : Stage) (h : Handler) : Handler :=
  {| db := db h; stages := <[i := s]> (stages h); results := results h;
     completed := completed h; response := response h; tick := tick h |}.

Definition set_db (d : Database) (h : Handler) : Handler :=
  {| db := d; stages := stages h; results := results h;
     completed := completed h; response := response h; tick := tick h |}.

(** [results[index] = r; completed++;
     if (completed === pairs.length) res.json(results);] *)
Definition settle (n i : nat) (r : PairUploadResponse) (next : Stage) (h : Handler) : Handler :=
  let results' := array_set i r (results h) in
  let completed' := S (completed h) in
  {| db := db h; stages := <[i := next]> (stages h); results := results';
     completed := completed';
     response := if decide (completed' = n) then Some results' else response h;
     tick := tick h |}.

Definition db_error (p : PairUploadRequest) (msg : string) : PairUploadResponse :=
  {| res_status := status_error; res_asset_tag := req_asset_tag p;
     res_serial := req_serial p; res_message := Some msg |}.

(** Callback of the asset-tag lookup (lines 161-188). *)
Definition on_tag_lookup (n i : nat) (p : PairUploadRequest) (err : bool) (h : Handler) : Handler :=
  if err then settle n i (db_error p "Database error") Finished h
  else match select_tag (db h) (req_asset_tag p) with
       | None =>
           settle n i {| res_status := missing_asset_tag; res_asset_tag := req_asset_tag p;
                         res_serial := req_serial p;
                         res_message := Some "Asset tag not found" |} Finished h
       | Some _ => set_stage i AwaitPair h
       end.

(** [existingPair ? 'ok_overwrite_same_pair' : 'ok_inserted'] *)
Definition status_of_lookup (existingPair : option PairRow) : UploadStatus :=
  match existingPair with
  | Some _ => ok_overwrite_same_pair
  | None => ok_inserted
  end.

(** [scanned_at || new Date().toISOString()] *)
Definition assigned_at_for (clk : Clock) (p : PairUploadRequest) (moment : nat) : string :=
  if truthy (req_scanned_at p) then default "" (req_scanned_at p)
  else js_now clk moment.

(** Callback of the pair lookup (lines 191-212): computes [status] and
    issues the insert. *)
Definition on_pair_lookup (clk : Clock) (n i : nat) (p : PairUploadRequest)
    (err : bool) (h : Handler) : Handler :=
  if err then settle n i (db_error p "Database error") Finished h
  else
    let st := status_of_lookup (select_pair (db h) (req_asset_tag p) (req_serial p)) in
    set_stage i (AwaitInsert st (assigned_at_for clk p (tick h))) h.

(** Callback of the insert (lines 213-237); the statement itself has run
    unless it failed.  On success the update of the tag is issued, with
    no callback of its own. *)
Definition on_insert (user : string) (n i : nat) (p : PairUploadRequest)
    (st : UploadStatus) (assigned_at : string) (err : bool) (h : Handler) : Handler :=
  if err then settle n i (db_error p "Failed to save pair") Finished h
  else
    settle n i {| res_status := st; res_asset_tag := req_asset_tag p;
                  res_serial := req_serial p; res_message := None |} AwaitUpdate
      (set_db (insert_or_replace_pair (req_asset_tag p) (req_serial p) user assigned_at (db h)) h).

(** The fire-and-forget update of [asset_tags] (lines 223-224) runs. *)
Definition on_update (clk : Clock) (i : nat) (p : PairUploadRequest)
    (err : bool) (h : Handler) : Handler :=
  set_stage i Finished
    (if err then h
     else set_db (update_tag_used (req_asset_tag p) (req_serial p) (sql_now clk (tick h)) (db h)) h).

Definition advance (clk : Clock) (user : string) (n i : nat) (p : PairUploadRequest)
    (s : Stage) (err : bool) (h : Handler) : Handler :=
  match s with
  | AwaitTag => on_tag_lookup n i p err h
  | AwaitPair => on_pair_lookup clk n i p err h
  | AwaitInsert st assigned_at => on_insert user n i p st assigned_at err h
  | AwaitUpdate => on_update clk i p err h
  | Finished => h
  end.

Definition next_moment (h : Handler) : Handler :=
  {| db := db h; stages := stages h; results := results h;
     completed := completed h; response := response h; tick := S (tick h) |}.

(** One statement of the request finishes and its callback runs. *)
Definition step (clk : Clock) (user : string) (items : list PairUploadRequest)
    (e : Event) (h : Handler) : Handler :=
  match items !! ev_item e, stages h !! ev_item e with
  | Some p, Some s =>
      next_moment (advance clk user (length items) (ev_item e) p s (ev_err e) h)
  | _, _ => h
  end.

(** [pairs.forEach(...)] issues one asset-tag lookup per item and returns;
    nothing has been sent. *)
Definition init (d : Database) (items : list PairUploadRequest) : Handler :=
  {| db := d; stages := replicate (length items) AwaitTag; results := [];
     completed := 0; response := None; tick := 0 |}.

Definition run (clk : Clock) (user : string) (items : list PairUploadRequest)
    (sched : list Event) (h : Handler) : Handler :=
  foldl (λ h e, step clk user items e h) h sched.

Definition ok_event (i : nat) : Event := {| ev_item := i; ev_err := false |}.

(** One round: the oldest outstanding statement of every item, in
    request order. *)
Definition round (n : nat) : list Event := ok_event <$> seq 0 n.

(** Statements finish in the order they were issued and none fails:
    all tag lookups, then the pair lookups, the inserts, the updates. *)
Definition fifo (n : nat) : list Event := round n ++ round n ++ round n ++ round n.

Definition batch_handler (clk : Clock) (user : string) (d : Database)
    (items : list PairUploadRequest) : Handler :=
  run clk user items (fifo (length items)) (init d items).

(** The columns of a tag the client sees: its status and last serial. *)
Definition tag_state (d : Database) (t : string) : option (TagStatus * option string) :=
  (λ r, (at_status r, at_last_serial r)) <$> asset_tags d !! t.

Definition pair_exists (d : Database) (t s : string) : bool :=
  bool_decide (is_Some (select_pair d t s)).

End Server.

Module ServerExamples.
Import Server.

Definition clk : Clock := {| js_now := λ _, "2024-05-01T10:00:00.000Z";
                             sql_now := λ _, "2024-05-01 10:00:00" |}.

Definition fresh_tag : AssetTagRow :=
  {| at_status := unused; at_last_serial := None; at_updated_at := "2024-01-01 00:00:00" |}.

(** The database right after the server's start-up script. *)
Definition seeded : Database :=
  {| asset_tags := <["AT001" := fresh_tag]> (<["AT002" := fresh_tag]> ∅);
     pairs := []; pairs_seq := 1 |}.

Definition item (t s : string) : PairUploadRequest :=
  {| req_asset_tag := t; req_serial := s; req_scanned_at := Some "2024-04-30T09:00:00.000Z" |}.

Definition three : list PairUploadRequest :=
  [item "AT001" "SN1"; item "AT999" "SN2"; item "AT001" "SN3"].

End ServerExamples.


(** * The client: local store ([db.ts]) *)

Module Db.

(** [Pair.status]: ['pending' | 'uploaded' | 'error']. *)
Inductive PairStatus := p_pending | p_uploaded | p_error.

(** [UploadBatch.status]: ['pending' | 'uploading' | 'done' | 'error']. *)
Inductive BatchStatus := b_pending | b_uploading | b_done | b_error.

#[global] Instance PairStatus_eq_dec : EqDecision PairStatus.
Proof. solve_decision. Defined.

#[global] Instance BatchStatus_eq_dec : EqDecision BatchStatus.
Proof. solve_decision. Defined.

Record Pair := {
  pair_id : nat;                 (* [++id] *)
  pair_asset_tag : string;
  pair_serial : string;
  pair_scanned_at : string;
  pair_status : PairStatus
}.

Record UploadBatch := {
  batch_id : nat;                (* [++id] *)
  batch_items : list Pair;
  batch_status : BatchStatus;
  batch_created_at : string;
  batch_error_message : option string
}.

Record AssetTag := {
  tag : string;
  tag_status : TagStatus;
  last_serial : option string;
  updated_at : string
}.

Record AuthToken := {
  token_id : string;
  token : string;
  username : string;
  expires_at : string
}.

(** The four Dexie tables.  [pairs] and [uploadQueue] are listed in
    primary-key order, which for an auto-incremented key is insertion
    order; [pairs_key] and [uploadQueue_key] are their key generators,
    which [clear()] does not reset. *)
Record Store := {
  pairs : list Pair;
  pairs_key : nat;
  uploadQueue : list UploadBatch;
  uploadQueue_key : nat;
  assetTags : gmap string AssetTag;
  authTokens : gmap string AuthToken
}.

Definition set_pairs (f : list Pair → list Pair) (s : Store) : Store :=
  {| pairs := f (pairs s); pairs_key := pairs_key s;
     uploadQueue := uploadQueue s; uploadQueue_key := uploadQueue_key s;
     assetTags := assetTags s; authTokens := authTokens s |}.

Definition set_uploadQueue (f : list UploadBatch → list UploadBatch) (s : Store) : Store :=
  {| pairs := pairs s; pairs_key := pairs_key s;
     uploadQueue := f (uploadQueue s); uploadQueue_key := uploadQueue_key s;
     assetTags := assetTags s; authTokens := authTokens s |}.

Definition set_assetTags (f : gmap string AssetTag → gmap string AssetTag) (s : Store) : Store :=
  {| pairs := pairs s; pairs_key := pairs_key s;
     uploadQueue := uploadQueue s; uploadQueue_key := uploadQueue_key s;
     assetTags := f (assetTags s); authTokens := authTokens s |}.

Definition set_authTokens (f : gmap string AuthToken → gmap string AuthToken) (s : Store) : Store :=
  {| pairs := pairs s; pairs_key := pairs_key s;
     uploadQueue := uploadQueue s; uploadQueue_key := uploadQueue_key s;
     assetTags := assetTags s; authTokens := f (authTokens s) |}.

(** [db.pairs.add(pair)]: the key generator supplies the id. *)
Definition pairs_add (t s at_ : string) (st : PairStatus) (s0 : Store) : nat * Store :=
  (pairs_key s0,
   {| pairs := pairs s0 ++ [ {| pair_id := pairs_key s0; pair_asset_tag := t; pair_serial := s;
                                pair_scanned_at := at_; pair_status := st |} ];
      pairs_key := S (pairs_key s0);
      uploadQueue := uploadQueue s0; uploadQueue_key := uploadQueue_key s0;
      assetTags := assetTags s0; authTokens := authTokens s0 |}).

(** [db.uploadQueue.add(batch)]. *)
Definition uploadQueue_add (its : list Pair) (st : BatchStatus) (at_ : string)
    (s0 : Store) : nat * Store :=
  (uploadQueue_key s0,
   {| pairs := pairs s0; pairs_key := pairs_key s0;
      uploadQueue := uploadQueue s0
                     ++ [ {| batch_id := uploadQueue_key s0; batch_items := its;
                             batch_status := st; batch_created_at := at_;
                             batch_error_message := None |} ];
      uploadQueue_key := S (uploadQueue_key s0);
      assetTags := assetTags s0; authTokens := authTokens s0 |}).

Definition with_batch_status (st : BatchStatus) (b : UploadBatch) : UploadBatch :=
  {| batch_id := batch_id b; batch_items := batch_items b; batch_status := st;
     batch_created_at := batch_created_at b;
     batch_error_message := batch_error_message b |}.

Definition with_batch_error (msg : string) (b : UploadBatch) : UploadBatch :=
  {| batch_id := batch_id b; batch_items := batch_items b; batch_status := b_error;
     batch_created_at := batch_created_at b;
     batch_error_message := Some msg |}.

Definition with_pair_status (st : PairStatus) (p : Pair) : Pair :=
  {| pair_id := pair_id p; pair_asset_tag := pair_asset_tag p;
     pair_serial := pair_serial p; pair_scanned_at := pair_scanned_at p;
     pair_status := st |}.

(** [table.update(key, changes)]: changes the row with that key, and
    does nothing when there is none. *)
Definition uploadQueue_update (k : nat) (f : UploadBatch → UploadBatch) (s : Store) : Store :=
  set_uploadQueue (List.map (λ b, if decide (batch_id b = k) then f b else b)) s.

Definition pairs_update (k : nat) (f : Pair → Pair) (s : Store) : Store :=
  set_pairs (List.map (λ p, if decide (pair_id p = k) then f p else p)) s.

Definition pair_matches (t s : string) (p : Pair) : bool :=
  String.eqb (pair_asset_tag p) t && String.eqb (pair_serial p) s.

(** [db.pairs.where({ asset_tag, serial }).modify({ status })]: every
    matching row. *)
Definition pairs_modify_where (t s : string) (st : PairStatus) (s0 : Store) : Store :=
  set_pairs (List.map (λ p, if pair_matches t s p then with_pair_status st p else p)) s0.

(** The order of the [updated_at] index: by [updated_at], rows with equal
    values by primary key. *)
Definition index_le (a b : AssetTag) : bool :=
  String.ltb (updated_at a) (updated_at b)
  || (String.eqb (updated_at a) (updated_at b) && String.leb (tag a) (tag b)).

Definition later_of (a : AssetTag) (acc : option AssetTag) : option AssetTag :=
  match acc with
  | None => Some a
  | Some b => if index_le b a then Some a else Some b
  end.

(** [db.assetTags.orderBy('updated_at').last()] *)
Definition assetTags_last_by_updated_at (s : Store) : option AssetTag :=
  foldr later_of None (snd <$> map_to_list (assetTags s)).

End Db.

(** * The client: clock, network and the effects of the code *)

Module Runtime.
Import Db.

(** One element of the response of [GET /asset-tags]. *)
Record AssetTagResponse := {
  atr_tag : string;
  atr_status : TagStatus;
  atr_last_serial : option string;
  atr_updated_at : string
}.

(** What a request carries: the JSON body of an upload, or the [since]
    query of the asset-tag listing. *)
Inductive Payload :=
| UploadPairs (items : list Pair)
| AssetTagsSince (since : option string).

Record Request := {
  endpoint : string;
  method : string;
  authorization : option string;
  payload : Payload
}.

(** The parsed body of a response, by the shapes the client uses. *)
Inductive Json :=
| JsonResults (rs : list PairUploadResponse)
| JsonTags (ts : list AssetTagResponse)
| JsonOther.

Record HttpResponse := {
  http_status : nat;
  body_text : string;
  body_json : Json
}.

(** [fetch] resolves with a response or rejects. *)
Inductive FetchOutcome :=
| Responds (r : HttpResponse)
| NetworkFails (msg : string).

(** Everything the client code reads and writes.  [clock k] is the
    [k]-th reading of [new Date().toISOString()], [network k] what the
    [k]-th [fetch] of the session comes back with, [sent] the requests
    made so far. *)
Record World := {
  store : Store;
  isOnline : bool;
  clock : nat → string;
  ticks : nat;
  network : nat → FetchOutcome;
  sent : list Request
}.

Definition with_store (f : Store → Store) (w : World) : World :=
  {| store := f (store w); isOnline := isOnline w; clock := clock w;
     ticks := ticks w; network := network w; sent := sent w |}.

Definition with_isOnline (b : bool) (w : World) : World :=
  {| store := store w; isOnline := b; clock := clock w;
     ticks := ticks w; network := network w; sent := sent w |}.

(** Result of running asynchronous code to its end: a value, or a
    thrown [Error] with its message. *)
Inductive Result (A : Type) :=
| Ok (a : A)
| Throw (msg : string).
Arguments Ok {A} a.
Arguments Throw {A} msg.

Definition M (A : Type) : Type := World → Result A * World.

Definition ret {A} (a : A) : M A := λ w, (Ok a, w).

Definition bind {A B} (m : M A) (k : A → M B) : M B :=
  λ w, match m w with
       | (Ok a, w') => k a w'
       | (Throw msg, w') => (Throw msg, w')
       end.

Definition throw {A} (msg : string) : M A := λ w, (Throw msg, w).

(** [try { m } catch (error) { handler(error.message) }] *)
Definition try_catch {A} (m : M A) (handler : string → M A) : M A :=
  λ w, match m w with
       | (Ok a, w') => (Ok a, w')
       | (Throw msg, w') => handler msg w'
       end.

Declare Scope js_scope.
Delimit Scope js_scope with js.
Notation "x <- m ;; k" := (bind m (λ x, k))
  (at level 100, m at next level, right associativity) : js_scope.
Notation "m ;;; k" := (bind m (λ _, k))
  (at level 100, right associativity) : js_scope.
Open Scope js_scope.

(** [for (const x of xs) { await body(x) }] *)
Fixpoint for_of {A} (xs : list A) (body : A → M unit) : M unit :=
  match xs with
  | [] => ret tt
  | x :: xs => body x ;;; for_of xs body
  end.

Definition read_store {A} (f : Store → A) : M A := λ w, (Ok (f (store w)), w).

Definition write_store (f : Store → Store) : M unit := λ w, (Ok tt, with_store f w).

(** [new Date().toISOString()] *)
Definition now : M string :=
  λ w, (Ok (clock w (ticks w)),
        {| store := store w; isOnline := isOnline w; clock := clock w;
           ticks := S (ticks w); network := network w; sent := sent w |}).

(** [await fetch(url, options)] *)
Definition fetch (r : Request) : M HttpResponse :=
  λ w, let w' := {| store := store w; isOnline := isOnline w; clock := clock w;
                    ticks := ticks w; network := network w; sent := sent w ++ [r] |} in
       match network w (length (sent w)) with
       | Responds resp => (Ok resp, w')
       | NetworkFails msg => (Throw msg, w')
       end.

(** [String.prototype.trim], on the white space and line terminators
    that are single bytes. *)
Definition is_space (c : ascii) : bool :=
  let n := nat_of_ascii c in
  (Nat.leb 9 n && Nat.leb n 13) || Nat.eqb n 32.

Fixpoint trim_start (s : string) : string :=
  match s with
  | String c s' => if is_space c then trim_start s' else s
  | EmptyString => EmptyString
  end.

Fixpoint trim_end (s : string) : string :=
  match s with
  | String c s' =>
      let r := trim_end s' in
      if is_space c && String.eqb r "" then "" else String c r
  | EmptyString => EmptyString
  end.

Definition trim (s : string) : string := trim_end (trim_start s).

(** Truthiness of a string. *)
Definition nonempty (s : string) : bool := negb (String.eqb s "").

End Runtime.

(** * The client: [dbHelpers] *)

Module dbHelpers.
Import Db Runtime.

(** [addPair(asset_tag, serial)] *)
Definition addPair (asset_tag serial : string) : M nat :=
  scanned_at <- now ;;
  λ w, let '(k, s') := pairs_add asset_tag serial scanned_at p_pending (store w) in
       (Ok k, with_store (λ _, s') w).

(** [getPendingPairs()] *)
Definition getPendingPairs : M (list Pair) :=
  read_store (λ s, List.filter (λ p, bool_decide (pair_status p = p_pending)) (pairs s)).

(** [queueForUpload(pairs)] *)
Definition queueForUpload (ps : list Pair) : M nat :=
  created_at <- now ;;
  λ w, let '(k, s') := uploadQueue_add ps b_pending created_at (store w) in
       (Ok k, with_store (λ _, s') w).

(** [getPendingUploads()]:
    [db.uploadQueue.where('status').equals('pending').toArray()] *)
Definition getPendingUploads : M (list UploadBatch) :=
  read_store (λ s, List.filter (λ b, bool_decide (batch_status b = b_pending)) (uploadQueue s)).

(** [updateAssetTag(tag, status, last_serial?)]: [put] replaces the whole
    record. *)
Definition updateAssetTag (t : string) (st : TagStatus) (ls : option string) : M unit :=
  stamp <- now ;;
  write_store (set_assetTags
    (λ m, <[t := {| tag := t; tag_status := st; last_serial := ls; updated_at := stamp |}]> m)).

(** [getAssetTag(tag)] *)
Definition getAssetTag (t : string) : M (option AssetTag) :=
  read_store (λ s, assetTags s !! t).

(** [getCurrentAuthToken()]: an expired token is deleted.  Both dates are
    ISO strings, whose order is the order of the instants. *)
Definition getCurrentAuthToken : M (option AuthToken) :=
  tok <- read_store (λ s, authTokens s !! "current") ;;
  match tok with
  | None => ret None
  | Some t =>
      today <- now ;;
      if String.leb (expires_at t) today
      then write_store (set_authTokens (delete "current")) ;;; ret None
      else ret (Some t)
  end.

(** [updatePairStatus(asset_tag, serial, status)]: the first matching
    row only. *)
Definition updatePairStatus (asset_tag serial : string) (st : PairStatus) : M unit :=
  pair <- read_store (λ s, List.find (pair_matches asset_tag serial) (pairs s)) ;;
  match pair with
  | Some p => write_store (pairs_update (pair_id p) (with_pair_status st))
  | None => ret tt
  end.

(** [clearUserData()]: the asset tags stay. *)
Definition clearUserData : M unit :=
  write_store (set_pairs (λ _, [])) ;;;
  write_store (set_uploadQueue (λ _, [])) ;;;
  write_store (set_authTokens (λ _, ∅)).

End dbHelpers.

(** * The client: [ApiClient] ([api.ts]) *)

Module ApiClient.
Import Db Runtime.

(** [getAuthToken()]: [token?.token || null] *)
Definition getAuthToken : M (option string) :=
  tok <- dbHelpers.getCurrentAuthToken ;;
  ret (match tok with
       | Some t => if nonempty (token t) then Some (token t) else None
       | None => None
       end).

(** [response.ok] *)
Definition ok (r : HttpResponse) : bool :=
  Nat.leb 200 (http_status r) && Nat.leb (http_status r) 299.

(** [makeRequest(endpoint, options)] *)
Definition makeRequest (ep meth : string) (body : Payload) : M Json :=
  tok <- getAuthToken ;;
  response <- fetch {| endpoint := ep; method := meth;
                       authorization := (λ t, "Bearer " ++ t) <$> tok;
                       payload := body |} ;;
  if Nat.eqb (http_status response) 401 then
    dbHelpers.clearUserData ;;;
    throw "Authentication required"
  else if negb (ok response) then
    throw ("API Error: " ++ pretty (http_status response) ++ " - " ++ body_text response)
  else ret (body_json response).

(** [getAssetTags(since?)]; the body is used as an array of tags. *)
Definition getAssetTags (since : option string) : M (list AssetTagResponse) :=
  json <- makeRequest "/asset-tags" "GET" (AssetTagsSince (if truthy since then since else None)) ;;
  match json with
  | JsonTags ts => ret ts
  | _ => throw "assetTags is not iterable"
  end.

(** [uploadPairs(pairs)]; the body is used as an array of results. *)
Definition uploadPairs (ps : list Pair) : M (list PairUploadResponse) :=
  json <- makeRequest "/pairs/batch" "POST" (UploadPairs ps) ;;
  match json with
  | JsonResults rs => ret rs
  | _ => throw "results is not iterable"
  end.

End ApiClient.

(** * The client: [NetworkManager] ([api.ts]) *)

Module NetworkManager.
Import Db Runtime.

(** [results.find(r => r.asset_tag === pair.asset_tag && r.serial === pair.serial)] *)
Definition result_for (results : list PairUploadResponse) (p : Pair) : option PairUploadResponse :=
  List.find (λ r, String.eqb (res_asset_tag r) (pair_asset_tag p)
                  && String.eqb (res_serial r) (pair_serial p)) results.

(** Body of the loop of [processOfflineQueue] (lines 199-226). *)
Definition replay_batch (batch : UploadBatch) : M unit :=
  try_catch
    (results <- ApiClient.uploadPairs (batch_items batch) ;;
     for_of results (λ result,
       if is_success result
       then dbHelpers.updateAssetTag (res_asset_tag result) used (Some (res_serial result))
       else ret tt) ;;;
     write_store (uploadQueue_update (batch_id batch) (with_batch_status b_done)) ;;;
     for_of (batch_items batch) (λ pair,
       match result_for results pair with
       | Some result =>
           if is_success result
           then write_store (pairs_modify_where (pair_asset_tag pair) (pair_serial pair) p_uploaded)
           else ret tt
       | None => ret tt
       end))
    (λ msg, write_store (uploadQueue_update (batch_id batch) (with_batch_error msg))).

(** [processOfflineQueue()] *)
Definition processOfflineQueue : M unit :=
  λ w, if negb (isOnline w) then (Ok tt, w)
       else try_catch
              (pendingBatches <- dbHelpers.getPendingUploads ;;
               for_of pendingBatches replay_batch)
              (λ _, ret tt) w.

(** [syncAssetTags()] *)
Definition syncAssetTags : M unit :=
  λ w, if negb (isOnline w) then (Ok tt, w)
       else try_catch
              (lastTag <- read_store assetTags_last_by_updated_at ;;
               assetTags <- ApiClient.getAssetTags (updated_at <$> lastTag) ;;
               for_of assetTags (λ t,
                 dbHelpers.updateAssetTag (atr_tag t) (atr_status t) (atr_last_serial t)))
              (λ _, ret tt) w.

(** The ['online'] listener of the constructor: the flag is set and the
    queue is processed.  (The callbacks registered with [addListener]
    belong to the user interface.) *)
Definition on_online : M unit :=
  (λ w, (Ok tt, with_isOnline true w)) ;;; processOfflineQueue.

(** The ['offline'] listener. *)
Definition on_offline : M unit :=
  λ w, (Ok tt, with_isOnline false w).

End NetworkManager.

(** * The client: [PairBuilder] *)

Module PairBuilder.
Import Db Runtime.

Inductive ToastType := toast_success | toast_error | toast_info.

(** The React state of the component that admission reads and writes,
    with the calls made to the [addToast] and [onPairAdded] props. *)
Record State := {
  assetTag : string;
  serial : string;
  error : string;
  success : string;
  isValidating : bool;
  showMissingTagDialog : bool;
  toasts : list (string * ToastType);
  pairsAdded : nat
}.

Definition setError (e : string) (u : State) : State :=
  {| assetTag := assetTag u; serial := serial u; error := e; success := success u;
     isValidating := isValidating u; showMissingTagDialog := showMissingTagDialog u;
     toasts := toasts u; pairsAdded := pairsAdded u |}.

Definition setSuccess (m : string) (u : State) : State :=
  {| assetTag := assetTag u; serial := serial u; error := error u; success := m;
     isValidating := isValidating u; showMissingTagDialog := showMissingTagDialog u;
     toasts := toasts u; pairsAdded := pairsAdded u |}.

Definition setIsValidating (b : bool) (u : State) : State :=
  {| assetTag := assetTag u; serial := serial u; error := error u; success := success u;
     isValidating := b; showMissingTagDialog := showMissingTagDialog u;
     toasts := toasts u; pairsAdded := pairsAdded u |}.

Definition setShowMissingTagDialog (b : bool) (u : State) : State :=
  {| assetTag := assetTag u; serial := serial u; error := error u; success := success u;
     isValidating := isValidating u; showMissingTagDialog := b;
     toasts := toasts u; pairsAdded := pairsAdded u |}.

Definition addToast (m : string) (k : ToastType) (u : State) : State :=
  {| assetTag := assetTag u; serial := serial u; error := error u; success := success u;
     isValidating := isValidating u; showMissingTagDialog := showMissingTagDialog u;
     toasts := toasts u ++ [(m, k)]; pairsAdded := pairsAdded u |}.

Definition onPairAdded (u : State) : State :=
  {| assetTag := assetTag u; serial := serial u; error := error u; success := success u;
     isValidating := isValidating u; showMissingTagDialog := showMissingTagDialog u;
     toasts := toasts u; pairsAdded := S (pairsAdded u) |}.

(** [assetTag.trim() && serial.trim()] *)
Definition canAddPair (u : State) : bool :=
  nonempty (trim (assetTag u)) && nonempty (trim (serial u)).

(** [assetTagInfo.status === 'used' && assetTagInfo.last_serial &&
     assetTagInfo.last_serial !== serial.trim()] *)
Definition used_with_other_serial (info : AssetTag) (s : string) : bool :=
  bool_decide (tag_status info = used)
  && truthy (last_serial info)
  && negb (String.eqb (default "" (last_serial info)) s).

(** [validateAndAddPair()] (lines 26-79).  The timer that empties the
    form 1.5 s after a success is not part of the admission. *)
Definition validateAndAddPair (u : State) : M State :=
  if negb (canAddPair u) then
    ret (setError "Both Asset Tag and Serial Number are required" u)
  else
    let u := setSuccess "" (setError "" (setIsValidating true u)) in
    u' <- try_catch
      (assetTagInfo <- dbHelpers.getAssetTag (trim (assetTag u)) ;;
       match assetTagInfo with
       | None =>
           ret (setIsValidating false (setShowMissingTagDialog true u))
       | Some info =>
           if used_with_other_serial info (trim (serial u)) then
             ret (setIsValidating false
                    (setError ("Asset tag already used with serial: "
                               ++ default "" (last_serial info)) u))
           else
             _ <- dbHelpers.addPair (trim (assetTag u)) (trim (serial u)) ;;
             let successMessage :=
               "Pair saved: " ++ trim (assetTag u) ++ " → " ++ trim (serial u) in
             ret (onPairAdded
                    (addToast successMessage toast_success
                       (setSuccess ("✅ " ++ successMessage) u)))
       end)
      (λ errorMessage,
         ret (addToast errorMessage toast_error (setError errorMessage u))) ;;
    ret (setIsValidating false u').

(** The "Yes, add tag" button of the missing-tag dialog (lines 286-291). *)
Definition confirmMissingTag (u : State) : M State :=
  let u := setShowMissingTagDialog false u in
  dbHelpers.updateAssetTag (trim (assetTag u)) unused None ;;;
  validateAndAddPair u.


End PairBuilder.

(** * The server: the listing, search and replace endpoints *)

Module Endpoints.
Import Server Runtime.

(** What a handler sends: [res.status(code).json({ error })], or
    [res.json(body)]. *)
Inductive Reply (A : Type) :=
| Fails (code : nat) (error : string)
| Sends (body : A).
Arguments Fails {A} code error.
Arguments Sends {A} body.

(** ** [GET /api/asset-tags] (lines 120-144) *)

(** [if (since) query += ' WHERE updated_at > ?'].  Both operands are
    text (a timestamp is never a well-formed number), and SQLite orders
    text byte by byte. *)
Definition newer_than (since : option string) (r : AssetTagRow) : bool :=
  if truthy since then String.ltb (default "" since) (at_updated_at r) else true.

Definition tag_json (kv : string * AssetTagRow) : AssetTagResponse :=
  {| atr_tag := kv.1; atr_status := at_status kv.2;
     atr_last_serial := at_last_serial kv.2; atr_updated_at := at_updated_at kv.2 |}.

(** The handler; [err] is the error of [db.all].  The statement has no
    [ORDER BY]: the rows come in the order of the table. *)
Definition get_asset_tags (err : bool) (since : option string) (d : Database)
    : Reply (list AssetTagResponse) :=
  if err then Fails 500 "Database error"
  else Sends (tag_json <$> List.filter (λ kv, newer_than since kv.2)
                             (map_to_list (asset_tags d))).

(** ** [GET /api/pairs/search] (lines 244-291) *)

Record SearchQuery := {
  q_asset_tag : option string;
  q_serial : option string
}.

Record HistoryEntry := {
  he_serial : string;
  he_assigned_at : string;
  he_assigned_by : string
}.

Record SearchResult := {
  sr_asset_tag : string;
  sr_serial : string;
  sr_status : TagStatus;
  sr_history : list HistoryEntry
}.

(** [WHERE 1=1 [AND p.asset_tag = ?] [AND p.serial = ?]] *)
Definition matches (q : SearchQuery) (r : PairRow) : bool :=
  (if truthy (q_asset_tag q)
   then String.eqb (pr_asset_tag r) (default "" (q_asset_tag q)) else true)
  && (if truthy (q_serial q)
      then String.eqb (pr_serial r) (default "" (q_serial q)) else true).

Definition history_entry (r : PairRow) : HistoryEntry :=
  {| he_serial := pr_serial r; he_assigned_at := pr_assigned_at r;
     he_assigned_by := pr_assigned_by r |}.

(** [rows[0].tag_status || 'unused']: the column of the [LEFT JOIN] is
    [NULL] when the tag has no row in [asset_tags]. *)
Definition joined_status (d : Database) (r : PairRow) : TagStatus :=
  default unused (at_status <$> asset_tags d !! pr_asset_tag r).

(** The handler.  The statement has no [ORDER BY], so the order of the
    rows is the choice of SQLite's query plan: [plan] rearranges the
    matching rows. *)
Definition search_pairs (plan : list PairRow → list PairRow) (err : bool)
    (q : SearchQuery) (d : Database) : Reply SearchResult :=
  if negb (truthy (q_asset_tag q)) && negb (truthy (q_serial q)) then
    Fails 400 "Either asset_tag or serial required"
  else if err then Fails 500 "Database error"
  else match plan (List.filter (matches q) (pairs d)) with
       | [] => Fails 404 "No pairs found"
       | r0 :: rows =>
           Sends {| sr_asset_tag := pr_asset_tag r0; sr_serial := pr_serial r0;
                    sr_status := joined_status d r0;
                    sr_history := history_entry <$> (r0 :: rows) |}
       end.

(** ** [PUT /api/pairs/replace] (lines 294-357) *)

Record ReplaceRequest := {
  searchBy : option string;
  value : option string;
  new_asset_tag : option string;
  new_serial : option string
}.

(** [{ success, message }] with the status code it is sent with. *)
Record ReplaceReply := {
  rr_code : nat;
  rr_success : bool;
  rr_message : string
}.

Definition refused (code : nat) (msg : string) : ReplaceReply :=
  {| rr_code := code; rr_success := false; rr_message := msg |}.

(** Which of the three statements of the handler fail. *)
Record Faults := {
  find_fails : bool;
  insert_fails : bool;
  update_fails : bool
}.

(** [searchBy === 'asset_tag' ? asset_tag = ? : serial = ?] *)
Definition wanted (rq : ReplaceRequest) (r : PairRow) : bool :=
  if String.eqb (default "" (searchBy rq)) "asset_tag"
  then String.eqb (pr_asset_tag r) (default "" (value rq))
  else String.eqb (pr_serial r) (default "" (value rq)).

Definition later_row (acc : option PairRow) (r : PairRow) : option PairRow :=
  match acc with
  | None => Some r
  | Some b => if String.ltb (pr_assigned_at b) (pr_assigned_at r) then Some r else Some b
  end.

(** [ORDER BY assigned_at DESC LIMIT 1]: a row with the greatest
    [assigned_at], in the order SQLite gives to timestamps stored as
    text; among equals the first the plan produces. *)
Definition most_recent (rows : list PairRow) : option PairRow :=
  foldl later_row None rows.

(** A plain [INSERT INTO pairs]: it fails on [UNIQUE(asset_tag, serial)]
    and then changes nothing. *)
Definition insert_pair (t s by_ at_ : string) (d : Database) : option Database :=
  if pair_exists d t s then None
  else Some {| asset_tags := asset_tags d;
               pairs := pairs d
                        ++ [ {| pr_id := pairs_seq d; pr_asset_tag := t; pr_serial := s;
                                pr_assigned_by := by_; pr_assigned_at := at_ |} ];
               pairs_seq := S (pairs_seq d) |}.

(** [new_asset_tag || existingPair.asset_tag] *)
Definition updateAssetTag (rq : ReplaceRequest) (existingPair : PairRow) : string :=
  if truthy (new_asset_tag rq) then default "" (new_asset_tag rq)
  else pr_asset_tag existingPair.

(** [new_serial || existingPair.serial] *)
Definition updateSerial (rq : ReplaceRequest) (existingPair : PairRow) : string :=
  if truthy (new_serial rq) then default "" (new_serial rq)
  else pr_serial existingPair.

(** The handler: the reply and the database once its statements have
    run.  The update of [asset_tags] is issued after the insert and its
    error is only logged. *)
Definition replace_pair (plan : list PairRow → list PairRow) (flt : Faults)
    (clk : Clock) (moment : nat) (user : string) (rq : ReplaceRequest) (d : Database)
    : ReplaceReply * Database :=
  if negb (truthy (searchBy rq)) || negb (truthy (value rq))
     || (negb (truthy (new_asset_tag rq)) && negb (truthy (new_serial rq)))
  then (refused 400 "Missing required parameters", d)
  else if find_fails flt then (refused 500 "Database error", d)
  else match most_recent (plan (List.filter (wanted rq) (pairs d))) with
       | None => (refused 404 "No matching pair found", d)
       | Some existingPair =>
           let t := updateAssetTag rq existingPair in
           let s := updateSerial rq existingPair in
           match (if insert_fails flt then None
                  else insert_pair t s user (js_now clk moment) d) with
           | None => (refused 500 "Failed to create replacement pair", d)
           | Some d1 =>
               ({| rr_code := 200; rr_success := true;
                   rr_message := "Successfully replaced " ++ default "" (searchBy rq)
                                 ++ " " ++ default "" (value rq)
                                 ++ " with new serial " ++ s |},
                if update_fails flt then d1
                else update_tag_used t s (sql_now clk moment) d1)
           end
       end.

End Endpoints.

(** * The server: the authentication middleware (lines 64-79) *)

Module Middleware.
Import Endpoints.

(** [s.split(' ')]: the pieces between single spaces. *)
Fixpoint split_on_space (s : string) : list string :=
  match s with
  | EmptyString => [EmptyString]
  | String c s' =>
      if Ascii.eqb c " " then EmptyString :: split_on_space s'
      else match split_on_space s' with
           | piece :: pieces => String c piece :: pieces
           | [] => [String c EmptyString]
           end
  end.

(** [authHeader && authHeader.split(' ')[1]] *)
Definition token_of (authHeader : option string) : option string :=
  if truthy authHeader then split_on_space (default "" authHeader) !! 1
  else None.

(** [authenticateToken]: [verify] is [jwt.verify] with the secret of the
    server, giving the user of a valid token.  The handler behind the
    middleware runs for that user ([Sends]); otherwise the middleware
    answers itself. *)
Definition authenticateToken (verify : string → option string)
    (authHeader : option string) : Reply string :=
  let token := token_of authHeader in
  if negb (truthy token) then Fails 401 "Access token required"
  else match verify (default "" token) with
       | None => Fails 403 "Invalid or expired token"
       | Some user => Sends user
       end.

End Middleware.

(** * The client: the session in [App.tsx] *)

Module App.
Import Db Runtime.

(** The React state of [App] that the session handlers read and write. *)
Record State := {
  isLoggedIn : bool;
  username : string;
  refreshTrigger : nat;
  isLoading : bool
}.

Definition setIsLoggedIn (b : bool) (a : State) : State :=
  {| isLoggedIn := b; username := username a; refreshTrigger := refreshTrigger a;
     isLoading := isLoading a |}.

Definition setUsername (u : string) (a : State) : State :=
  {| isLoggedIn := isLoggedIn a; username := u; refreshTrigger := refreshTrigger a;
     isLoading := isLoading a |}.

Definition setRefreshTrigger (k : nat) (a : State) : State :=
  {| isLoggedIn := isLoggedIn a; username := username a; refreshTrigger := k;
     isLoading := isLoading a |}.

Definition setIsLoading (b : bool) (a : State) : State :=
  {| isLoggedIn := isLoggedIn a; username := username a; refreshTrigger := refreshTrigger a;
     isLoading := b |}.

(** [api.logout()] ([api.ts], lines 143-145) *)
Definition logout : M unit := dbHelpers.clearUserData.

(** [checkAuthStatus()] (lines 62-79), run when the application starts;
    [navigator_onLine] is [navigator.onLine].  What was set before the
    refresh stays set when the refresh throws, hence the inner handler. *)
Definition checkAuthStatus (navigator_onLine : bool) (a : State) : M State :=
  a' <- try_catch
          (token <- dbHelpers.getCurrentAuthToken ;;
           match token with
           | Some t =>
               let a := setUsername (Db.username t) (setIsLoggedIn true a) in
               try_catch
                 ((if navigator_onLine then NetworkManager.syncAssetTags else ret tt) ;;;
                  ret a)
                 (λ _, ret a)
           | None => ret a
           end)
          (λ _, ret a) ;;
  ret (setIsLoading false a').

(** [handleLogout()] (lines 91-100) *)
Definition handleLogout (a : State) : M State :=
  try_catch
    (logout ;;;
     ret (setRefreshTrigger 0 (setUsername "" (setIsLoggedIn false a))))
    (λ _, ret a).

End App.

(** * Concrete stores and sessions used as test cases *)

Module ClientExamples.
Import Db Runtime.

Definition pair (k : nat) (t s : string) (st : PairStatus) : Pair :=
  {| pair_id := k; pair_asset_tag := t; pair_serial := s;
     pair_scanned_at := "2024-04-30T09:00:00.000Z"; pair_status := st |}.

Definition batch (k : nat) (its : list Pair) (st : BatchStatus) (at_ : string)
    (msg : option string) : UploadBatch :=
  {| batch_id := k; batch_items := its; batch_status := st;
     batch_created_at := at_; batch_error_message := msg |}.

Definition cached (t : string) (st : TagStatus) (ls : option string) : AssetTag :=
  {| tag := t; tag_status := st; last_serial := ls;
     updated_at := "2024-04-01T08:00:00.000Z" |}.

Definition session : AuthToken :=
  {| token_id := "current"; token := "jwt"; username := "admin";
     expires_at := "2024-05-02T00:00:00.000Z" |}.

(** The wall clock: one reading per second from 10:00 on 1 May 2024. *)
Definition wall_clock (k : nat) : string :=
  "2024-05-01T10:00:" ++ (if Nat.ltb k 10 then "0" else "") ++ pretty k ++ ".000Z".

Definition a_store (ps : list Pair) (q : list UploadBatch) : Store :=
  {| pairs := ps; pairs_key := 10; uploadQueue := q; uploadQueue_key := 10;
     assetTags := <["AT001" := cached "AT001" used (Some "SN1")]>
                    (<["AT002" := cached "AT002" unused None]> ∅);
     authTokens := <["current" := session]> ∅ |}.

Definition a_world (ps : list Pair) (q : list UploadBatch)
    (net : nat → FetchOutcome) : World :=
  {| store := a_store ps q; isOnline := false; clock := wall_clock; ticks := 0;
     network := net; sent := [] |}.

Definition replies (r : HttpResponse) : nat → FetchOutcome := λ _, Responds r.

Definition ok_results (rs : list PairUploadResponse) : HttpResponse :=
  {| http_status := 200; body_text := ""; body_json := JsonResults rs |}.

Definition response_401 : HttpResponse :=
  {| http_status := 401; body_text := "Access token required";
     body_json := JsonOther |}.

Definition result (st : UploadStatus) (t s : string) : PairUploadResponse :=
  {| res_status := st; res_asset_tag := t; res_serial := s; res_message := None |}.

Definition stamp1 : string := "2024-04-30T09:00:00.000Z".

Definition stamp2 : string := "2024-04-30T09:05:00.000Z".

Definition stamp3 : string := "2024-04-30T09:10:00.000Z".

(** A queue holding one batch whose upload failed earlier. *)
Definition failed_batch : UploadBatch :=
  batch 1 [pair 1 "AT001" "SN1" p_pending] b_error stamp1 (Some "Failed to fetch").

Definition failed_world : World :=
  a_world [pair 1 "AT001" "SN1" p_pending] [failed_batch]
          (replies (ok_results [result ok_inserted "AT001" "SN1"])).

(** Three batches: the oldest failed earlier, the other two are pending;
    the first upload fails with a 500, the second succeeds. *)
Definition queue3 : list UploadBatch :=
  [ batch 1 [pair 1 "AT001" "SN1" p_pending] b_error stamp1 (Some "Failed to fetch");
    batch 2 [pair 2 "AT002" "SN2" p_pending] b_pending stamp2 None;
    batch 3 [pair 3 "AT002" "SN3" p_pending] b_pending stamp3 None ].

Definition net3 (k : nat) : FetchOutcome :=
  match k with
  | 0 => Responds {| http_status := 500; body_text := "Database error"; body_json := JsonOther |}
  | _ => Responds (ok_results [result ok_inserted "AT002" "SN3"])
  end.

Definition world3 : World :=
  a_world [pair 1 "AT001" "SN1" p_pending; pair 2 "AT002" "SN2" p_pending;
           pair 3 "AT002" "SN3" p_pending] queue3 net3.



(** A batch of two pairs, one accepted and one whose tag is missing. *)
Definition mixed_batch : UploadBatch :=
  batch 1 [pair 1 "AT002" "SN2" p_pending; pair 2 "AT999" "SN9" p_pending]
        b_pending stamp1 None.



(** A session with one pending pair and one queued batch. *)
Definition busy_world (net : nat → FetchOutcome) : World :=
  a_world [pair 1 "AT002" "SN2" p_pending]
          [batch 1 [pair 1 "AT002" "SN2" p_pending] b_pending stamp1 None] net.

(** The cache of [a_world] has AT001 used with SN1, AT002 unused. *)
Definition idle_world : World := a_world [] [] (replies response_401).

(** What the remote lists: a tag it last changed in 2031, by its clock. *)
Definition remote_tags : list AssetTagResponse :=
  [ {| atr_tag := "AT003"; atr_status := used; atr_last_serial := Some "SN7";
       atr_updated_at := "2031-01-01 00:00:00" |} ].

Definition refresh_world : World :=
  with_isOnline true
    (a_world [] [] (replies {| http_status := 200; body_text := "";
                               body_json := JsonTags remote_tags |})).

(** The form of the pair builder as the operator filled it in. *)
Definition form (t s : string) : PairBuilder.State :=
  {| PairBuilder.assetTag := t; PairBuilder.serial := s; PairBuilder.error := "";
     PairBuilder.success := ""; PairBuilder.isValidating := false;
     PairBuilder.showMissingTagDialog := false; PairBuilder.toasts := [];
     PairBuilder.pairsAdded := 0 |}.

End ClientExamples.

(** * Concrete databases and requests used as test cases of the endpoints *)

Module EndpointExamples.
Import Server Endpoints ServerExamples.

Definition row (k : nat) (t s at_ : string) : PairRow :=
  {| pr_id := k; pr_asset_tag := t; pr_serial := s;
     pr_assigned_by := "admin"; pr_assigned_at := at_ |}.

Definition updated_tag : AssetTagRow :=
  {| at_status := used; at_last_serial := Some "SN2";
     at_updated_at := "2024-05-01 15:30:00" |}.

(** [AT001] was paired with [SN1], then with [SN2]; [AT002] is unused;
    [AT777] has a pair but no row in [asset_tags]. *)
Definition in_use : Database :=
  {| asset_tags := <["AT001" := updated_tag]> (<["AT002" := fresh_tag]> ∅);
     pairs := [ row 1 "AT001" "SN1" "2024-04-30T09:00:00.000Z";
                row 2 "AT001" "SN2" "2024-05-01T15:30:00.000Z";
                row 3 "AT777" "SN2" "2024-05-01T16:00:00.000Z" ];
     pairs_seq := 4 |}.

Definition table_order (l : list PairRow) : list PairRow := l.

Definition no_faults : Faults :=
  {| find_fails := false; insert_fails := false; update_fails := false |}.

(** [{ searchBy: 'asset_tag', value: t, new_serial: s }] *)
Definition new_serial_for (t s : string) : ReplaceRequest :=
  {| searchBy := Some "asset_tag"; value := Some t;
     new_asset_tag := None; new_serial := Some s |}.

(** [{ searchBy: 'serial', value: s, new_asset_tag: t }] *)
Definition move_serial_to (s t : string) : ReplaceRequest :=
  {| searchBy := Some "serial"; value := Some s;
     new_asset_tag := Some t; new_serial := None |}.


Definition by_serial (s : string) : SearchQuery :=
  {| q_asset_tag := None; q_serial := Some s |}.

End EndpointExamples.

(** * Vocabulary of the statements about the server *)

Module ServerSpec.
Import Server.

(** An item has answered once its result is in [results]. *)
Definition responded (s : Stage) : bool :=
  match s with
  | AwaitUpdate | Finished => true
  | _ => false
  end.

Definition count_responded (l : list Stage) : nat :=
  length (List.filter responded l).

(** The result stored for item [i] names the tag and serial of the
    request item [i]. *)
Definition names_item (items : list PairUploadRequest) (i : nat)
    (r : PairUploadResponse) : Prop :=
  ∃ p, items !! i = Some p
       ∧ res_asset_tag r = req_asset_tag p ∧ res_serial r = req_serial p.

(** What holds of a request after any number of callbacks. *)
Record Inv (items : list PairUploadRequest) (h : Handler) : Prop := {
  inv_stages : length (stages h) = length items;
  inv_completed : completed h = count_responded (stages h);
  inv_results_len : length (results h) ≤ length items;
  inv_results :
    ∀ i s, stages h !! i = Some s → responded s = true →
           ∃ r, slot (results h) i = Some r ∧ names_item items i r;
  inv_response :
    response h = if decide (0 < length items ∧ completed h = length items)
                 then Some (results h) else None
}.

(** The four statements of one item finishing one after the other, with
    no statement of another item in between and no failure. *)
Definition chain (i : nat) : list Event := replicate 4 (ok_event i).

(** The tag of the item is in [asset_tags]. *)
Definition known (d : Database) (p : PairUploadRequest) : bool :=
  bool_decide (is_Some (asset_tags d !! req_asset_tag p)).

Definition item_pair_exists (d : Database) (p : PairUploadRequest) : bool :=
  pair_exists d (req_asset_tag p) (req_serial p).

(** Where the items stand when statements finish in the order issued:
    after [ph] rounds, an item whose tag is known has passed [ph]
    statements, and an item whose tag is missing has finished. *)
Definition at_phase (d0 : Database) (ph : nat) (p : PairUploadRequest) (s : Stage) : Prop :=
  match ph with
  | 0 => s = AwaitTag
  | 1 => if known d0 p then s = AwaitPair else s = Finished
  | 2 => if known d0 p then ∃ st a, s = AwaitInsert st a else s = Finished
  | 3 => if known d0 p then s = AwaitUpdate else s = Finished
  | _ => s = Finished
  end.

(** Effect of the update issued for one item on what is seen of the tags. *)
Definition touch (v : string → option (TagStatus * option string))
    (p : PairUploadRequest) : string → option (TagStatus * option string) :=
  λ t, if decide (t = req_asset_tag p)
       then (λ _, (used, Some (req_serial p))) <$> v t
       else v t.

(** The serial of the last item of the batch with tag [t]. *)
Definition last_serial_for (t : string) (items : list PairUploadRequest) : option string :=
  foldl (λ acc p, if decide (t = req_asset_tag p) then Some (req_serial p) else acc)
        None items.

(** In round [ph], after the first [k] items had their turn. *)
Record FifoInv (items : list PairUploadRequest) (d0 : Database) (ph k : nat)
    (h : Handler) : Prop := {
  fifo_len : length (stages h) = length items;
  fifo_stages :
    ∀ i p s, items !! i = Some p → stages h !! i = Some s →
             at_phase d0 (if decide (i < k) then S ph else ph) p s;
  fifo_tags :
    ∀ t, tag_state (db h) t
         = if decide (ph = 3) then foldl touch (tag_state d0) (take k items) t
           else tag_state d0 t
}.

Definition fault_free (sched : list Event) : Prop :=
  Forall (λ e, ev_err e = false) sched.

(** What the result of an item that has answered says, when no statement
    failed: the tag was missing, or the pair is now stored and the status
    is a success, [ok_overwrite_same_pair] if the pair was stored before
    the request. *)
Definition answer_ok (d0 : Database) (h : Handler) (i : nat) (p : PairUploadRequest) : Prop :=
  ∃ r, slot (results h) i = Some r
       ∧ ((res_status r = missing_asset_tag ∧ known d0 p = false)
          ∨ (is_success r = true ∧ known d0 p = true
             ∧ item_pair_exists (db h) p = true
             ∧ (item_pair_exists d0 p = true → res_status r = ok_overwrite_same_pair))).

Definition stage_ok (d0 : Database) (h : Handler) (i : nat) (p : PairUploadRequest)
    (s : Stage) : Prop :=
  match s with
  | AwaitTag => True
  | AwaitPair => known d0 p = true
  | AwaitInsert st _ =>
      known d0 p = true
      ∧ (st = ok_inserted ∨ st = ok_overwrite_same_pair)
      ∧ (item_pair_exists d0 p = true → st = ok_overwrite_same_pair)
  | AwaitUpdate => known d0 p = true ∧ answer_ok d0 h i p
  | Finished => answer_ok d0 h i p
  end.

(** What holds of a request started on [d0] while no statement fails. *)
Record Merged (items : list PairUploadRequest) (d0 : Database) (h : Handler) : Prop := {
  mg_known : ∀ t, is_Some (asset_tags (db h) !! t) ↔ is_Some (asset_tags d0 !! t);
  mg_pairs : ∀ t s, pair_exists d0 t s = true → pair_exists (db h) t s = true;
  mg_stage : ∀ i p s, items !! i = Some p → stages h !! i = Some s → stage_ok d0 h i p s
}.

(** No two items of the batch give the same tag two serials. *)
Definition consistent (items : list PairUploadRequest) : Prop :=
  ∀ p q, p ∈ items → q ∈ items →
         req_asset_tag p = req_asset_tag q → req_serial p = req_serial q.

(** Every statement of the request has run. *)
Definition all_finished (h : Handler) : Prop :=
  ∀ i s, stages h !! i = Some s → s = Finished.

(** A tag carries the serial of an item of the batch. *)
Definition set_by_batch (items : list PairUploadRequest) (d : Database) (t : string) : Prop :=
  ∃ q, q ∈ items ∧ req_asset_tag q = t
       ∧ tag_state d t = Some (used, Some (req_serial q)).

(** What holds of the tags while no statement fails, in whatever order
    the statements finish: a tag is as it was or carries the serial of an
    item, and it does carry one once an item with that tag has finished. *)
Record Settled (items : list PairUploadRequest) (d0 : Database) (h : Handler) : Prop := {
  st_tags : ∀ t, tag_state (db h) t = tag_state d0 t ∨ set_by_batch items (db h) t;
  st_done : ∀ i p, items !! i = Some p → stages h !! i = Some Finished →
                   known d0 p = true → set_by_batch items (db h) (req_asset_tag p)
}.

(** The tags after a batch, when the batch is consistent. *)
Definition tags_after (items : list PairUploadRequest)
    (v : string → option (TagStatus * option string)) (t : string)
    : option (TagStatus * option string) :=
  match List.find (λ p, bool_decide (req_asset_tag p = t)) items with
  | Some p => (λ _, (used, Some (req_serial p))) <$> v t
  | None => v t
  end.

End ServerSpec.

(** * Vocabulary of the statements about the client *)

Module ClientSpec.
Import Db Runtime.

(** The world an asynchronous function leaves behind. *)
Definition after {A} (m : M A) (w : World) : World := snd (m w).

(** A relation between the world before and after is kept by [m]. *)
Definition preserves {A} (R : World → World → Prop) (m : M A) : Prop :=
  ∀ w, R w (after m w).

(** Nothing but the cache of asset tags and the clock has moved. *)
Definition only_cache_changed (w w' : World) : Prop :=
  sent w' = sent w ∧ network w' = network w ∧ isOnline w' = isOnline w
  ∧ clock w' = clock w
  ∧ pairs (store w') = pairs (store w)
  ∧ uploadQueue (store w') = uploadQueue (store w).

(** Nothing but the table of pairs has changed. *)
Definition only_pairs_changed (w w' : World) : Prop :=
  sent w' = sent w ∧ network w' = network w ∧ isOnline w' = isOnline w
  ∧ clock w' = clock w ∧ ticks w' = ticks w
  ∧ assetTags (store w') = assetTags (store w)
  ∧ uploadQueue (store w') = uploadQueue (store w).

(** Every record of the cache is one that was there before or carries a
    reading of the local clock taken in between. *)
Definition stamped_locally (w w' : World) : Prop :=
  clock w' = clock w ∧ ticks w ≤ ticks w'
  ∧ ∀ t a, assetTags (store w') !! t = Some a →
           assetTags (store w) !! t = Some a
           ∨ ∃ k, ticks w ≤ k < ticks w' ∧ updated_at a = clock w k.

(** The response of [GET /asset-tags] with the [updated_at] of the remote
    blanked out. *)
Definition without_remote_time (t : AssetTagResponse) : AssetTagResponse :=
  {| atr_tag := atr_tag t; atr_status := atr_status t;
     atr_last_serial := atr_last_serial t; atr_updated_at := "" |}.

(** Only the token table and the clock have moved. *)
Definition only_token_changed (w w' : World) : Prop :=
  sent w' = sent w ∧ network w' = network w ∧ isOnline w' = isOnline w
  ∧ clock w' = clock w ∧ ticks w ≤ ticks w'
  ∧ pairs (store w') = pairs (store w)
  ∧ uploadQueue (store w') = uploadQueue (store w)
  ∧ assetTags (store w') = assetTags (store w).

(** The world after [fetch(r)]. *)
Definition sending (r : Request) (w : World) : World :=
  {| store := store w; isOnline := isOnline w; clock := clock w;
     ticks := ticks w; network := network w; sent := sent w ++ [r] |}.

(** The store after [clearUserData()]. *)
Definition user_data_cleared (s : Store) : Store :=
  set_authTokens (λ _, ∅) (set_uploadQueue (λ _, []) (set_pairs (λ _, []) s)).

(** [fetch] came back with a 401. *)
Definition unauthorized (o : FetchOutcome) : bool :=
  match o with
  | Responds r => Nat.eqb (http_status r) 401
  | NetworkFails _ => false
  end.

(** The message captured when the upload of a batch fails, [None] when
    the response is an array of results. *)
Definition replay_failure (o : FetchOutcome) : option string :=
  match o with
  | NetworkFails msg => Some msg
  | Responds r =>
      if ApiClient.ok r then
        match body_json r with
        | JsonResults _ => None
        | _ => Some "results is not iterable"
        end
      else Some ("API Error: " ++ pretty (http_status r) ++ " - " ++ body_text r)
  end.

(** The row of a batch after its replay came back with [o]. *)
Definition batch_after (o : FetchOutcome) (b : UploadBatch) : UploadBatch :=
  match replay_failure o with
  | None => with_batch_status b_done b
  | Some msg => with_batch_error msg b
  end.

(** Index of the first batch of [bs] with id [k]. *)
Fixpoint position (k : nat) (bs : list UploadBatch) : option nat :=
  match bs with
  | [] => None
  | b :: bs => if decide (batch_id b = k) then Some 0 else S <$> position k bs
  end.

(** Oldest first. *)
Definition created_before (a b : UploadBatch) : Prop :=
  String.leb (batch_created_at a) (batch_created_at b) = true.

Definition is_pending (b : UploadBatch) : bool :=
  bool_decide (batch_status b = b_pending).

(** Some item of the batch has the tag and serial of the row, and the
    first entry of the response with that tag and serial is a success. *)
Definition marked_uploaded (rs : list PairUploadResponse) (its : list Pair) (row : Pair) : bool :=
  existsb (λ it, pair_matches (pair_asset_tag it) (pair_serial it) row
                 && match NetworkManager.result_for rs it with
                    | Some r => is_success r
                    | None => false
                    end) its.


(** The world with another network behind it. *)
Definition with_network (n : nat → FetchOutcome) (w : World) : World :=
  {| store := store w; isOnline := isOnline w; clock := clock w;
     ticks := ticks w; network := n; sent := sent w |}.

(** What [fetch] comes back with, the [updated_at] of every asset tag in
    the body blanked out. *)
Definition erase_remote_times (o : FetchOutcome) : FetchOutcome :=
  match o with
  | Responds r =>
      Responds {| http_status := http_status r; body_text := body_text r;
                  body_json := match body_json r with
                               | JsonTags ts => JsonTags (without_remote_time <$> ts)
                               | j => j
                               end |}
  | NetworkFails msg => NetworkFails msg
  end.

(** The loop of [syncAssetTags] over the response. *)
Definition upsert_all (ts : list AssetTagResponse) : M unit :=
  for_of ts (λ t, dbHelpers.updateAssetTag (atr_tag t) (atr_status t) (atr_last_serial t)).

(** The two loops of a replay, over the response and over the items of
    the batch. *)
Definition apply_results (rs : list PairUploadResponse) : M unit :=
  for_of rs (λ result,
    if is_success result
    then dbHelpers.updateAssetTag (res_asset_tag result) used (Some (res_serial result))
    else ret tt).

Definition mark_uploaded (rs : list PairUploadResponse) (its : list Pair) : M unit :=
  for_of its (λ pair,
    match NetworkManager.result_for rs pair with
    | Some result =>
        if is_success result
        then write_store (pairs_modify_where (pair_asset_tag pair) (pair_serial pair) p_uploaded)
        else ret tt
    | None => ret tt
    end).

(** The row of the queue with the id of [b] becomes [f] of it. *)
Definition update_row (b : UploadBatch) (f : UploadBatch → UploadBatch)
    (q : list UploadBatch) : list UploadBatch :=
  List.map (λ x, if decide (batch_id x = batch_id b) then f x else x) q.

(** The queue after the batches [bs] were replayed one after the other,
    the first of them with the [k0]-th [fetch] of the session. *)
Definition queue_after (net : nat → FetchOutcome) (k0 : nat) (bs : list UploadBatch)
    (q : list UploadBatch) : list UploadBatch :=
  List.map (λ x, match position (batch_id x) bs with
                 | Some k => batch_after (net (k0 + k)) x
                 | None => x
                 end) q.

(** The row of a pair after a batch with items [its] came back with [rs]. *)
Definition pair_after (rs : list PairUploadResponse) (its : list Pair) (row : Pair) : Pair :=
  if marked_uploaded rs its row then with_pair_status p_uploaded row else row.

End ClientSpec.

(** * Vocabulary of the statements that hold with failing statements *)

Module BatchSpec.
Import Server ServerSpec.

(** What the stage of an item says about its tag. *)
Definition stage_kept (d0 : Database) (p : PairUploadRequest) (s : Stage) : Prop :=
  match s with
  | AwaitPair => known d0 p = true
  | AwaitInsert st _ =>
      known d0 p = true ∧ (st = ok_inserted ∨ st = ok_overwrite_same_pair)
  | _ => True
  end.

(** What a stored result says: never [asset_tag_in_use]; a success only
    for a registered tag and a pair that is stored; [missing_asset_tag]
    only for a tag that is not registered. *)
Definition result_kept (d0 d : Database) (r : PairUploadResponse) : Prop :=
  res_status r ≠ asset_tag_in_use
  ∧ (is_success r = true →
       pair_exists d (res_asset_tag r) (res_serial r) = true
       ∧ is_Some (asset_tags d0 !! res_asset_tag r))
  ∧ (res_status r = missing_asset_tag → asset_tags d0 !! res_asset_tag r = None).

(** The pair is an item of the batch whose tag is registered. *)
Definition from_batch (items : list PairUploadRequest) (d0 : Database) (t s : string) : Prop :=
  ∃ p, p ∈ items ∧ req_asset_tag p = t ∧ req_serial p = s ∧ known d0 p = true.

(** What holds of a request started on [d0] after any number of
    callbacks, whichever statements fail. *)
Record Kept (items : list PairUploadRequest) (d0 : Database) (h : Handler) : Prop := {
  kept_tags : ∀ t, is_Some (asset_tags (db h) !! t) ↔ is_Some (asset_tags d0 !! t);
  kept_pairs : ∀ t s, pair_exists d0 t s = true → pair_exists (db h) t s = true;
  kept_new_pairs : ∀ t s, pair_exists (db h) t s = true → pair_exists d0 t s = true ∨ from_batch items d0 t s;
  kept_state : ∀ t, tag_state (db h) t = tag_state d0 t ∨ set_by_batch items (db h) t;
  kept_stage : ∀ i p s, items !! i = Some p → stages h !! i = Some s → stage_kept d0 p s;
  kept_results : ∀ i r, slot (results h) i = Some r → result_kept d0 (db h) r
}.

End BatchSpec.

(** * Vocabulary of the statements about the store and about a sync *)

Module SyncSpec.
Import Db Runtime.

(** The columns of a cached tag that a sync carries: status and last
    serial. *)
Definition cache_view (s : Store) (t : string) : option (TagStatus * option string) :=
  (λ a, (tag_status a, last_serial a)) <$> assetTags s !! t.

(** The last entry of a listing that names the tag. *)
Definition listed_last (t : string) (ts : list AssetTagResponse) : option AssetTagResponse :=
  foldl (λ acc x, if bool_decide (atr_tag x = t) then Some x else acc) None ts.


(** An item of a batch as the server destructures it from the body:
    [{ asset_tag, serial, scanned_at }]. *)
Definition as_request (p : Pair) : PairUploadRequest :=
  {| req_asset_tag := pair_asset_tag p; req_serial := pair_serial p;
     req_scanned_at := Some (pair_scanned_at p) |}.

(** What the tables of the store are by construction: the ids of an
    auto-incremented table are distinct and below its key generator, and
    a cached tag is stored under its own name. *)
Definition store_wf (s : Store) : Prop :=
  NoDup (pair_id <$> pairs s)
  ∧ Forall (λ p, pair_id p < pairs_key s) (pairs s)
  ∧ NoDup (batch_id <$> uploadQueue s)
  ∧ Forall (λ b, batch_id b < uploadQueue_key s) (uploadQueue s)
  ∧ map_Forall (λ t a, tag a = t) (assetTags s).

(** A property of the store that holds after if it held before. *)
Definition keeps (P : Store → Prop) (w w' : World) : Prop :=
  P (store w) → P (store w').

(** No pair and no batch is left. *)
Definition emptied (s : Store) : Prop :=
  pairs s = [] ∧ uploadQueue s = [].

(** The header [makeRequest] sends for the session stored in [w]. *)
Definition bearer (w : World) : option string :=
  match authTokens (store w) !! "current" with
  | Some t =>
      if String.leb (expires_at t) (clock w (ticks w)) then None
      else if nonempty (token t) then Some ("Bearer " ++ token t)
      else None
  | None => None
  end.

(** The list of tags a refresh gets: the answer is a 2xx whose body is
    a list of tags. *)
Definition listing_of (o : FetchOutcome) : option (list AssetTagResponse) :=
  match o with
  | Responds r =>
      if ApiClient.ok r then
        match body_json r with
        | JsonTags ts => Some ts
        | _ => None
        end
      else None
  | NetworkFails _ => None
  end.

(** The [since] a refresh asks with: the greatest [updated_at] of the
    cache, nothing when the cache is empty. *)
Definition watermark (s : Store) : option string :=
  let since := updated_at <$> assetTags_last_by_updated_at s in
  if truthy since then since else None.

Fixpoint has_space (s : string) : bool :=
  match s with
  | EmptyString => false
  | String c s' => Ascii.eqb c " " || has_space s'
  end.

End SyncSpec.

(** * Concrete sessions used as test cases of a sync against the server *)

Module SyncExamples.
Import Db Runtime ClientSpec SyncSpec ClientExamples.

(** The listing the server sends for [since]. *)
Definition served_listing (d : Server.Database) (since : option string)
    : list AssetTagResponse :=
  match Endpoints.get_asset_tags false since d with
  | Endpoints.Sends ts => ts
  | Endpoints.Fails _ _ => []
  end.

(** The results the server sends for the items of a batch. *)
Definition served_results (d : Server.Database) (b : UploadBatch)
    : list PairUploadResponse :=
  match Server.response (Server.batch_handler ServerExamples.clk "admin" d
                           (as_request <$> batch_items b)) with
  | Some rs => omap id rs
  | None => []
  end.

(** A client online whose refresh is answered by the server holding
    [EndpointExamples.in_use]. *)
Definition refreshing_world : World :=
  with_isOnline true
    (a_world [] []
       (replies {| http_status := 200; body_text := "";
                   body_json := JsonTags (served_listing EndpointExamples.in_use
                                            (watermark (a_store [] []))) |})).

(** A client whose upload of [mixed_batch] is answered by the server
    right after its start-up. *)
Definition uploading_world : World :=
  a_world [pair 1 "AT002" "SN2" p_pending; pair 2 "AT999" "SN9" p_pending]
          [mixed_batch]
          (replies (ok_results (served_results ServerExamples.seeded mixed_batch))).

(** A session whose token expired the day before, with one batch
    pending. *)
Definition expired_session : AuthToken :=
  {| token_id := "current"; token := "jwt"; username := "admin";
     expires_at := "2024-04-30T00:00:00.000Z" |}.

Definition expired_world : World :=
  {| store := set_authTokens (λ _, <["current" := expired_session]> ∅)
                (a_store [pair 1 "AT002" "SN2" p_pending; pair 2 "AT999" "SN9" p_pending]
                         [mixed_batch]);
     isOnline := false; clock := wall_clock; ticks := 0;
     network := replies response_401; sent := [] |}.

(** The same pair scanned twice, after another one. *)
Definition scanned_twice : World :=
  a_world [pair 1 "AT001" "SN1" p_pending; pair 2 "AT002" "SN2" p_pending;
           pair 3 "AT002" "SN2" p_pending] [] (replies response_401).

(** Two items with different tags, and their statements run item by
    item. *)
Definition two : list PairUploadRequest :=
  [ServerExamples.item "AT001" "SN1"; ServerExamples.item "AT002" "SN2"].

Definition item_by_item : list Server.Event :=
  ServerSpec.chain 0 ++ ServerSpec.chain 1.

(** The state of [App] when the application starts. *)
Definition starting : App.State :=
  {| App.isLoggedIn := false; App.username := ""; App.refreshTrigger := 0;
     App.isLoading := true |}.

(** A session with a pending pair and a queued batch, online, whose
    requests the server rejects. *)
Definition rejected_world : World :=
  with_isOnline true (busy_world (replies response_401)).

End SyncExamples.

(** * Proofs *)

Open Scope list_scope.

(** * Facts about JavaScript arrays with holes *)

Section ArraySet.
Context {A : Type}.
Implicit Types (arr : list (option A)) (v : A) (i j : nat).

Lemma array_set_length arr i v :
  length (array_set i v arr) = max (length arr) (S i).
Proof.
  unfold array_set. case_decide.
  - rewrite length_insert. lia.
  - rewrite !length_app, length_replicate. simpl. lia.
Qed.

Lemma array_set_lookup arr i v : array_set i v arr !! i = Some (Some v).
Proof.
  unfold array_set. case_decide.
  - by rewrite list_lookup_insert_eq.
  - rewrite lookup_app_r by lia.
    rewrite lookup_app_r by (rewrite length_replicate; lia).
    rewrite length_replicate.
    by replace (i - length arr - (i - length arr)) with 0 by lia.
Qed.

Lemma slot_array_set_eq arr i v : slot (array_set i v arr) i = Some v.
Proof. unfold slot. by rewrite array_set_lookup. Qed.

Lemma slot_array_set_ne arr i j v :
  i ≠ j → slot (array_set i v arr) j = slot arr j.
Proof.
  intros Hne. unfold slot, array_set. case_decide.
  - by rewrite list_lookup_insert_ne.
  - destruct (decide (j < length arr)) as [Hj|Hj].
    + by rewrite lookup_app_l.
    + rewrite (lookup_ge_None_2 arr j) by lia.
      rewrite lookup_app_r by lia.
      destruct (decide (j - length arr < i - length arr)) as [Hlt|Hge].
      * rewrite lookup_app_l by (rewrite length_replicate; lia).
        by rewrite lookup_replicate_2.
      * rewrite lookup_app_r by (rewrite length_replicate; lia).
        rewrite length_replicate.
        rewrite lookup_ge_None_2; [done | simpl; lia].
Qed.

Lemma slot_Some_lt arr i v : slot arr i = Some v → i < length arr.
Proof.
  unfold slot. destruct (arr !! i) eqn:E; [|done].
  intros _. by eapply lookup_lt_Some.
Qed.

Lemma slot_Some_lookup arr i v : slot arr i = Some v → arr !! i = Some (Some v).
Proof. unfold slot. destruct (arr !! i) as [[x|]|]; simpl; congruence. Qed.

End ArraySet.

(** * The batch handler: what every schedule preserves *)

Module ServerProofs.
Import Server ServerSpec.

Lemma count_responded_le l : count_responded l ≤ length l.
Proof.
  unfold count_responded. induction l as [|s l IH]; simpl; [lia|].
  destruct (responded s); simpl; lia.
Qed.

Lemma count_responded_insert l i s s' :
  l !! i = Some s →
  count_responded (<[i := s']> l) + (if responded s then 1 else 0)
  = count_responded l + (if responded s' then 1 else 0).
Proof.
  unfold count_responded. revert i.
  induction l as [|x l IH]; intros [|i] Hi; simpl in *; try done.
  - injection Hi as ->. destruct (responded s), (responded s'); simpl; lia.
  - specialize (IH i Hi). destruct (responded x); simpl; lia.
Qed.

Lemma count_responded_pending l i s :
  l !! i = Some s → responded s = false → count_responded l < length l.
Proof.
  unfold count_responded. revert i.
  induction l as [|x l IH]; intros [|i] Hi Hs; simpl in *; try done.
  - injection Hi as ->. rewrite Hs.
    pose proof (count_responded_le l). unfold count_responded in *. lia.
  - specialize (IH i Hi Hs). destruct (responded x); simpl; lia.
Qed.

Lemma count_responded_all l i s :
  count_responded l = length l → l !! i = Some s → responded s = true.
Proof.
  intros Hc Hi. destruct (responded s) eqn:E; [done|].
  pose proof (count_responded_pending _ _ _ Hi E). lia.
Qed.

Lemma count_responded_full l :
  (∀ s, s ∈ l → responded s = true) → count_responded l = length l.
Proof.
  unfold count_responded. induction l as [|s l IH]; intros Hall; [done|].
  simpl. rewrite Hall by left. simpl. f_equal. apply IH.
  intros s' Hs'. apply Hall. by right.
Qed.

Section Request.
Variables (clk : Clock) (user : string) (items : list PairUploadRequest).

Abbreviation n := (length items).
Abbreviation Inv := (Inv items).
Abbreviation names_item := (names_item items).

Lemma Inv_init d : Inv (init d items).
Proof.
  split; simpl.
  - by rewrite length_replicate.
  - unfold count_responded. induction n; simpl; auto.
  - lia.
  - intros i s Hi Hs. apply lookup_replicate in Hi as [-> _]. done.
  - case_decide as H; [|done]. lia.
Qed.

Lemma Inv_next_moment h : Inv h → Inv (next_moment h).
Proof. intros [? ? ? ? ?]. by split. Qed.

Lemma Inv_set_db d h : Inv h → Inv (set_db d h).
Proof. intros [? ? ? ? ?]. by split. Qed.

(** Moving an item between two stages on the same side of its answer. *)
Lemma Inv_set_stage h i s s' :
  Inv h → stages h !! i = Some s → responded s' = responded s →
  Inv (set_stage i s' h).
Proof.
  intros [H1 H2 H3 H4 H5] Hi Hr. split; simpl.
  - by rewrite length_insert.
  - pose proof (count_responded_insert _ _ _ s' Hi) as Hc.
    rewrite Hr in Hc. destruct (responded s); lia.
  - done.
  - intros j sj Hj Hsj. destruct (decide (i = j)) as [->|Hne].
    + rewrite list_lookup_insert_eq in Hj by (by eapply lookup_lt_Some).
      injection Hj as <-. apply (H4 j s Hi). congruence.
    + rewrite list_lookup_insert_ne in Hj by done. by apply (H4 j sj).
  - pose proof (count_responded_insert _ _ _ s' Hi) as Hc.
    rewrite Hr in Hc.
    assert (count_responded (<[i:=s']> (stages h)) = count_responded (stages h))
      by (destruct (responded s); lia).
    done.
Qed.

(** An item answers: its result is stored, the counter moves, and the
    response goes out when the counter reaches the length. *)
Lemma Inv_settle h i s r next :
  Inv h → stages h !! i = Some s → responded s = false →
  responded next = true → names_item i r →
  Inv (settle n i r next h).
Proof.
  intros [H1 H2 H3 H4 H5] Hi Hs Hnext Hr.
  pose proof (lookup_lt_Some _ _ _ Hi) as Hlt.
  pose proof (count_responded_insert _ _ _ next Hi) as Hc.
  rewrite Hs, Hnext in Hc.
  pose proof (count_responded_pending _ _ _ Hi Hs) as Hpend.
  split; simpl.
  - by rewrite length_insert.
  - lia.
  - rewrite array_set_length. lia.
  - intros j sj Hj Hsj. destruct (decide (i = j)) as [->|Hne].
    + exists r. by rewrite slot_array_set_eq.
    + rewrite list_lookup_insert_ne in Hj by done.
      rewrite slot_array_set_ne by done. by apply (H4 j sj).
  - rewrite H5. repeat case_decide; try done; lia.
Qed.

Lemma Inv_step e h : Inv h → Inv (step clk user items e h).
Proof.
  intros HI. unfold step.
  destruct (items !! ev_item e) as [p|] eqn:Hp; [|done].
  destruct (stages h !! ev_item e) as [s|] eqn:Hs; [|done].
  apply Inv_next_moment.
  destruct s; simpl;
    unfold on_tag_lookup, on_pair_lookup, on_insert, on_update, db_error;
    destruct (ev_err e); try destruct (select_tag _ _);
    first [ done
          | by (eapply Inv_set_stage; eauto using Inv_set_db)
          | eapply Inv_settle; eauto using Inv_set_db; by exists p ].
Qed.

Lemma Inv_run sched h : Inv h → Inv (run clk user items sched h).
Proof.
  unfold run. revert h. induction sched as [|e sched IH]; intros h HI; simpl; [done|].
  apply IH. by apply Inv_step.
Qed.

(** Whatever the order in which the statements finish, and whichever
    of them fail: once every item of a non-empty batch has answered,
    the response sent is an array of as many entries as the request,
    the entry at each index naming the tag and serial of the request
    item at that index. *)
Lemma response_aligned d sched :
  let h := run clk user items sched (init d items) in
  0 < n → completed h = n →
  ∃ rs, response h = Some rs ∧ length rs = n
        ∧ ∀ i p, items !! i = Some p →
            ∃ r, rs !! i = Some (Some r)
                 ∧ res_asset_tag r = req_asset_tag p
                 ∧ res_serial r = req_serial p.
Proof.
  intros h Hn Hc.
  destruct (Inv_run sched _ (Inv_init d)) as [H1 H2 H3 H4 H5]. fold h in H1, H2, H3, H4, H5.
  exists (results h). rewrite H5.
  assert (∀ i p, items !! i = Some p →
            ∃ r, results h !! i = Some (Some r)
                 ∧ res_asset_tag r = req_asset_tag p
                 ∧ res_serial r = req_serial p) as Hall.
  { intros i p Hp.
    destruct (lookup_lt_is_Some_2 (stages h) i) as [s Hs].
    { rewrite H1. by eapply lookup_lt_Some. }
    destruct (H4 i s Hs) as (r & Hr & p' & Hp' & Ht & Hse).
    { eapply count_responded_all; [|done]. lia. }
    exists r. split; [by apply slot_Some_lookup|].
    rewrite Hp in Hp'. injection Hp' as <-. done. }
  split; [case_decide; [done|lia]|]. split; [|done].
  destruct (lookup_lt_is_Some_2 items (n - 1)) as [p Hp]; [lia|].
  destruct (Hall _ _ Hp) as (r & Hr & _).
  apply lookup_lt_Some in Hr. lia.
Qed.

(** Nothing is ever sent before the last item has answered. *)
Lemma no_response_before_completion d sched :
  let h := run clk user items sched (init d items) in
  completed h < n → response h = None.
Proof.
  intros h Hc.
  destruct (Inv_run sched _ (Inv_init d)) as [_ _ _ _ H5]. fold h in H5.
  rewrite H5. case_decide; [lia|done].
Qed.

(** ** Running one item, and the schedule of the handler *)

Lemma step_ok_event h i p s :
  items !! i = Some p → stages h !! i = Some s →
  step clk user items (ok_event i) h
  = next_moment (advance clk user n i p s false h).
Proof. intros Hp Hs. unfold step. simpl. by rewrite Hp, Hs. Qed.


Lemma run_app s1 s2 h :
  run clk user items (s1 ++ s2) h = run clk user items s2 (run clk user items s1 h).
Proof. unfold run. by rewrite foldl_app. Qed.

Lemma round_S k : round (S k) = round k ++ [ok_event k].
Proof. unfold round. by rewrite seq_S, fmap_app. Qed.

Lemma run_round_S k h :
  run clk user items (round (S k)) h
  = step clk user items (ok_event k) (run clk user items (round k) h).
Proof. by rewrite round_S, run_app. Qed.

End Request.

(** ** Facts about the two tables *)

Lemma same_pair_true t s r :
  same_pair t s r = true ↔ pr_asset_tag r = t ∧ pr_serial r = s.
Proof.
  unfold same_pair. rewrite andb_true_iff, !String.eqb_eq. done.
Qed.

Lemma pair_exists_true d t s :
  pair_exists d t s = true ↔ ∃ r, r ∈ pairs d ∧ same_pair t s r = true.
Proof.
  unfold pair_exists, select_pair. rewrite bool_decide_eq_true. split.
  - intros [r Hr]. apply find_some in Hr as [Hin Hm].
    exists r. split; [by apply list_elem_of_In|done].
  - intros (r & Hin & Hm). apply list_elem_of_In in Hin.
    destruct (List.find (same_pair t s) (pairs d)) eqn:E; [by eexists|].
    eapply find_none in E; [|done]. congruence.
Qed.

Lemma pair_exists_insert_same t s by_ at_ d :
  pair_exists (insert_or_replace_pair t s by_ at_ d) t s = true.
Proof.
  apply pair_exists_true. eexists. split.
  - simpl. apply elem_of_app. right. apply list_elem_of_singleton. done.
  - apply same_pair_true. done.
Qed.

Lemma pair_exists_insert_mono t s t' s' by_ at_ d :
  pair_exists d t s = true →
  pair_exists (insert_or_replace_pair t' s' by_ at_ d) t s = true.
Proof.
  intros (r & Hin & Hm)%pair_exists_true.
  destruct (same_pair t' s' r) eqn:E.
  - apply same_pair_true in Hm as [<- <-]. apply same_pair_true in E as [<- <-].
    apply pair_exists_insert_same.
  - apply pair_exists_true. exists r. split; [|done].
    simpl. apply elem_of_app. left.
    apply list_elem_of_In, filter_In. split; [by apply list_elem_of_In|].
    by rewrite E.
Qed.

Lemma tag_state_is_Some d t :
  is_Some (tag_state d t) ↔ is_Some (asset_tags d !! t).
Proof. unfold tag_state. apply fmap_is_Some. Qed.

Lemma tag_state_update t s now d t' :
  tag_state (update_tag_used t s now d) t'
  = touch (tag_state d)
      {| req_asset_tag := t; req_serial := s; req_scanned_at := None |} t'.
Proof.
  unfold tag_state, touch, update_tag_used. simpl.
  case_decide as H.
  - subst. rewrite lookup_alter_eq. by destruct (asset_tags d !! t).
  - by rewrite lookup_alter_ne.
Qed.

Lemma known_update t s now d t' :
  is_Some (asset_tags (update_tag_used t s now d) !! t') ↔ is_Some (asset_tags d !! t').
Proof.
  rewrite <- !tag_state_is_Some, tag_state_update. unfold touch. simpl.
  case_decide; [|done]. by rewrite fmap_is_Some.
Qed.

(** ** One item on its own *)

Section Chain.
Variables (clk : Clock) (user : string) (items : list PairUploadRequest).



(** The four callbacks of an item, as equations. *)

Lemma step_tag_known h i p row :
  items !! i = Some p → stages h !! i = Some AwaitTag →
  asset_tags (db h) !! req_asset_tag p = Some row →
  step clk user items (ok_event i) h = next_moment (set_stage i AwaitPair h).
Proof.
  intros Hp Hs Ht. rewrite (step_ok_event _ _ _ _ _ _ _ Hp Hs). simpl.
  unfold on_tag_lookup, select_tag. by rewrite Ht.
Qed.

Lemma step_tag_missing h i p :
  items !! i = Some p → stages h !! i = Some AwaitTag →
  asset_tags (db h) !! req_asset_tag p = None →
  step clk user items (ok_event i) h
  = next_moment (settle (length items) i
      {| res_status := missing_asset_tag; res_asset_tag := req_asset_tag p;
         res_serial := req_serial p; res_message := Some "Asset tag not found"%string |}
      Finished h).
Proof.
  intros Hp Hs Ht. rewrite (step_ok_event _ _ _ _ _ _ _ Hp Hs). simpl.
  unfold on_tag_lookup, select_tag. by rewrite Ht.
Qed.

Lemma status_of_lookup_exists d t s :
  status_of_lookup (select_pair d t s)
  = if pair_exists d t s then ok_overwrite_same_pair else ok_inserted.
Proof.
  unfold pair_exists. by destruct (select_pair d t s).
Qed.

Lemma step_pair h i p :
  items !! i = Some p → stages h !! i = Some AwaitPair →
  step clk user items (ok_event i) h
  = next_moment (set_stage i
      (AwaitInsert (if item_pair_exists (db h) p then ok_overwrite_same_pair else ok_inserted)
                   (assigned_at_for clk p (tick h))) h).
Proof.
  intros Hp Hs. rewrite (step_ok_event _ _ _ _ _ _ _ Hp Hs). simpl.
  unfold on_pair_lookup. by rewrite status_of_lookup_exists.
Qed.

Lemma step_insert h i p st a :
  items !! i = Some p → stages h !! i = Some (AwaitInsert st a) →
  step clk user items (ok_event i) h
  = next_moment (settle (length items) i
      {| res_status := st; res_asset_tag := req_asset_tag p;
         res_serial := req_serial p; res_message := None |}
      AwaitUpdate
      (set_db (insert_or_replace_pair (req_asset_tag p) (req_serial p) user a (db h)) h)).
Proof. intros Hp Hs. by rewrite (step_ok_event _ _ _ _ _ _ _ Hp Hs). Qed.

Lemma step_update h i p :
  items !! i = Some p → stages h !! i = Some AwaitUpdate →
  step clk user items (ok_event i) h
  = next_moment (set_stage i Finished
      (set_db (update_tag_used (req_asset_tag p) (req_serial p)
                 (sql_now clk (tick h)) (db h)) h)).
Proof. intros Hp Hs. by rewrite (step_ok_event _ _ _ _ _ _ _ Hp Hs). Qed.

Lemma step_finished h i p :
  items !! i = Some p → stages h !! i = Some Finished →
  step clk user items (ok_event i) h = next_moment h.
Proof. intros Hp Hs. by rewrite (step_ok_event _ _ _ _ _ _ _ Hp Hs). Qed.


End Chain.
(** ** Statements finishing in the order issued *)

Lemma foldl_touch_snoc v l p t :
  foldl touch v (l ++ [p]) t = touch (foldl touch v l) p t.
Proof. by rewrite foldl_app. Qed.

Lemma touch_ext v v' p t : v t = v' t → touch v p t = touch v' p t.
Proof. intros H. unfold touch. by rewrite H. Qed.

Lemma foldl_touch_last v l t :
  foldl touch v l t
  = match last_serial_for t l with
    | Some s => (λ _, (used, Some s)) <$> v t
    | None => v t
    end.
Proof.
  induction l as [|p l IH] using rev_ind; [done|].
  rewrite foldl_touch_snoc. unfold last_serial_for. rewrite foldl_app. simpl.
  fold (last_serial_for t l). unfold touch at 1. rewrite IH.
  case_decide as H; [|done].
  destruct (last_serial_for t l); [|done].
  by destruct (v t).
Qed.


Section Fifo.
Variables (clk : Clock) (user : string) (items : list PairUploadRequest) (d0 : Database).

Abbreviation FifoInv := (FifoInv items d0).

Lemma FifoInv_init : FifoInv 0 0 (init d0 items).
Proof.
  split; simpl.
  - by rewrite length_replicate.
  - intros i p s _ Hs. apply lookup_replicate in Hs as [-> _]. done.
  - done.
Qed.

Lemma FifoInv_next ph h :
  FifoInv ph (length items) h → ph < 3 → FifoInv (S ph) 0 h.
Proof.
  intros [H1 H2 H3] Hph. split; [done| |].
  - intros i p s Hp Hs. specialize (H2 i p s Hp Hs).
    apply lookup_lt_Some in Hp. rewrite decide_True in H2 by done.
    by rewrite decide_False by lia.
  - intros t. rewrite H3.
    destruct (decide (ph = 3)); [lia|]. by destruct (decide (S ph = 3)).
Qed.

(** The turn of item [k]: its stage moves one round on, the other stages
    stay, and the tags change by the update of item [k] in the last
    round only. *)
Lemma FifoInv_turn ph k h h' p :
  FifoInv ph k h → items !! k = Some p →
  length (stages h') = length (stages h) →
  (∀ i, i ≠ k → stages h' !! i = stages h !! i) →
  (∀ s', stages h' !! k = Some s' → at_phase d0 (S ph) p s') →
  (∀ t, tag_state (db h') t
        = if decide (ph = 3) then touch (tag_state (db h)) p t else tag_state (db h) t) →
  FifoInv ph (S k) h'.
Proof.
  intros [H1 H2 H3] Hp Hlen Hother Hk Htags. split.
  - congruence.
  - intros i q s Hq Hs. destruct (decide (i = k)) as [->|Hne].
    + destruct (decide (k < S k)); [|lia]. rewrite Hp in Hq. injection Hq as <-. by apply Hk.
    + rewrite Hother in Hs by done. specialize (H2 i q s Hq Hs).
      repeat case_decide; try done; lia.
  - intros t. rewrite Htags. case_decide as Hph.
    + rewrite (take_S_r _ _ _ Hp), foldl_touch_snoc.
      apply touch_ext. rewrite H3. by destruct (decide (ph = 3)).
    + rewrite H3. by destruct (decide (ph = 3)).
Qed.

Lemma FifoInv_step ph k h :
  FifoInv ph k h → ph ≤ 3 → k < length items →
  FifoInv ph (S k) (step clk user items (ok_event k) h).
Proof.
  intros HI Hph Hk. pose proof HI as [H1 H2 H3].
  destruct (lookup_lt_is_Some_2 items k Hk) as [p Hp].
  destruct (lookup_lt_is_Some_2 (stages h) k) as [s Hs]; [by rewrite H1|].
  pose proof (H2 k p s Hp Hs) as Hat. rewrite decide_False in Hat by lia.
  assert (known d0 p = true ↔ is_Some (tag_state (db h) (req_asset_tag p))) as Hknown.
  { unfold known. rewrite bool_decide_eq_true, <- tag_state_is_Some, H3.
    case_decide; [|done]. rewrite foldl_touch_last.
    destruct (last_serial_for _ _); [|done]. by rewrite fmap_is_Some. }
  assert (∀ s1, <[k := s1]> (stages h) !! k = Some s1) as Hset
    by (intros; apply list_lookup_insert_eq; by eapply lookup_lt_Some).
  assert (ph = 0 ∨ ph = 1 ∨ ph = 2 ∨ ph = 3) as [-> | [-> | [-> | ->]]] by lia;
    simpl in Hat.
  - (* the tag lookups *)
    subst s. destruct (asset_tags (db h) !! req_asset_tag p) as [row|] eqn:Ht.
    + rewrite (step_tag_known _ _ _ _ _ _ _ Hp Hs Ht).
      eapply FifoInv_turn; eauto; simpl.
      * by rewrite length_insert.
      * intros i Hne. by rewrite list_lookup_insert_ne.
      * intros s'. rewrite Hset. intros [= <-].
        assert (known d0 p = true) as ->; [|done].
        apply Hknown, tag_state_is_Some. by rewrite Ht.
    + rewrite (step_tag_missing _ _ _ _ _ _ Hp Hs Ht).
      eapply FifoInv_turn; eauto; simpl.
      * by rewrite length_insert.
      * intros i Hne. by rewrite list_lookup_insert_ne.
      * intros s'. rewrite Hset. intros [= <-].
        assert (known d0 p = false) as ->; [|done].
        destruct (known d0 p) eqn:E; [exfalso|done].
        destruct Hknown as [Hk1 _]. specialize (Hk1 eq_refl).
        apply tag_state_is_Some in Hk1. rewrite Ht in Hk1. by destruct Hk1.
  - (* the pair lookups *)
    destruct (known d0 p) eqn:E; subst s.
    + rewrite (step_pair _ _ _ _ _ _ Hp Hs).
      eapply FifoInv_turn; eauto; simpl.
      * by rewrite length_insert.
      * intros i Hne. by rewrite list_lookup_insert_ne.
      * intros s'. rewrite Hset. intros [= <-]. rewrite E. eauto.
    + rewrite (step_finished _ _ _ _ _ _ Hp Hs).
      eapply FifoInv_turn; eauto; simpl.
      intros s'. rewrite Hs. intros [= <-]. by rewrite E.
  - (* the inserts *)
    destruct (known d0 p) eqn:E.
    + destruct Hat as (st & a & ->).
      rewrite (step_insert _ _ _ _ _ _ _ _ Hp Hs).
      eapply FifoInv_turn; eauto; simpl.
      * by rewrite length_insert.
      * intros i Hne. by rewrite list_lookup_insert_ne.
      * intros s'. rewrite Hset. intros [= <-]. by rewrite E.
    + subst s. rewrite (step_finished _ _ _ _ _ _ Hp Hs).
      eapply FifoInv_turn; eauto; simpl.
      intros s'. rewrite Hs. intros [= <-]. by rewrite E.
  - (* the updates *)
    destruct (known d0 p) eqn:E; subst s.
    + rewrite (step_update _ _ _ _ _ _ Hp Hs).
      eapply FifoInv_turn; eauto; simpl.
      * by rewrite length_insert.
      * intros i Hne. by rewrite list_lookup_insert_ne.
      * intros s'. by rewrite Hset; intros [= <-].
      * intros t. by rewrite tag_state_update.
    + rewrite (step_finished _ _ _ _ _ _ Hp Hs).
      eapply FifoInv_turn; eauto; simpl.
      * intros s'. by rewrite Hs; intros [= <-].
      * intros t. unfold touch. destruct (decide (t = req_asset_tag p)) as [->|]; [|done].
        destruct (tag_state (db h) (req_asset_tag p)) eqn:Hv; [exfalso|done].
        destruct Hknown as [_ Hk2]. discriminate Hk2. by eexists.
Qed.

Lemma FifoInv_round ph h :
  FifoInv ph 0 h → ph ≤ 3 →
  ∀ k, k ≤ length items → FifoInv ph k (run clk user items (round k) h).
Proof.
  intros HI Hph. induction k as [|k IH]; intros Hk; [done|].
  rewrite run_round_S. apply FifoInv_step; [|done|lia]. apply IH. lia.
Qed.

Lemma FifoInv_batch_handler :
  FifoInv 3 (length items) (batch_handler clk user d0 items).
Proof.
  unfold batch_handler, fifo. rewrite !run_app.
  repeat (apply FifoInv_round; [|lia|lia]; try apply FifoInv_next; [|lia]).
  apply FifoInv_round; [|lia|lia]. apply FifoInv_init.
Qed.

(** After the four rounds every item has finished, and the tags are the
    initial ones changed by the update of every item, in request order. *)
Lemma batch_handler_finished i s :
  stages (batch_handler clk user d0 items) !! i = Some s → s = Finished.
Proof.
  intros Hs. destruct FifoInv_batch_handler as [H1 H2 _].
  destruct (lookup_lt_is_Some_2 items i) as [p Hp].
  { rewrite <- H1. by eapply lookup_lt_Some. }
  specialize (H2 i p s Hp Hs). apply lookup_lt_Some in Hp.
  by rewrite decide_True in H2 by done.
Qed.


Lemma batch_handler_completed :
  completed (batch_handler clk user d0 items) = length items.
Proof.
  destruct (Inv_run clk user items (fifo (length items)) _ (Inv_init items d0))
    as [H1 H2 _ _ _].
  fold (batch_handler clk user d0 items) in H1, H2. rewrite H2, <- H1.
  apply count_responded_full.
  intros s (i & Hi)%list_elem_of_lookup. by rewrite (batch_handler_finished i s Hi).
Qed.

End Fifo.
(** ** What a request leaves in the tables when no statement fails *)

Section Merge.
Variables (clk : Clock) (user : string) (items : list PairUploadRequest) (d0 : Database).

Abbreviation Merged := (Merged items d0).

Lemma Merged_init : Merged (init d0 items).
Proof.
  split; simpl; [done|done|].
  intros i p s _ Hs. apply lookup_replicate in Hs as [-> _]. done.
Qed.

(** A stage that was in order stays in order when the results of the
    other items are kept and no pair disappears. *)
Lemma stage_ok_frame h h' i p s :
  stage_ok d0 h i p s →
  slot (results h') i = slot (results h) i →
  (∀ t s, pair_exists (db h) t s = true → pair_exists (db h') t s = true) →
  stage_ok d0 h' i p s.
Proof.
  intros Hok Hslot Hpairs.
  assert (answer_ok d0 h i p → answer_ok d0 h' i p) as Hanswer.
  { intros (r & Hr & Hcases). exists r. split; [congruence|].
    destruct Hcases as [?|(? & ? & ? & ?)]; [by left | right].
    repeat split; try done. by apply Hpairs. }
  destruct s; simpl in *; try done.
  - destruct Hok. split; [done|by apply Hanswer].
  - by apply Hanswer.
Qed.

(** One callback: the stage of item [i] becomes [s'], in order; the
    results of the other items and the stored pairs are kept. *)
Lemma Merged_turn h h' i p s' :
  Merged h → items !! i = Some p →
  (∀ t, is_Some (asset_tags (db h') !! t) ↔ is_Some (asset_tags (db h) !! t)) →
  (∀ t s, pair_exists (db h) t s = true → pair_exists (db h') t s = true) →
  (∀ j, j ≠ i → slot (results h') j = slot (results h) j) →
  (∀ j, j ≠ i → stages h' !! j = stages h !! j) →
  (∀ s, stages h' !! i = Some s → s = s') →
  stage_ok d0 h' i p s' →
  Merged h'.
Proof.
  intros [H1 H2 H3] Hp Hknown Hpairs Hslot Hstages Hi Hok. split.
  - intros t. by rewrite Hknown.
  - intros t s Hts. by apply Hpairs, H2.
  - intros j q s Hq Hs. destruct (decide (j = i)) as [->|Hne].
    + rewrite Hp in Hq. injection Hq as <-. by rewrite (Hi s Hs).
    + rewrite Hstages in Hs by done.
      eapply stage_ok_frame; [by apply H3 | by apply Hslot | done].
Qed.

Lemma Merged_step e h :
  ev_err e = false → Merged h → Merged (step clk user items e h).
Proof.
  intros He HM. destruct e as [i err]. simpl in He. subst err.
  fold (ok_event i).
  destruct (items !! i) as [p|] eqn:Hp; [|by unfold step; simpl; rewrite Hp].
  destruct (stages h !! i) as [s|] eqn:Hs; [|by unfold step; simpl; rewrite Hp, Hs].
  pose proof HM as [H1 H2 H3]. pose proof (H3 i p s Hp Hs) as Hok.
  assert (∀ s1, <[i := s1]> (stages h) !! i = Some s1) as Hset
    by (intros; apply list_lookup_insert_eq; by eapply lookup_lt_Some).
  destruct s; simpl in Hok.
  - (* the tag lookup *)
    destruct (asset_tags (db h) !! req_asset_tag p) as [row|] eqn:Ht.
    + rewrite (step_tag_known _ _ _ _ _ _ _ Hp Hs Ht).
      eapply (Merged_turn h _ i p AwaitPair); eauto; simpl; try done.
      * intros j Hne. by rewrite list_lookup_insert_ne.
      * intros s. rewrite Hset. intros [= <-]. reflexivity.
      * unfold known. apply bool_decide_eq_true. apply H1. by rewrite Ht.
    + rewrite (step_tag_missing _ _ _ _ _ _ Hp Hs Ht).
      eapply (Merged_turn h _ i p Finished); eauto; simpl; try done.
      * intros j Hne. by rewrite slot_array_set_ne.
      * intros j Hne. by rewrite list_lookup_insert_ne.
      * intros s. rewrite Hset. intros [= <-]. reflexivity.
      * eexists. split; [simpl; by rewrite slot_array_set_eq|]. left. split; [done|].
        unfold known. apply bool_decide_eq_false. rewrite <- H1, Ht. by intros [? ?].
  - (* the pair lookup *)
    rewrite (step_pair _ _ _ _ _ _ Hp Hs).
    eapply (Merged_turn h _ i p (AwaitInsert _ _)); eauto; simpl; try done.
    + intros j Hne. by rewrite list_lookup_insert_ne.
    + intros s. rewrite Hset. intros [= <-]. reflexivity.
    + split; [done|]. split.
      * destruct (item_pair_exists (db h) p); auto.
      * intros Hex. unfold item_pair_exists in *. by rewrite (H2 _ _ Hex).
  - (* the insert *)
    destruct Hok as (Hk & Hst & Hover).
    rewrite (step_insert _ _ _ _ _ _ _ _ Hp Hs).
    eapply (Merged_turn h _ i p AwaitUpdate); eauto; simpl; try done.
    + intros t s. apply pair_exists_insert_mono.
    + intros j Hne. by rewrite slot_array_set_ne.
    + intros j Hne. by rewrite list_lookup_insert_ne.
    + intros s. rewrite Hset. intros [= <-]. reflexivity.
    + split; [done|].
      eexists. split; [simpl; by rewrite slot_array_set_eq|]. right.
      split; [|split; [done|split; [apply pair_exists_insert_same|done]]].
      unfold is_success. simpl. by destruct Hst as [-> | ->].
  - (* the update *)
    destruct Hok as [_ Hok].
    rewrite (step_update _ _ _ _ _ _ Hp Hs).
    eapply (Merged_turn h _ i p Finished); eauto; simpl; try done.
    + intros t. apply known_update.
    + intros j Hne. by rewrite list_lookup_insert_ne.
    + intros s. rewrite Hset. intros [= <-]. reflexivity.
  - (* nothing left to do *)
    rewrite (step_finished _ _ _ _ _ _ Hp Hs).
    eapply (Merged_turn h _ i p Finished); eauto; simpl; try done.
    intros s. rewrite Hs. intros [= <-]. reflexivity.
Qed.

Lemma Merged_run sched h :
  fault_free sched → Merged h → Merged (run clk user items sched h).
Proof.
  unfold run. intros Hff. revert h.
  induction Hff as [|e sched He _ IH]; intros h HM; simpl; [done|].
  apply IH. by apply Merged_step.
Qed.

Lemma fault_free_fifo k : fault_free (fifo k).
Proof.
  unfold fifo, round, fault_free. rewrite !Forall_app, !Forall_fmap.
  repeat split; by apply Forall_forall.
Qed.

Lemma Merged_batch_handler : Merged (batch_handler clk user d0 items).
Proof. apply Merged_run; [apply fault_free_fifo | apply Merged_init]. Qed.

(** The result of every item after the four rounds. *)
Lemma batch_handler_answer i p :
  items !! i = Some p → answer_ok d0 (batch_handler clk user d0 items) i p.
Proof.
  intros Hp. destruct Merged_batch_handler as [_ _ H3].
  destruct (FifoInv_batch_handler clk user items d0) as [Hlen _ _].
  destruct (lookup_lt_is_Some_2 (stages (batch_handler clk user d0 items)) i) as [s Hs].
  { rewrite Hlen. by eapply lookup_lt_Some. }
  specialize (H3 i p s Hp Hs).
  by rewrite (batch_handler_finished clk user items d0 i s Hs) in H3.
Qed.

End Merge.
(** ** Statements finishing in any order *)

Section AnyOrder.
Variables (clk : Clock) (user : string) (items : list PairUploadRequest) (d0 : Database).

Abbreviation Settled := (Settled items d0).

Lemma Settled_init : Settled (init d0 items).
Proof.
  split; simpl; [by left|].
  intros i p _ Hs. apply lookup_replicate in Hs as [? _]. done.
Qed.

(** A callback that leaves the tags alone and finishes no item whose tag
    is known. *)
Lemma Settled_keep h h' i :
  Settled h →
  (∀ t, tag_state (db h') t = tag_state (db h) t) →
  (∀ j, j ≠ i → stages h' !! j = stages h !! j) →
  (∀ p, items !! i = Some p → stages h' !! i = Some Finished →
        known d0 p = true → stages h !! i = Some Finished) →
  Settled h'.
Proof.
  intros [H1 H2] Htags Hother Hi.
  assert (∀ t, set_by_batch items (db h) t → set_by_batch items (db h') t) as Hset.
  { intros t (q & Hq & Ht & Hv). exists q. by rewrite Htags. }
  split.
  - intros t. rewrite Htags. destruct (H1 t); [by left | right; by apply Hset].
  - intros j p Hp Hs Hk. apply Hset. apply (H2 j p Hp); [|done].
    destruct (decide (j = i)) as [->|Hne]; [by apply (Hi p) | by rewrite <- Hother].
Qed.

Lemma Settled_step e h :
  ev_err e = false → Merged items d0 h → Settled h →
  Settled (step clk user items e h).
Proof.
  intros He [Hknown _ Hstage] HS. destruct e as [i err]. simpl in He. subst err.
  fold (ok_event i).
  destruct (items !! i) as [p|] eqn:Hp; [|by unfold step; simpl; rewrite Hp].
  destruct (stages h !! i) as [s|] eqn:Hs; [|by unfold step; simpl; rewrite Hp, Hs].
  assert (∀ s1, <[i := s1]> (stages h) !! i = Some s1) as Hset
    by (intros; apply list_lookup_insert_eq; by eapply lookup_lt_Some).
  destruct s.
  - (* the tag lookup *)
    destruct (asset_tags (db h) !! req_asset_tag p) as [row|] eqn:Ht.
    + rewrite (step_tag_known _ _ _ _ _ _ _ Hp Hs Ht).
      apply (Settled_keep h _ i); simpl; try done.
      * intros j Hne. by rewrite list_lookup_insert_ne.
      * intros p' _. by rewrite Hset.
    + rewrite (step_tag_missing _ _ _ _ _ _ Hp Hs Ht).
      apply (Settled_keep h _ i); simpl; try done.
      * intros j Hne. by rewrite list_lookup_insert_ne.
      * intros p' Hp' _ Hk. rewrite Hp in Hp'. injection Hp' as <-.
        unfold known in Hk. apply bool_decide_eq_true in Hk.
        apply Hknown in Hk. rewrite Ht in Hk. by destruct Hk.
  - (* the pair lookup *)
    rewrite (step_pair _ _ _ _ _ _ Hp Hs).
    apply (Settled_keep h _ i); simpl; try done.
    + intros j Hne. by rewrite list_lookup_insert_ne.
    + intros p' _. by rewrite Hset.
  - (* the insert *)
    rewrite (step_insert _ _ _ _ _ _ _ _ Hp Hs).
    apply (Settled_keep h _ i); simpl; try done.
    + intros j Hne. by rewrite list_lookup_insert_ne.
    + intros p' _. by rewrite Hset.
  - (* the update *)
    rewrite (step_update _ _ _ _ _ _ Hp Hs).
    destruct HS as [H1 H2].
    pose proof (Hstage i p _ Hp Hs) as [Hk _].
    assert (set_by_batch items
              (update_tag_used (req_asset_tag p) (req_serial p) (sql_now clk (tick h)) (db h))
              (req_asset_tag p)) as Hmine.
    { exists p. split; [by eapply list_elem_of_lookup_2|]. split; [done|].
      rewrite tag_state_update. unfold touch. simpl. rewrite decide_True by done.
      unfold known in Hk. apply bool_decide_eq_true in Hk. apply Hknown in Hk.
      apply tag_state_is_Some in Hk as [v ->]. done. }
    assert (∀ t, t ≠ req_asset_tag p →
                 tag_state (update_tag_used (req_asset_tag p) (req_serial p)
                              (sql_now clk (tick h)) (db h)) t
                 = tag_state (db h) t) as Hrest.
    { intros t Hne. rewrite tag_state_update. unfold touch. simpl.
      by rewrite decide_False. }
    split; simpl.
    + intros t. destruct (decide (t = req_asset_tag p)) as [->|Hne]; [by right|].
      rewrite Hrest by done. destruct (H1 t) as [?|(q & Hq & Htq & Hv)]; [by left|].
      right. exists q. by rewrite Hrest.
    + intros j q Hq Hsj Hkq.
      destruct (decide (req_asset_tag q = req_asset_tag p)) as [->|Hne]; [done|].
      destruct (decide (j = i)) as [->|Hji]; [congruence|].
      rewrite list_lookup_insert_ne in Hsj by done.
      destruct (H2 j q Hq Hsj Hkq) as (q' & Hq' & Htq' & Hv).
      exists q'. by rewrite Hrest.
  - (* nothing left to do *)
    rewrite (step_finished _ _ _ _ _ _ Hp Hs).
    by apply (Settled_keep h _ i).
Qed.

Lemma Settled_run sched h :
  fault_free sched → Merged items d0 h → Settled h →
  Settled (run clk user items sched h).
Proof.
  unfold run. intros Hff. revert h.
  induction Hff as [|e sched He _ IH]; intros h HM HS; simpl; [done|].
  apply IH; [by apply Merged_step | by apply Settled_step].
Qed.

Lemma find_tag_Some t p :
  List.find (λ p, bool_decide (req_asset_tag p = t)) items = Some p →
  p ∈ items ∧ req_asset_tag p = t.
Proof.
  intros [Hin Ht]%find_some. apply bool_decide_eq_true in Ht.
  split; [by apply list_elem_of_In|done].
Qed.

Lemma find_tag_None t q :
  List.find (λ p, bool_decide (req_asset_tag p = t)) items = None →
  q ∈ items → req_asset_tag q ≠ t.
Proof.
  intros Hnone Hq Ht. apply list_elem_of_In in Hq.
  pose proof (find_none _ _ Hnone q Hq) as Hf. simpl in Hf.
  by rewrite bool_decide_eq_true_2 in Hf.
Qed.

(** Once every statement of a consistent batch has run, in whatever
    order, each tag of the batch that was known carries the serial the
    batch gives it, and the other tags are as they were. *)
Lemma tags_after_any_order sched t :
  let h := run clk user items sched (init d0 items) in
  fault_free sched → consistent items → all_finished h →
  tag_state (db h) t = tags_after items (tag_state d0) t.
Proof.
  intros h Hff Hcons Hfin.
  pose proof (Merged_run clk user items d0 sched _ Hff (Merged_init items d0)) as HM.
  pose proof (Settled_run sched _ Hff (Merged_init items d0) Settled_init) as [H1 H2].
  fold h in HM, H1, H2. destruct HM as [Hknown _ _].
  unfold tags_after.
  destruct (List.find _ items) as [p|] eqn:Hfind.
  - apply find_tag_Some in Hfind as [Hin <-].
    destruct (tag_state d0 (req_asset_tag p)) as [v|] eqn:Hv; simpl.
    + apply list_elem_of_lookup in Hin as [i Hi].
      destruct (lookup_lt_is_Some_2 (stages h) i) as [s Hs].
      { destruct (Inv_run clk user items sched _ (Inv_init items d0)) as [Hlen _ _ _ _].
        fold h in Hlen. rewrite Hlen. by eapply lookup_lt_Some. }
      rewrite (Hfin i s Hs) in Hs.
      destruct (H2 i p Hi Hs) as (q & Hq & Htq & Hvq).
      { unfold known. apply bool_decide_eq_true, tag_state_is_Some. by rewrite Hv. }
      rewrite Hvq. do 3 f_equal.
      apply Hcons; [done | by eapply list_elem_of_lookup_2 | done].
    + destruct (tag_state (db h) (req_asset_tag p)) eqn:E; [|done].
      assert (is_Some (tag_state d0 (req_asset_tag p))) as [? ?]; [|congruence].
      apply tag_state_is_Some, Hknown, tag_state_is_Some. by rewrite E.
  - destruct (H1 t) as [?|(q & Hq & Htq & _)]; [done|].
    by destruct (find_tag_None t q Hfind Hq).
Qed.

End AnyOrder.

Lemma tags_after_twice items v v' t :
  v' t = tags_after items v t → tags_after items v' t = tags_after items v t.
Proof.
  unfold tags_after. destruct (List.find _ items); [|done].
  intros ->. by destruct (v t).
Qed.

(** Idempotence does not depend on the order in which the statements
    finish, for a batch that gives no tag two serials: whatever the two
    orders, as long as no statement fails and every statement has run,
    the tags after the second submission are those after the first, and
    every item that succeeded the first time is answered
    [ok_overwrite_same_pair] the second time. *)
Lemma batch_twice_any_order clk clk' user user' d items sched1 sched2 :
  let h1 := run clk user items sched1 (init d items) in
  let h2 := run clk' user' items sched2 (init (db h1) items) in
  fault_free sched1 → fault_free sched2 → consistent items →
  all_finished h1 → all_finished h2 →
  (∀ t, tag_state (db h2) t = tag_state (db h1) t)
  ∧ (∀ i r1, slot (results h1) i = Some r1 → is_success r1 = true →
       ∃ r2, slot (results h2) i = Some r2
             ∧ res_status r2 = ok_overwrite_same_pair).
Proof.
  intros h1 h2 Hff1 Hff2 Hcons Hfin1 Hfin2. split.
  - intros t. unfold h2. rewrite tags_after_any_order by done.
    unfold h1 at 2. rewrite (tags_after_any_order clk user items d sched1 t) by done.
    apply tags_after_twice. unfold h1. by apply tags_after_any_order.
  - intros i r1 Hr1 Hsucc.
    pose proof (Merged_run clk user items d sched1 _ Hff1 (Merged_init items d)) as HM1.
    pose proof (Merged_run clk' user' items (db h1) sched2 _ Hff2 (Merged_init items (db h1)))
      as HM2.
    fold h1 in HM1. fold h2 in HM2.
    destruct (Inv_run clk user items sched1 _ (Inv_init items d)) as [Hlen1 _ Hrl _ _].
    destruct (Inv_run clk' user' items sched2 _ (Inv_init items (db h1))) as [Hlen2 _ _ _ _].
    fold h1 in Hlen1, Hrl. fold h2 in Hlen2.
    destruct (lookup_lt_is_Some_2 items i) as [p Hp].
    { apply slot_Some_lt in Hr1. lia. }
    destruct (lookup_lt_is_Some_2 (stages h1) i) as [s1 Hs1].
    { rewrite Hlen1. by eapply lookup_lt_Some. }
    destruct (lookup_lt_is_Some_2 (stages h2) i) as [s2 Hs2].
    { rewrite Hlen2. by eapply lookup_lt_Some. }
    destruct HM1 as [Hk1 _ Hst1]. destruct HM2 as [_ _ Hst2].
    specialize (Hst1 i p s1 Hp Hs1). specialize (Hst2 i p s2 Hp Hs2).
    rewrite (Hfin1 i s1 Hs1) in Hst1. rewrite (Hfin2 i s2 Hs2) in Hst2.
    destruct Hst1 as (r & Hr & Hcases). rewrite Hr1 in Hr. injection Hr as <-.
    destruct Hcases as [[Hmiss _] | (_ & Hknown & Hstored & _)].
    { unfold is_success in Hsucc. by rewrite Hmiss in Hsucc. }
    destruct Hst2 as (r2 & Hr2 & Hcases2). exists r2. split; [done|].
    destruct Hcases2 as [[_ Hunknown] | (_ & _ & _ & Hover)]; [|by apply Hover].
    unfold known in *. apply bool_decide_eq_true in Hknown.
    apply bool_decide_eq_false in Hunknown. destruct Hunknown. by apply Hk1.
Qed.
(** ** The claims about the batch endpoint *)

Lemma run_empty_batch clk user sched h :
  run clk user [] sched h = h.
Proof.
  unfold run. induction sched as [|e sched IH]; simpl; [done|].
  unfold step at 2. by rewrite lookup_nil.
Qed.

(** C9. When the batch endpoint receives an empty array, no callback ever
    runs, so whatever happens afterwards the handler has sent no response
    (not even the empty array), counted nothing and written nothing. *)
Theorem empty_batch_never_answers clk user d sched :
  let h := run clk user [] sched (init d []) in
  response h = None ∧ completed h = 0 ∧ db h = d.
Proof. intros h. subst h. by rewrite run_empty_batch. Qed.

(** For a batch that is not empty the handler does answer, with one entry
    per item, in the order of the request, naming its tag and serial. *)
Lemma batch_response_aligned clk user d items :
  0 < length items →
  ∃ rs, response (batch_handler clk user d items) = Some rs
        ∧ length rs = length items
        ∧ ∀ i p, items !! i = Some p →
            ∃ r, rs !! i = Some (Some r)
                 ∧ res_asset_tag r = req_asset_tag p
                 ∧ res_serial r = req_serial p.
Proof.
  intros Hn. apply response_aligned; [done|].
  apply batch_handler_completed.
Qed.

(** C5. For every batch of N > 0 items the response is an array of
    exactly N entries, the entry at index i naming the asset_tag and
    serial of the request item at index i; for the batch of N = 0 items
    the array of 0 entries is never sent: the handler has sent nothing
    when every statement has finished. *)
Theorem batch_response_by_length clk user d items :
  let h := batch_handler clk user d items in
  match items with
  | [] => response h = None ∧ response h ≠ Some []
  | _ :: _ =>
      ∃ rs, response h = Some rs
            ∧ length rs = length items
            ∧ ∀ i p, items !! i = Some p →
                ∃ r, rs !! i = Some (Some r)
                     ∧ res_asset_tag r = req_asset_tag p
                     ∧ res_serial r = req_serial p
  end.
Proof.
  intros h. subst h. destruct items as [|p items].
  - by split.
  - apply batch_response_aligned. simpl. lia.
Qed.


End ServerProofs.

(** ** The batch endpoint on the seeded database *)

Module ServerTests.
Import Server ServerSpec ServerExamples.

Example three_response :
  response (batch_handler clk "admin" seeded three)
  = Some [ Some {| res_status := ok_inserted; res_asset_tag := "AT001";
                   res_serial := "SN1"; res_message := None |};
           Some {| res_status := missing_asset_tag; res_asset_tag := "AT999";
                   res_serial := "SN2"; res_message := Some "Asset tag not found" |};
           Some {| res_status := ok_inserted; res_asset_tag := "AT001";
                   res_serial := "SN3"; res_message := None |} ].
Proof. reflexivity. Qed.

Example three_tag :
  tag_state (db (batch_handler clk "admin" seeded three)) "AT001" = Some (used, Some "SN3").
Proof. reflexivity. Qed.

(** The same pair twice in one batch: both lookups run before either
    insert, so both entries say [ok_inserted]; one row is kept. *)
Example same_pair_twice :
  let h := batch_handler clk "admin" seeded [item "AT001" "SN1"; item "AT001" "SN1"] in
  (res_status <$> slot (results h) 0, res_status <$> slot (results h) 1,
   length (pairs (db h)))
  = (Some ok_inserted, Some ok_inserted, 1).
Proof. reflexivity. Qed.



(** The empty batch on the seeded database: nothing is sent. *)
Example empty_batch_unanswered :
  response (batch_handler clk "admin" seeded []) = None.
Proof. reflexivity. Qed.

End ServerTests.

(** * The client: how the effects compose *)

Module ClientProofs.
Import Db Runtime ClientSpec.

Section Preserves.
Variable R : World → World → Prop.
Hypothesis R_refl : ∀ w, R w w.
Hypothesis R_trans : ∀ w1 w2 w3, R w1 w2 → R w2 w3 → R w1 w3.

Lemma preserves_ret {A} (a : A) : preserves R (ret a).
Proof. intros w. apply R_refl. Qed.

Lemma preserves_throw {A} msg : preserves R (@throw A msg).
Proof. intros w. apply R_refl. Qed.

Lemma preserves_bind {A B} (m : M A) (k : A → M B) :
  preserves R m → (∀ a, preserves R (k a)) → preserves R (bind m k).
Proof.
  intros Hm Hk w. unfold after, bind. specialize (Hm w). unfold after in Hm.
  destruct (m w) as [[a|msg] w1]; simpl in *; [|done].
  eapply R_trans; [done|]. apply (Hk a w1).
Qed.

Lemma preserves_try_catch {A} (m : M A) (handler : string → M A) :
  preserves R m → (∀ msg, preserves R (handler msg)) → preserves R (try_catch m handler).
Proof.
  intros Hm Hh w. unfold after, try_catch. specialize (Hm w). unfold after in Hm.
  destruct (m w) as [[a|msg] w1]; simpl in *; [done|].
  eapply R_trans; [done|]. apply (Hh msg w1).
Qed.

Lemma preserves_for_of {A} (xs : list A) (body : A → M unit) :
  (∀ x, preserves R (body x)) → preserves R (for_of xs body).
Proof.
  intros Hbody. induction xs as [|x xs IH]; simpl.
  - apply preserves_ret.
  - apply preserves_bind; [apply Hbody | by intros _].
Qed.

End Preserves.

(** ** The relations between the world before and after *)

Lemma only_cache_changed_refl w : only_cache_changed w w.
Proof. by repeat split. Qed.

Lemma only_cache_changed_trans w1 w2 w3 :
  only_cache_changed w1 w2 → only_cache_changed w2 w3 → only_cache_changed w1 w3.
Proof.
  intros (? & ? & ? & ? & ? & ?) (? & ? & ? & ? & ? & ?).
  repeat split; congruence.
Qed.

Lemma only_pairs_changed_refl w : only_pairs_changed w w.
Proof. by repeat split. Qed.

Lemma only_pairs_changed_trans w1 w2 w3 :
  only_pairs_changed w1 w2 → only_pairs_changed w2 w3 → only_pairs_changed w1 w3.
Proof.
  intros (? & ? & ? & ? & ? & ? & ?) (? & ? & ? & ? & ? & ? & ?).
  repeat split; congruence.
Qed.

Lemma stamped_locally_refl w : stamped_locally w w.
Proof. split; [done|]. split; [done|]. intros t a Ha. by left. Qed.

Lemma stamped_locally_trans w1 w2 w3 :
  stamped_locally w1 w2 → stamped_locally w2 w3 → stamped_locally w1 w3.
Proof.
  intros (Hc1 & Ht1 & H1) (Hc2 & Ht2 & H2).
  split; [congruence|]. split; [lia|].
  intros t a Ha. destruct (H2 t a Ha) as [Hold | (k & Hk & Hstamp)].
  - destruct (H1 t a Hold) as [?|(k & Hk & Hstamp)]; [by left|].
    right. exists k. split; [lia|done].
  - right. exists k. split; [lia|]. by rewrite Hstamp, Hc1.
Qed.

Lemma updateAssetTag_stamped t st ls :
  preserves stamped_locally (dbHelpers.updateAssetTag t st ls).
Proof.
  intros w. split; [done|]. split; [simpl; lia|].
  intros t' a. unfold after. simpl.
  destruct (decide (t = t')) as [->|Hne].
  - rewrite lookup_insert_eq. intros [= <-]. right. exists (ticks w). simpl. split; [lia|done].
  - rewrite lookup_insert_ne by done. by left.
Qed.

(** What [updateAssetTag] writes: the record is stamped with the reading
    of the local clock. *)
Lemma updateAssetTag_writes t st ls w :
  dbHelpers.updateAssetTag t st ls w
  = (Ok tt,
     {| store := set_assetTags
                   (λ m, <[t := {| tag := t; tag_status := st; last_serial := ls;
                                   updated_at := clock w (ticks w) |}]> m) (store w);
        isOnline := isOnline w; clock := clock w; ticks := S (ticks w);
        network := network w; sent := sent w |}).
Proof. done. Qed.

(** ** [makeRequest] *)

Lemma bind_run {A B} (m : M A) (k : A → M B) w :
  bind m k w = match m w with
               | (Ok a, w') => k a w'
               | (Throw msg, w') => (Throw msg, w')
               end.
Proof. done. Qed.

Lemma try_catch_run {A} (m : M A) (handler : string → M A) w :
  try_catch m handler w = match m w with
                          | (Ok a, w') => (Ok a, w')
                          | (Throw msg, w') => handler msg w'
                          end.
Proof. done. Qed.

Lemma getAuthToken_run w :
  ∃ tok w0, ApiClient.getAuthToken w = (Ok tok, w0) ∧ only_token_changed w w0.
Proof.
  unfold ApiClient.getAuthToken, dbHelpers.getCurrentAuthToken, bind, read_store, now,
    write_store, ret. simpl.
  destruct (authTokens (store w) !! "current"%string) as [t|]; simpl.
  - destruct (String.leb (expires_at t) (clock w (ticks w))); simpl;
      eexists _, _; (split; [reflexivity|]); repeat split; simpl; lia.
  - eexists _, _. split; [reflexivity|]. by repeat split.
Qed.

(** The four ways a request ends. *)
Lemma makeRequest_run ep meth body w :
  ∃ tok w0,
    ApiClient.getAuthToken w = (Ok tok, w0) ∧
    only_token_changed w w0 ∧
    let w1 := sending {| endpoint := ep; method := meth;
                         authorization := (λ t, "Bearer " ++ t)%string <$> tok;
                         payload := body |} w0 in
    ApiClient.makeRequest ep meth body w
    = match network w (length (sent w)) with
      | NetworkFails msg => (Throw msg, w1)
      | Responds r =>
          if Nat.eqb (http_status r) 401
          then (Throw "Authentication required"%string, with_store user_data_cleared w1)
          else if ApiClient.ok r then (Ok (body_json r), w1)
          else (Throw ("API Error: " ++ pretty (http_status r) ++ " - " ++ body_text r)%string, w1)
      end.
Proof.
  destruct (getAuthToken_run w) as (tok & w0 & Htok & Hframe).
  exists tok, w0. split; [done|]. split; [done|]. intros w1.
  unfold ApiClient.makeRequest, bind at 1. rewrite Htok.
  unfold bind at 1, fetch.
  assert (network w0 (length (sent w0)) = network w (length (sent w))) as ->.
  { destruct Hframe as (Hsent & Hnet & _). by rewrite Hsent, Hnet. }
  destruct (network w (length (sent w))) as [r|msg]; [|done].
  destruct (Nat.eqb (http_status r) 401) eqn:E401; [done|].
  by destruct (ApiClient.ok r).
Qed.

(** C8. For every authenticated remote call that comes back with a 401:
    the pairs, the upload queue and the token are cleared there and then,
    the cache of asset tags is left as it was, the call throws
    "Authentication required", and the one request made is the only one
    (nothing is retried). *)
Theorem unauthorized_clears_user_data ep meth body w r :
  network w (length (sent w)) = Responds r → http_status r = 401 →
  ∃ w', ApiClient.makeRequest ep meth body w
        = (Throw "Authentication required"%string, w')
        ∧ pairs (store w') = []
        ∧ uploadQueue (store w') = []
        ∧ authTokens (store w') = ∅
        ∧ assetTags (store w') = assetTags (store w)
        ∧ ∃ req, sent w' = sent w ++ [req]
                 ∧ endpoint req = ep ∧ payload req = body.
Proof.
  intros Hnet H401.
  destruct (makeRequest_run ep meth body w) as (tok & w0 & _ & Hframe & Hrun).
  rewrite Hnet, H401 in Hrun. simpl in Hrun.
  eexists. split; [exact Hrun|]. simpl.
  destruct Hframe as (Hsent & _ & _ & _ & _ & _ & _ & Htags).
  repeat split; try done.
  eexists. rewrite Hsent. by repeat split.
Qed.

(** The ways the listing of asset tags ends. *)
Lemma getAssetTags_run since w :
  ∃ tok w0,
    ApiClient.getAuthToken w = (Ok tok, w0) ∧
    only_token_changed w w0 ∧
    let w1 := sending {| endpoint := "/asset-tags"; method := "GET";
                         authorization := (λ t, "Bearer " ++ t)%string <$> tok;
                         payload := AssetTagsSince (if truthy since then since else None) |}
                      w0 in
    ApiClient.getAssetTags since w
    = match network w (length (sent w)) with
      | NetworkFails msg => (Throw msg, w1)
      | Responds r =>
          if Nat.eqb (http_status r) 401
          then (Throw "Authentication required"%string, with_store user_data_cleared w1)
          else if ApiClient.ok r then
                 match body_json r with
                 | JsonTags ts => (Ok ts, w1)
                 | _ => (Throw "assetTags is not iterable"%string, w1)
                 end
          else (Throw ("API Error: " ++ pretty (http_status r) ++ " - " ++ body_text r)%string, w1)
      end.
Proof.
  destruct (makeRequest_run "/asset-tags" "GET"
              (AssetTagsSince (if truthy since then since else None)) w)
    as (tok & w0 & Htok & Hframe & Hrun).
  exists tok, w0. split; [done|]. split; [done|]. intros w1.
  unfold ApiClient.getAssetTags. rewrite bind_run, Hrun.
  destruct (network w (length (sent w))) as [r|msg]; [|done].
  destruct (Nat.eqb (http_status r) 401); [done|].
  destruct (ApiClient.ok r); [|done].
  by destruct (body_json r).
Qed.

(** The ways the upload of a batch ends. *)
Lemma uploadPairs_run ps w :
  ∃ tok w0,
    ApiClient.getAuthToken w = (Ok tok, w0) ∧
    only_token_changed w w0 ∧
    let w1 := sending {| endpoint := "/pairs/batch"; method := "POST";
                         authorization := (λ t, "Bearer " ++ t)%string <$> tok;
                         payload := UploadPairs ps |} w0 in
    ApiClient.uploadPairs ps w
    = match network w (length (sent w)) with
      | NetworkFails msg => (Throw msg, w1)
      | Responds r =>
          if Nat.eqb (http_status r) 401
          then (Throw "Authentication required"%string, with_store user_data_cleared w1)
          else if ApiClient.ok r then
                 match body_json r with
                 | JsonResults rs => (Ok rs, w1)
                 | _ => (Throw "results is not iterable"%string, w1)
                 end
          else (Throw ("API Error: " ++ pretty (http_status r) ++ " - " ++ body_text r)%string, w1)
      end.
Proof.
  destruct (makeRequest_run "/pairs/batch" "POST" (UploadPairs ps) w)
    as (tok & w0 & Htok & Hframe & Hrun).
  exists tok, w0. split; [done|]. split; [done|]. intros w1.
  unfold ApiClient.uploadPairs. rewrite bind_run, Hrun.
  destruct (network w (length (sent w))) as [r|msg]; [|done].
  destruct (Nat.eqb (http_status r) 401); [done|].
  destruct (ApiClient.ok r); [|done].
  by destruct (body_json r).
Qed.
(** ** Admission of a pair *)




(** ** Refreshing the cache of asset tags *)

Lemma makeRequest_stamped ep meth body :
  preserves stamped_locally (ApiClient.makeRequest ep meth body).
Proof.
  intros w. unfold after.
  destruct (makeRequest_run ep meth body w) as (tok & w0 & _ & Hframe & Hrun).
  destruct Hframe as (_ & _ & _ & Hclock & Hticks & _ & _ & Htags).
  assert (∀ w', clock w' = clock w0 → ticks w' = ticks w0 →
                assetTags (store w') = assetTags (store w0) → stamped_locally w w') as Hgoal.
  { intros w' Hc Ht Ha. split; [congruence|]. split; [lia|].
    intros t a. rewrite Ha, Htags. by left. }
  rewrite Hrun.
  destruct (network w (length (sent w))) as [r|msg]; [|by apply Hgoal].
  destruct (Nat.eqb (http_status r) 401); [by apply Hgoal|].
  destruct (ApiClient.ok r); by apply Hgoal.
Qed.

Lemma getAssetTags_stamped since :
  preserves stamped_locally (ApiClient.getAssetTags since).
Proof.
  apply preserves_bind;
    [apply stamped_locally_trans | apply makeRequest_stamped |].
  intros [rs|ts|]; first [apply preserves_ret | apply preserves_throw];
    apply stamped_locally_refl.
Qed.

Lemma syncAssetTags_stamped : preserves stamped_locally NetworkManager.syncAssetTags.
Proof.
  intros w. unfold after, NetworkManager.syncAssetTags.
  destruct (isOnline w); simpl; [|apply stamped_locally_refl].
  apply (preserves_try_catch stamped_locally stamped_locally_trans).
  - apply preserves_bind; [apply stamped_locally_trans | |].
    + intros w'. apply stamped_locally_refl.
    + intros lastTag. apply preserves_bind;
        [apply stamped_locally_trans | apply getAssetTags_stamped |].
      intros ts. apply preserves_for_of;
        [apply stamped_locally_refl | apply stamped_locally_trans |].
      intros t. apply updateAssetTag_stamped.
  - intros msg. apply preserves_ret, stamped_locally_refl.
Qed.

(** The record [orderBy('updated_at').last()] returns is in the table. *)
Lemma last_by_updated_at_lookup s a :
  assetTags_last_by_updated_at s = Some a → ∃ t, assetTags s !! t = Some a.
Proof.
  unfold assetTags_last_by_updated_at.
  assert (∀ l : list AssetTag, foldr later_of None l = Some a → a ∈ l) as Hmem.
  { induction l as [|x l IH]; simpl; [done|].
    unfold later_of at 1. destruct (foldr later_of None l) as [b|] eqn:E.
    - destruct (index_le b x); intros [= <-]; [by left | right; by apply IH].
    - intros [= <-]. by left. }
  intros Hlast. apply Hmem in Hlast.
  apply list_elem_of_fmap in Hlast as ([t a'] & -> & Hin).
  exists t. by apply elem_of_map_to_list.
Qed.

(** The loop over the response does not read the [updated_at] of the
    remote. *)
Lemma upsert_all_ignores_remote_time ts w :
  upsert_all (without_remote_time <$> ts) w = upsert_all ts w.
Proof.
  unfold upsert_all. revert w. induction ts as [|t ts IH]; intros w; simpl; [done|].
  unfold bind. simpl. apply IH.
Qed.

Lemma upsert_all_network n ts w :
  upsert_all ts (with_network n w)
  = (fst (upsert_all ts w), with_network n (after (upsert_all ts) w)).
Proof.
  unfold upsert_all, after. revert w. induction ts as [|t ts IH]; intros w; simpl; [done|].
  unfold bind. simpl. apply (IH (snd (dbHelpers.updateAssetTag _ _ _ w))).
Qed.

Lemma getAuthToken_network n w :
  ApiClient.getAuthToken (with_network n w)
  = (fst (ApiClient.getAuthToken w), with_network n (after ApiClient.getAuthToken w)).
Proof.
  unfold after, ApiClient.getAuthToken, dbHelpers.getCurrentAuthToken, bind, read_store,
    now, write_store, ret. simpl.
  destruct (authTokens (store w) !! "current"%string) as [t|]; simpl; [|done].
  by destruct (String.leb (expires_at t) (clock w (ticks w))).
Qed.

(** The store a refresh leaves. *)
Lemma syncAssetTags_store w :
  ∃ tok w0,
    ApiClient.getAuthToken w = (Ok tok, w0) ∧
    only_token_changed w w0 ∧
    let since := updated_at <$> assetTags_last_by_updated_at (store w) in
    let w1 := sending {| endpoint := "/asset-tags"; method := "GET";
                         authorization := (λ t, "Bearer " ++ t)%string <$> tok;
                         payload := AssetTagsSince (if truthy since then since else None) |}
                      w0 in
    store (after NetworkManager.syncAssetTags w)
    = if isOnline w then
        match network w (length (sent w)) with
        | NetworkFails msg => store w0
        | Responds r =>
            if Nat.eqb (http_status r) 401 then user_data_cleared (store w0)
            else if ApiClient.ok r then
                   match body_json r with
                   | JsonTags ts => store (after (upsert_all ts) w1)
                   | _ => store w0
                   end
            else store w0
        end
      else store w.
Proof.
  destruct (getAssetTags_run (updated_at <$> assetTags_last_by_updated_at (store w)) w)
    as (tok & w0 & Htok & Hframe & Hrun).
  exists tok, w0. split; [done|]. split; [done|]. intros since w1.
  unfold after, NetworkManager.syncAssetTags.
  destruct (isOnline w); simpl; [|done].
  rewrite try_catch_run, bind_run. unfold read_store at 1.
  rewrite bind_run, Hrun.
  destruct (network w (length (sent w))) as [r|msg]; [|done].
  destruct (Nat.eqb (http_status r) 401); [done|].
  destruct (ApiClient.ok r); [|done].
  destruct (body_json r) as [rs|ts|]; try done.
  fold (upsert_all ts). fold since. fold w1.
  by destruct (upsert_all ts w1) as [[[]|msg] w'].
Qed.

(** The store after a refresh is the same whatever [updated_at] values
    the remote sent. *)
Lemma syncAssetTags_ignores_remote_time w :
  store (after NetworkManager.syncAssetTags
           (with_network (λ k, erase_remote_times (network w k)) w))
  = store (after NetworkManager.syncAssetTags w).
Proof.
  set (n' := λ k, erase_remote_times (network w k)).
  destruct (syncAssetTags_store w) as (tok & w0 & Htok & _ & ->).
  destruct (syncAssetTags_store (with_network n' w)) as (tok' & w0' & Htok' & _ & ->).
  rewrite getAuthToken_network in Htok'. unfold after in Htok'. rewrite Htok in Htok'.
  simpl in Htok'. injection Htok' as <- <-. simpl.
  destruct (isOnline w); [|done].
  subst n'. simpl.
  destruct (network w (length (sent w))) as [r|msg]; simpl; [|done].
  destruct (Nat.eqb (http_status r) 401); [done|].
  replace (ApiClient.ok {| http_status := http_status r; body_text := body_text r;
                           body_json := match body_json r with
                                        | JsonTags ts => JsonTags (without_remote_time <$> ts)
                                        | j => j
                                        end |}) with (ApiClient.ok r) by done.
  destruct (ApiClient.ok r); [|done].
  destruct (body_json r) as [rs|ts|]; try done.
  match goal with |- store (after _ ?wn) = store (after _ ?w1) =>
    change wn with (with_network (λ k, erase_remote_times (network w k)) w1)
  end.
  unfold after. rewrite upsert_all_network. unfold after.
  by rewrite upsert_all_ignores_remote_time.
Qed.

(** C10. Every upsert into the cache of asset tags stamps the record with
    the reading of the local clock; a refresh stores the same records
    whatever [updated_at] the remote sent, so these are discarded; and the
    watermark after a refresh, the greatest [updated_at] in the cache, is
    the [updated_at] of a record that was cached before or a reading of
    the local clock taken during the refresh. *)
Theorem cache_stamps_are_local :
  (∀ t st ls w,
     assetTags (store (after (dbHelpers.updateAssetTag t st ls) w)) !! t
     = Some {| tag := t; tag_status := st; last_serial := ls;
               updated_at := clock w (ticks w) |})
  ∧ (∀ w,
       store (after NetworkManager.syncAssetTags
                (with_network (λ k, erase_remote_times (network w k)) w))
       = store (after NetworkManager.syncAssetTags w))
  ∧ (∀ w a,
       assetTags_last_by_updated_at (store (after NetworkManager.syncAssetTags w)) = Some a →
       (∃ t, assetTags (store w) !! t = Some a)
       ∨ ∃ k, ticks w ≤ k < ticks (after NetworkManager.syncAssetTags w)
              ∧ updated_at a = clock w k).
Proof.
  split; [|split].
  - intros t st ls w. unfold after. rewrite updateAssetTag_writes. simpl.
    by rewrite lookup_insert_eq.
  - apply syncAssetTags_ignores_remote_time.
  - intros w a Hlast. apply last_by_updated_at_lookup in Hlast as [t Ht].
    destruct (syncAssetTags_stamped w) as (_ & _ & Hall).
    destruct (Hall t a Ht) as [Hold|Hnew]; [left; by exists t | by right].
Qed.
(** ** Replaying one batch *)

Lemma replay_batch_unfold b :
  NetworkManager.replay_batch b
  = try_catch
      (bind (ApiClient.uploadPairs (batch_items b)) (λ results,
         bind (apply_results results) (λ _,
           bind (write_store (uploadQueue_update (batch_id b) (with_batch_status b_done))) (λ _,
             mark_uploaded results (batch_items b)))))
      (λ msg, write_store (uploadQueue_update (batch_id b) (with_batch_error msg))).
Proof. done. Qed.

Lemma apply_results_run rs w :
  ∃ w', apply_results rs w = (Ok tt, w')
        ∧ only_cache_changed w w'
        ∧ ∀ t, (∀ r, r ∈ rs → is_success r = true → res_asset_tag r ≠ t) →
               assetTags (store w') !! t = assetTags (store w) !! t.
Proof.
  unfold apply_results. revert w. induction rs as [|r rs IH]; intros w; simpl.
  - exists w. split; [done|]. split; [apply only_cache_changed_refl|done].
  - rewrite bind_run. destruct (is_success r) eqn:Hr.
    + rewrite updateAssetTag_writes.
      destruct (IH (after (dbHelpers.updateAssetTag (res_asset_tag r) used (Some (res_serial r))) w))
        as (w' & Hrun & Hframe & Htags).
      unfold after in *. rewrite updateAssetTag_writes in *. simpl in *.
      exists w'. split; [done|]. split.
      * eapply only_cache_changed_trans; [|done]. by repeat split.
      * intros t Ht. rewrite Htags.
        -- simpl. rewrite lookup_insert_ne; [done|]. apply Ht; [by left|done].
        -- intros r' Hin. apply Ht. by right.
    + simpl. destruct (IH w) as (w' & Hrun & Hframe & Htags).
      exists w'. split; [done|]. split; [done|].
      intros t Ht. apply Htags. intros r' Hin. apply Ht. by right.
Qed.

Lemma marked_uploaded_with_status rs its st row :
  marked_uploaded rs its (with_pair_status st row) = marked_uploaded rs its row.
Proof. done. Qed.

Lemma mark_uploaded_run rs its w :
  ∃ w', mark_uploaded rs its w = (Ok tt, w')
        ∧ only_pairs_changed w w'
        ∧ pairs (store w') = pair_after rs its <$> pairs (store w).
Proof.
  unfold mark_uploaded. revert w. induction its as [|it its IH]; intros w; simpl.
  - exists w. split; [done|]. split; [apply only_pairs_changed_refl|].
    unfold pair_after. simpl. by rewrite list_fmap_id.
  - rewrite bind_run.
    set (hit := match NetworkManager.result_for rs it with
                | Some r => is_success r | None => false end).
    assert (∃ w1, (match NetworkManager.result_for rs it with
                   | Some result =>
                       if is_success result
                       then write_store (pairs_modify_where (pair_asset_tag it)
                                           (pair_serial it) p_uploaded)
                       else ret tt
                   | None => ret tt
                   end) w = (Ok tt, w1)
                  ∧ only_pairs_changed w w1
                  ∧ pairs (store w1)
                    = (λ row, if pair_matches (pair_asset_tag it) (pair_serial it) row && hit
                              then with_pair_status p_uploaded row else row)
                      <$> pairs (store w)) as (w1 & -> & Hframe1 & Hpairs1).
    { subst hit. destruct (NetworkManager.result_for rs it) as [r|]; [destruct (is_success r)|].
      - eexists. split; [reflexivity|]. split; [by repeat split|]. simpl.
        apply map_ext. intros row. by rewrite andb_true_r.
      - exists w. split; [done|]. split; [apply only_pairs_changed_refl|].
        rewrite <- (list_fmap_id (pairs (store w))) at 1.
        apply list_fmap_ext. intros ? row _. by rewrite andb_false_r.
      - exists w. split; [done|]. split; [apply only_pairs_changed_refl|].
        rewrite <- (list_fmap_id (pairs (store w))) at 1.
        apply list_fmap_ext. intros ? row _. by rewrite andb_false_r. }
    destruct (IH w1) as (w' & Hrun & Hframe & Hpairs).
    exists w'. split; [done|].
    split; [by eapply only_pairs_changed_trans|].
    rewrite Hpairs, Hpairs1, <- list_fmap_compose.
    apply list_fmap_ext. intros ? row _. simpl.
    unfold pair_after. simpl marked_uploaded. fold hit.
    destruct (pair_matches (pair_asset_tag it) (pair_serial it) row && hit) eqn:E; simpl.
    + rewrite marked_uploaded_with_status.
      by destruct (marked_uploaded rs its row).
    + done.
Qed.

(** How a replay ends, whatever the upload came back with: one request
    has been made, with the items of the batch as its body, and the row
    of the batch says [done] or [error] with the message captured; after
    a 401 the queue is empty. *)
Lemma replay_batch_run b w :
  let o := network w (length (sent w)) in
  ∃ w', NetworkManager.replay_batch b w = (Ok tt, w')
        ∧ isOnline w' = isOnline w ∧ network w' = network w
        ∧ (∃ req, sent w' = sent w ++ [req] ∧ payload req = UploadPairs (batch_items b))
        ∧ uploadQueue (store w')
          = if unauthorized o then []
            else update_row b (batch_after o) (uploadQueue (store w)).
Proof.
  intros o. subst o.
  destruct (uploadPairs_run (batch_items b) w) as (tok & w0 & _ & Hframe & Hrun).
  destruct Hframe as (Hsent & Hnet & Honline & _ & _ & _ & Hqueue & _).
  rewrite replay_batch_unfold, try_catch_run, bind_run, Hrun.
  unfold batch_after, replay_failure, unauthorized.
  destruct (network w (length (sent w))) as [r|msg];
    [destruct (Nat.eqb (http_status r) 401) eqn:E401;
       [|destruct (ApiClient.ok r) eqn:Eok; [destruct (body_json r) as [rs|ts|]|]]|].
  all: try (simpl; eexists; split; [reflexivity|]; simpl;
            rewrite ?Hsent, ?Hnet, ?Honline, ?Hqueue;
            repeat split; try done; eexists; split; [reflexivity|done]).
  (* the response is an array of results *)
  rewrite bind_run.
  destruct (apply_results_run rs
              (sending {| endpoint := "/pairs/batch"; method := "POST";
                          authorization := (λ t, "Bearer " ++ t)%string <$> tok;
                          payload := UploadPairs (batch_items b) |} w0))
    as (wA & -> & HframeA & _).
  rewrite bind_run. unfold write_store at 1.
  destruct (mark_uploaded_run rs (batch_items b)
              (with_store (uploadQueue_update (batch_id b) (with_batch_status b_done)) wA))
    as (wB & -> & HframeB & _).
  destruct HframeA as (A1 & A2 & A3 & _ & _ & A6).
  destruct HframeB as (B1 & B2 & B3 & _ & _ & _ & B7).
  simpl in *. exists wB. split; [done|].
  repeat split; try congruence.
  - eexists. split; [rewrite B1, A1, Hsent; reflexivity|done].
  - rewrite B7, A6, Hqueue. done.
Qed.

(** A replay that comes back with an array of results. *)
Lemma replay_batch_response b w r rs :
  network w (length (sent w)) = Responds r →
  ApiClient.ok r = true → body_json r = JsonResults rs →
  ∃ w', NetworkManager.replay_batch b w = (Ok tt, w')
        ∧ uploadQueue (store w')
          = update_row b (with_batch_status b_done) (uploadQueue (store w))
        ∧ pairs (store w') = pair_after rs (batch_items b) <$> pairs (store w)
        ∧ ∀ t, (∀ r, r ∈ rs → is_success r = true → res_asset_tag r ≠ t) →
               assetTags (store w') !! t = assetTags (store w) !! t.
Proof.
  intros Hnet Hok Hjson.
  destruct (uploadPairs_run (batch_items b) w) as (tok & w0 & _ & Hframe & Hrun).
  destruct Hframe as (_ & _ & _ & _ & _ & Hpairs & Hqueue & Htags).
  rewrite replay_batch_unfold, try_catch_run, bind_run, Hrun, Hnet.
  assert (Nat.eqb (http_status r) 401 = false) as ->.
  { unfold ApiClient.ok in Hok. apply andb_true_iff in Hok as [_ Hle].
    apply Nat.leb_le in Hle. apply Nat.eqb_neq. lia. }
  rewrite Hok, Hjson, bind_run.
  destruct (apply_results_run rs
              (sending {| endpoint := "/pairs/batch"; method := "POST";
                          authorization := (λ t, "Bearer " ++ t)%string <$> tok;
                          payload := UploadPairs (batch_items b) |} w0))
    as (wA & -> & HframeA & HtagsA).
  rewrite bind_run. unfold write_store at 1.
  destruct (mark_uploaded_run rs (batch_items b)
              (with_store (uploadQueue_update (batch_id b) (with_batch_status b_done)) wA))
    as (wB & -> & HframeB & HpairsB).
  destruct HframeA as (_ & _ & _ & _ & A5 & A6).
  destruct HframeB as (_ & _ & _ & _ & _ & B6 & B7).
  simpl in *. exists wB. split; [done|]. split; [|split].
  - by rewrite B7, A6, Hqueue.
  - by rewrite HpairsB, A5, Hpairs.
  - intros t Ht. by rewrite B6, (HtagsA t Ht), Htags.
Qed.

Lemma result_for_matching rs it row :
  pair_matches (pair_asset_tag it) (pair_serial it) row = true →
  NetworkManager.result_for rs it = NetworkManager.result_for rs row.
Proof.
  unfold pair_matches. intros [Ht Hs]%andb_true_iff.
  apply String.eqb_eq in Ht, Hs. unfold NetworkManager.result_for. by rewrite Ht, Hs.
Qed.


Lemma marked_uploaded_false rs its row :
  (∀ res, res ∈ rs → res_asset_tag res = pair_asset_tag row →
          res_serial res = pair_serial row → is_success res = false) →
  marked_uploaded rs its row = false.
Proof.
  intros Hnone. unfold marked_uploaded.
  destruct (existsb _ its) eqn:E; [|done].
  apply existsb_exists in E as (it & _ & [Hm Hhit]%andb_true_iff).
  rewrite (result_for_matching rs it row Hm) in Hhit.
  destruct (NetworkManager.result_for rs row) as [res|] eqn:Hres; [|done].
  apply find_some in Hres as [Hin [Ht Hs]%andb_true_iff].
  apply String.eqb_eq in Ht, Hs.
  rewrite (Hnone res) in Hhit; [done| by apply list_elem_of_In | done | done].
Qed.


(** ** Replaying the queue *)

Lemma batch_after_id o x : batch_id (batch_after o x) = batch_id x.
Proof. unfold batch_after. by destruct (replay_failure o). Qed.

Lemma position_lookup bs k b :
  NoDup (batch_id <$> bs) → bs !! k = Some b → position (batch_id b) bs = Some k.
Proof.
  revert k. induction bs as [|x bs IH]; intros k Hnd Hk; [done|].
  apply NoDup_cons in Hnd as [Hx Hnd]. destruct k as [|k]; simpl in *.
  - injection Hk as ->. by rewrite decide_True.
  - rewrite decide_False.
    + by rewrite (IH k Hnd Hk).
    + intros Heq. apply Hx. rewrite Heq.
      apply list_elem_of_fmap. exists b. split; [done|]. by eapply list_elem_of_lookup_2.
Qed.

Lemma position_None bs k :
  (∀ b, b ∈ bs → batch_id b ≠ k) → position k bs = None.
Proof.
  induction bs as [|x bs IH]; intros Hall; simpl; [done|].
  rewrite decide_False by (apply Hall; by left).
  rewrite IH; [done|]. intros b Hb. apply Hall. by right.
Qed.

Lemma NoDup_ids_filter (f : UploadBatch → bool) q :
  NoDup (batch_id <$> q) → NoDup (batch_id <$> List.filter f q).
Proof.
  induction q as [|x q IH]; intros Hnd; simpl; [done|].
  apply NoDup_cons in Hnd as [Hx Hnd]. destruct (f x); simpl; [|by apply IH].
  apply NoDup_cons. split; [|by apply IH].
  intros (y & Hy & Hin)%list_elem_of_fmap. apply Hx.
  apply list_elem_of_fmap. exists y. split; [done|].
  apply list_elem_of_In in Hin. apply filter_In in Hin as [Hin _].
  by apply list_elem_of_In.
Qed.

Lemma same_id_same_row q (x y : UploadBatch) :
  NoDup (batch_id <$> q) → x ∈ q → y ∈ q → batch_id x = batch_id y → x = y.
Proof.
  induction q as [|z q IH]; intros Hnd Hx Hy Hid; [by apply elem_of_nil in Hx|].
  simpl in Hnd. apply NoDup_cons in Hnd as [Hz Hnd].
  apply elem_of_cons in Hx as [->|Hx]; apply elem_of_cons in Hy as [->|Hy].
  - done.
  - destruct Hz. rewrite Hid. apply list_elem_of_fmap. by exists y.
  - destruct Hz. rewrite <- Hid. apply list_elem_of_fmap. by exists x.
  - by apply IH.
Qed.

Lemma StronglySorted_filter {A} (R : A → A → Prop) (f : A → bool) l :
  StronglySorted R l → StronglySorted R (List.filter f l).
Proof.
  induction 1 as [|x l Hl IH Hx]; simpl; [constructor|].
  destruct (f x); [|done]. constructor; [done|].
  apply Forall_forall. intros y Hy.
  apply list_elem_of_In, filter_In in Hy as [Hy _].
  rewrite Forall_forall in Hx. apply Hx. by apply list_elem_of_In.
Qed.

(** Every batch of [bs] is uploaded once, in order. *)
Lemma replay_all_sent bs w :
  ∃ w', for_of bs NetworkManager.replay_batch w = (Ok tt, w')
        ∧ isOnline w' = isOnline w ∧ network w' = network w
        ∧ length (sent w') = length (sent w) + length bs
        ∧ payload <$> sent w'
          = (payload <$> sent w) ++ ((λ b, UploadPairs (batch_items b)) <$> bs).
Proof.
  revert w. induction bs as [|b bs IH]; intros w; simpl.
  - exists w. repeat split; try done. by rewrite app_nil_r.
  - rewrite bind_run.
    destruct (replay_batch_run b w) as (w1 & -> & H1 & H2 & (req & H3 & H4) & _).
    destruct (IH w1) as (w' & Hrun & H5 & H6 & H7 & H8).
    exists w'. split; [done|]. repeat split; try congruence.
    + rewrite H7, H3, length_app. simpl. lia.
    + rewrite H8, H3, fmap_app. simpl. rewrite H4, <- app_assoc. done.
Qed.

(** When no upload comes back with a 401, the row of every batch of [bs]
    is changed by the outcome of its own upload, and no other row is. *)
Lemma replay_all_queue bs w :
  NoDup (batch_id <$> bs) →
  (∀ k, k < length bs → unauthorized (network w (length (sent w) + k)) = false) →
  uploadQueue (store (after (for_of bs NetworkManager.replay_batch) w))
  = queue_after (network w) (length (sent w)) bs (uploadQueue (store w)).
Proof.
  unfold after. revert w. induction bs as [|b bs IH]; intros w Hnd Hauth; simpl.
  - unfold queue_after. simpl. by rewrite map_id.
  - simpl in Hnd. apply NoDup_cons in Hnd as [Hb Hnd].
    rewrite bind_run.
    destruct (replay_batch_run b w) as (w1 & -> & H1 & H2 & (req & H3 & H4) & Hq).
    pose proof (Hauth 0 ltac:(simpl; lia)) as H0. rewrite Nat.add_0_r in H0.
    rewrite H0 in Hq. rewrite IH; [|done|].
    + rewrite Hq, H2, H3, length_app. simpl.
      unfold queue_after, update_row. rewrite map_map. apply map_ext. intros x.
      simpl position.
      destruct (decide (batch_id x = batch_id b)) as [Heq|Hne].
      * rewrite batch_after_id, Heq. rewrite position_None.
        -- rewrite decide_True by done. by rewrite Nat.add_0_r.
        -- intros y Hy Hid. apply Hb. apply list_elem_of_fmap. by exists y.
      * rewrite decide_False by congruence.
        destruct (position (batch_id x) bs) as [k|]; simpl; [|done].
        by replace (length (sent w) + 1 + k) with (length (sent w) + S k) by lia.
    + intros k Hk. rewrite H2, H3, length_app. simpl.
      replace (length (sent w) + 1 + k) with (length (sent w) + S k) by lia.
      apply Hauth. simpl. lia.
Qed.

Lemma on_online_run w :
  let pending := List.filter is_pending (uploadQueue (store w)) in
  after NetworkManager.on_online w
  = after (for_of pending NetworkManager.replay_batch) (with_isOnline true w).
Proof.
  intros pending. unfold after, NetworkManager.on_online.
  rewrite bind_run. unfold NetworkManager.processOfflineQueue. simpl.
  rewrite try_catch_run, bind_run. unfold dbHelpers.getPendingUploads, read_store. simpl.
  fold is_pending. fold pending.
  by destruct (replay_all_sent pending (with_isOnline true w)) as (w' & -> & _).
Qed.

(** [queueForUpload] keeps the queue in the order of [created_at] as long
    as the clock does not run backwards. *)
Lemma queueForUpload_keeps_order ps w :
  StronglySorted created_before (uploadQueue (store w)) →
  (∀ b, b ∈ uploadQueue (store w) →
        String.leb (batch_created_at b) (clock w (ticks w)) = true) →
  StronglySorted created_before
    (uploadQueue (store (after (dbHelpers.queueForUpload ps) w))).
Proof.
  intros Hsorted Hclock. unfold after. simpl.
  induction Hsorted as [|x l Hl IH Hx]; simpl.
  - repeat constructor.
  - constructor.
    + apply IH. intros b Hb. apply Hclock. by right.
    + apply Forall_app. split; [done|]. constructor; [|done].
      apply Hclock. by left.
Qed.

(** C1, as the code has it. On every transition to online, every batch
    of the queue whose status is [pending] is replayed, each as one
    upload call carrying its items, in the order of the queue, and no
    other batch is (a batch whose status is [error] is not); this is
    oldest first whenever the queue is ordered by [created_at]; and
    unless the session is rejected with a 401, the row of each replayed
    batch ends as the outcome of its own upload makes it ([done], or
    [error] with the message), the rows of the other batches being left
    as they were. *)
Theorem online_replays_pending w :
  let pending := List.filter is_pending (uploadQueue (store w)) in
  let w' := after NetworkManager.on_online w in
  isOnline w' = true
  ∧ payload <$> sent w'
    = (payload <$> sent w) ++ ((λ b, UploadPairs (batch_items b)) <$> pending)
  ∧ (StronglySorted created_before (uploadQueue (store w)) →
     StronglySorted created_before pending)
  ∧ (NoDup (batch_id <$> uploadQueue (store w)) →
     (∀ k, k < length pending →
           unauthorized (network w (length (sent w) + k)) = false) →
     (∀ k b, pending !! k = Some b →
             batch_after (network w (length (sent w) + k)) b ∈ uploadQueue (store w'))
     ∧ (∀ b, b ∈ uploadQueue (store w) → batch_status b ≠ b_pending →
             b ∈ uploadQueue (store w'))).
Proof.
  intros pending w'. subst w'. rewrite on_online_run. fold pending.
  destruct (replay_all_sent pending (with_isOnline true w))
    as (w' & Hrun & Honline & _ & _ & Hsent).
  split; [|split; [|split]].
  - unfold after. by rewrite Hrun.
  - unfold after. by rewrite Hrun.
  - apply StronglySorted_filter.
  - intros Hnd Hauth.
    pose proof (NoDup_ids_filter is_pending _ Hnd) as Hndp. fold pending in Hndp.
    rewrite (replay_all_queue pending (with_isOnline true w) Hndp Hauth). simpl.
    unfold queue_after. split.
    + intros k b Hk.
      assert (b ∈ uploadQueue (store w)) as Hin.
      { apply list_elem_of_lookup_2 in Hk. apply list_elem_of_In in Hk.
        apply filter_In in Hk as [Hk _]. by apply list_elem_of_In. }
      apply list_elem_of_In, in_map_iff. exists b.
      split; [|by apply list_elem_of_In].
      by rewrite (position_lookup pending k b Hndp Hk).
    + intros b Hin Hstatus.
      apply list_elem_of_In, in_map_iff. exists b.
      split; [|by apply list_elem_of_In].
      rewrite position_None; [done|].
      intros y Hy Hid. apply list_elem_of_In, filter_In in Hy as [Hy Hpend].
      apply list_elem_of_In in Hy.
      rewrite (same_id_same_row _ y b Hnd Hy Hin Hid) in Hpend.
      unfold is_pending in Hpend. by apply bool_decide_eq_true in Hpend.
Qed.

End ClientProofs.

(** ** The client on concrete sessions *)

Module ClientTests.
Import Db Runtime ClientSpec ClientExamples.

(** C1 as stated fails: going online makes no upload call for a batch
    whose status is [error], and leaves it as it is. *)
Lemma error_batch_is_not_replayed :
  let w' := after NetworkManager.on_online failed_world in
  failed_batch ∈ uploadQueue (store failed_world)
  ∧ batch_status failed_batch = b_error
  ∧ sent w' = []
  ∧ uploadQueue (store w') = [failed_batch]
  ∧ ¬ (∀ b, b ∈ uploadQueue (store failed_world) →
            batch_status b = b_pending ∨ batch_status b = b_error →
            UploadPairs (batch_items b) ∈ payload <$> sent w').
Proof.
  assert (sent (after NetworkManager.on_online failed_world) = []) as Hsent
    by (vm_compute; reflexivity).
  split; [by left|]. split; [done|]. split; [done|]. split; [by vm_compute|].
  intros Hall. specialize (Hall failed_batch ltac:(by left) ltac:(by right)).
  rewrite Hsent in Hall. by apply elem_of_nil in Hall.
Qed.

Example world3_after :
  let w' := after NetworkManager.on_online world3 in
  (batch_status <$> uploadQueue (store w'), batch_error_message <$> uploadQueue (store w'),
   pair_status <$> pairs (store w'))
  = ([b_error; b_error; b_done],
     [Some "Failed to fetch"; Some "API Error: 500 - Database error"; None],
     [p_pending; p_pending; p_uploaded]).
Proof. vm_compute. reflexivity. Qed.

Lemma online_replays_pending_witness :
  let w' := after NetworkManager.on_online world3 in
  StronglySorted created_before (List.filter is_pending queue3)
  ∧ batch 2 [pair 2 "AT002" "SN2" p_pending] b_error stamp2
          (Some "API Error: 500 - Database error") ∈ uploadQueue (store w')
  ∧ batch 3 [pair 3 "AT002" "SN3" p_pending] b_done stamp3 None ∈ uploadQueue (store w')
  ∧ batch 1 [pair 1 "AT001" "SN1" p_pending] b_error stamp1 (Some "Failed to fetch")
      ∈ uploadQueue (store w').
Proof.
  intros w'.
  destruct (ClientProofs.online_replays_pending world3) as (_ & _ & Hsorted & Hrows).
  destruct Hrows as [Hreplayed Hothers].
  { simpl. apply NoDup_ListNoDup. repeat constructor; simpl; intuition lia. }
  { intros k Hk. simpl in Hk. destruct k as [|[|k]]; [done|done|lia]. }
  split; [|split; [|split]].
  - apply Hsorted. unfold created_before. repeat constructor.
  - pose proof (Hreplayed 0 _ eq_refl) as Hrow.
    vm_compute in Hrow |- *. exact Hrow.
  - pose proof (Hreplayed 1 _ eq_refl) as Hrow.
    vm_compute in Hrow |- *. exact Hrow.
  - apply Hothers; [by left|done].
Defined.



Lemma unauthorized_clears_user_data_witness :
  ∃ w', ApiClient.makeRequest "/pairs/batch" "POST" (UploadPairs [])
          (busy_world (replies response_401))
        = (Throw "Authentication required"%string, w')
        ∧ pairs (store w') = []
        ∧ uploadQueue (store w') = []
        ∧ authTokens (store w') = ∅
        ∧ assetTags (store w') = assetTags (store (busy_world (replies response_401)))
        ∧ length (sent w') = 1.
Proof.
  destruct (ClientProofs.unauthorized_clears_user_data "/pairs/batch" "POST" (UploadPairs [])
              (busy_world (replies response_401)) response_401 eq_refl eq_refl)
    as (w' & Hrun & Hp & Hq & Ha & Ht & req & Hsent & _).
  exists w'. repeat split; try done. by rewrite Hsent.
Defined.



Lemma cache_stamps_are_local_witness :
  let w' := after NetworkManager.syncAssetTags refresh_world in
  let a := {| tag := "AT003"; tag_status := used; last_serial := Some "SN7";
              updated_at := wall_clock 1 |} in
  assetTags_last_by_updated_at (store w') = Some a
  ∧ ((∃ t, assetTags (store refresh_world) !! t = Some a)
     ∨ ∃ k, ticks refresh_world ≤ k < ticks w'
            ∧ updated_at a = clock refresh_world k).
Proof.
  intros w' a.
  assert (assetTags_last_by_updated_at (store w') = Some a) as Hlast
    by (vm_compute; reflexivity).
  split; [done|].
  destruct ClientProofs.cache_stamps_are_local as (_ & _ & Hmark).
  exact (Hmark refresh_world a Hlast).
Defined.

End ClientTests.

(** * The batch handler with failing statements *)

Module BatchProofs.
Import Server ServerSpec BatchSpec.

Section Faults.
Variables (clk : Clock) (user : string) (items : list PairUploadRequest) (d0 : Database).

Abbreviation Kept := (Kept items d0).

Lemma pair_exists_insert_inv t s t' s' by_ at_ d :
  pair_exists (insert_or_replace_pair t' s' by_ at_ d) t s = true →
  (t = t' ∧ s = s') ∨ pair_exists d t s = true.
Proof.
  intros (r & Hin & Hm)%ServerProofs.pair_exists_true. simpl in Hin.
  apply elem_of_app in Hin as [Hin|Hin].
  - right. apply ServerProofs.pair_exists_true. exists r. split; [|done].
    apply list_elem_of_In, filter_In in Hin as [Hin _]. by apply list_elem_of_In.
  - left. apply list_elem_of_singleton in Hin. subst r.
    by apply ServerProofs.same_pair_true in Hm as [<- <-].
Qed.

Lemma Kept_init : Kept (init d0 items).
Proof.
  split; simpl; try done.
  - by left.
  - by left.
  - intros i p s _ Hs. apply lookup_replicate in Hs as [-> _]. done.
Qed.

Lemma Kept_next_moment h : Kept h → Kept (next_moment h).
Proof. intros [? ? ? ? ? ?]. by split. Qed.

Lemma Kept_set_stage h i p s' :
  Kept h → items !! i = Some p → stage_kept d0 p s' → Kept (set_stage i s' h).
Proof.
  intros [H1 H2 H2' H3 H4 H5] Hp Hs'. split; simpl; try done.
  intros j q s Hq Hs. apply list_lookup_insert_Some in Hs as [(-> & <- & _)|[Hne Hs]].
  - rewrite Hp in Hq. by injection Hq as <-.
  - by eapply H4.
Qed.

Lemma Kept_settle h i p r next :
  Kept h → items !! i = Some p → stage_kept d0 p next → result_kept d0 (db h) r →
  Kept (settle (length items) i r next h).
Proof.
  intros [H1 H2 H2' H3 H4 H5] Hp Hnext Hr. split; simpl; try done.
  - intros j q s Hq Hs. apply list_lookup_insert_Some in Hs as [(-> & <- & _)|[Hne Hs]].
    + rewrite Hp in Hq. by injection Hq as <-.
    + by eapply H4.
  - intros j r' Hj. destruct (decide (j = i)) as [->|Hne].
    + rewrite slot_array_set_eq in Hj. by injection Hj as <-.
    + rewrite slot_array_set_ne in Hj by done. by apply (H5 j).
Qed.

(** A statement that writes: no tag appears or disappears, no pair is
    lost, and a tag that changed carries the serial of an item. *)
Lemma Kept_set_db h d :
  Kept h →
  (∀ t, is_Some (asset_tags d !! t) ↔ is_Some (asset_tags (db h) !! t)) →
  (∀ t s, pair_exists (db h) t s = true → pair_exists d t s = true) →
  (∀ t s, pair_exists d t s = true →
          pair_exists (db h) t s = true ∨ from_batch items d0 t s) →
  (∀ t, tag_state d t = tag_state (db h) t ∨ set_by_batch items d t) →
  Kept (set_db d h).
Proof.
  intros [H1 H2 H2' H3 H4 H5] Htags Hpairs Hnew Hstate. split; simpl; try done.
  - intros t. by rewrite Htags.
  - intros t s Hts. by apply Hpairs, H2.
  - intros t s Hts. destruct (Hnew t s Hts) as [Hold|?]; [by apply H2'|by right].
  - intros t. destruct (Hstate t) as [Heq|Hset]; [|by right].
    destruct (H3 t) as [Hd0|(q & Hq & Ht & Hv)]; [left; congruence|].
    right. exists q. repeat split; [done..|congruence].
  - intros i r Hr. destruct (H5 i r Hr) as (Ha & Hb & Hc). repeat split; try done.
    + apply Hpairs. by apply Hb.
    + by apply Hb.
Qed.

Lemma result_kept_error d p msg : result_kept d0 d (db_error p msg).
Proof. repeat split; simpl; try done. Qed.

Lemma Kept_step e h : Kept h → Kept (step clk user items e h).
Proof.
  intros HK. unfold step.
  destruct (items !! ev_item e) as [p|] eqn:Hp; [|done].
  destruct (stages h !! ev_item e) as [s|] eqn:Hs; [|done].
  apply Kept_next_moment.
  pose proof HK as [H1 H2 H2' H3 H4 H5]. pose proof (H4 _ _ _ Hp Hs) as Hst.
  destruct s; simpl in *.
  - (* the tag lookup *)
    unfold on_tag_lookup, select_tag. destruct (ev_err e).
    { apply (Kept_settle h _ p); [done..|apply result_kept_error]. }
    destruct (asset_tags (db h) !! req_asset_tag p) as [row|] eqn:Ht.
    + apply (Kept_set_stage h _ p); [done..|].
      simpl. apply bool_decide_eq_true, H1. by rewrite Ht.
    + apply (Kept_settle h _ p); [done..|]. repeat split; simpl; try done.
      intros _. destruct (asset_tags d0 !! req_asset_tag p) eqn:E; [|done].
      assert (is_Some (asset_tags (db h) !! req_asset_tag p)) as [? ?]; [|congruence].
      apply H1. by rewrite E.
  - (* the pair lookup *)
    unfold on_pair_lookup. destruct (ev_err e).
    { apply (Kept_settle h _ p); [done..|apply result_kept_error]. }
    apply (Kept_set_stage h _ p); [done..|]. simpl. split; [done|].
    destruct (select_pair _ _ _); simpl; auto.
  - (* the insert *)
    destruct Hst as [Hk Hstatus].
    unfold on_insert. destruct (ev_err e).
    { apply (Kept_settle h _ p); [done..|apply result_kept_error]. }
    apply (Kept_settle _ _ p); [|done..|].
    + apply Kept_set_db; [done|done| | |by left].
      * intros t s. apply ServerProofs.pair_exists_insert_mono.
      * intros t s [[-> ->]|Hold]%pair_exists_insert_inv; [|by left].
        right. exists p. split; [by eapply list_elem_of_lookup_2|done].
    + repeat split; simpl.
      * by destruct Hstatus as [-> | ->].
      * apply ServerProofs.pair_exists_insert_same.
      * by apply bool_decide_eq_true in Hk.
      * by destruct Hstatus as [-> | ->].
  - (* the update *)
    unfold on_update. apply (Kept_set_stage _ _ p); [|done..].
    destruct (ev_err e); [done|].
    apply Kept_set_db; [done| |done|by left|].
    + intros t. apply ServerProofs.known_update.
    + intros t. rewrite ServerProofs.tag_state_update. unfold touch. simpl.
      case_decide as Ht; [|by left]. subst t.
      destruct (tag_state (db h) (req_asset_tag p)) as [v|] eqn:Hv; simpl; [|by left].
      right. exists p. split; [by eapply list_elem_of_lookup_2|]. split; [done|].
      rewrite ServerProofs.tag_state_update. unfold touch. simpl.
      rewrite decide_True by done. by rewrite Hv.
  - done.
Qed.

Lemma Kept_run sched h : Kept h → Kept (run clk user items sched h).
Proof.
  unfold run. revert h. induction sched as [|e sched IH]; intros h HK; simpl; [done|].
  apply IH. by apply Kept_step.
Qed.

End Faults.

(** X1. Whatever the order in which the statements of a batch finish and
    whichever of them fail, at every moment of the request: no asset tag
    has been added to or removed from [asset_tags]; every pair that was
    stored before the request is still stored; every pair that is stored
    was stored before or is an item of the batch whose tag is registered;
    and every tag is either as it was (status and last serial) or marked
    used with the serial of an item of the batch that names it. *)
Theorem batch_keeps_tables clk user d items sched :
  let h := run clk user items sched (init d items) in
  (∀ t, is_Some (asset_tags (db h) !! t) ↔ is_Some (asset_tags d !! t))
  ∧ (∀ t s, pair_exists d t s = true → pair_exists (db h) t s = true)
  ∧ (∀ t s, pair_exists (db h) t s = true →
            pair_exists d t s = true
            ∨ ∃ p, p ∈ items ∧ req_asset_tag p = t ∧ req_serial p = s
                   ∧ is_Some (asset_tags d !! t))
  ∧ (∀ t, tag_state (db h) t = tag_state d t
          ∨ ∃ q, q ∈ items ∧ req_asset_tag q = t
                 ∧ tag_state (db h) t = Some (used, Some (req_serial q))).
Proof.
  intros h.
  destruct (Kept_run clk user items d sched _ (Kept_init items d)) as [H1 H2 H2' H3 _ _].
  fold h in H1, H2, H2', H3. split; [done|]. split; [done|]. split.
  - intros t s Hts. destruct (H2' t s Hts) as [?|(p & Hp & <- & <- & Hk)]; [by left|].
    right. exists p. repeat split; try done. by apply bool_decide_eq_true in Hk.
  - intros t. destruct (H3 t) as [?|Hset]; [by left|by right].
Qed.

(** X2. Whatever the order in which the statements of a batch finish and
    whichever of them fail, a result stored for an item never has status
    [asset_tag_in_use]: the handler does not reject a pair because its
    tag is used with another serial.  A result that reports a success
    belongs to a registered tag and its pair is in [pairs] from then on;
    [missing_asset_tag] is reported only for a tag that is not in
    [asset_tags]. *)
Theorem batch_never_reports_in_use clk user d items sched i r :
  let h := run clk user items sched (init d items) in
  slot (results h) i = Some r →
  res_status r ≠ asset_tag_in_use
  ∧ (is_success r = true →
       pair_exists (db h) (res_asset_tag r) (res_serial r) = true
       ∧ is_Some (asset_tags d !! res_asset_tag r))
  ∧ (res_status r = missing_asset_tag → asset_tags d !! res_asset_tag r = None).
Proof.
  intros h Hr.
  destruct (Kept_run clk user items d sched _ (Kept_init items d)) as [_ _ _ _ _ H5].
  fold h in H5. exact (H5 i r Hr).
Qed.

(** X3. The tables a batch leaves do not depend on the order in which
    its statements finish, for a batch that gives no tag two serials:
    two runs of the same batch on the same database, in any two orders,
    with no statement failing and every statement run, end with the same
    status and last serial for every asset tag and with the same set of
    stored (tag, serial) pairs. *)
Theorem batch_order_does_not_matter clk clk' user user' d items sched1 sched2 :
  let h1 := run clk user items sched1 (init d items) in
  let h2 := run clk' user' items sched2 (init d items) in
  fault_free sched1 → fault_free sched2 → consistent items →
  all_finished h1 → all_finished h2 →
  (∀ t, tag_state (db h1) t = tag_state (db h2) t)
  ∧ (∀ t s, pair_exists (db h1) t s = pair_exists (db h2) t s).
Proof.
  intros h1 h2 Hff1 Hff2 Hcons Hfin1 Hfin2. split.
  - intros t. unfold h1, h2.
    by rewrite !ServerProofs.tags_after_any_order.
  - assert (∀ c u sched c' u' sched',
              fault_free sched' →
              all_finished (run c' u' items sched' (init d items)) →
              ∀ t s, pair_exists (db (run c u items sched (init d items))) t s = true →
                     pair_exists (db (run c' u' items sched' (init d items))) t s = true)
      as Hle.
    { intros c u sched c' u' sched' Hff Hfin t s Hts.
      destruct (Kept_run c u items d sched _ (Kept_init items d)) as [_ _ Hnew _ _ _].
      destruct (Kept_run c' u' items d sched' _ (Kept_init items d)) as [_ Hold _ _ _ _].
      destruct (Hnew t s Hts) as [?|(p & Hp & <- & <- & Hk)]; [by apply Hold|].
      apply list_elem_of_lookup in Hp as [i Hi].
      destruct (ServerProofs.Merged_run c' u' items d sched' _ Hff
                  (ServerProofs.Merged_init items d)) as [_ _ Hstage].
      destruct (ServerProofs.Inv_run c' u' items sched' _ (ServerProofs.Inv_init items d))
        as [Hlen _ _ _ _].
      destruct (lookup_lt_is_Some_2
                  (stages (run c' u' items sched' (init d items))) i) as [st Hst].
      { rewrite Hlen. by eapply lookup_lt_Some. }
      specialize (Hstage i p st Hi Hst). rewrite (Hfin i st Hst) in Hstage.
      destruct Hstage as (r & _ & [[_ Hno]|(_ & _ & Hex & _)]); [congruence|done]. }
    intros t s. subst h1 h2.
    destruct (pair_exists (db (run clk user items sched1 (init d items))) t s) eqn:E1,
      (pair_exists (db (run clk' user' items sched2 (init d items))) t s) eqn:E2; try done.
    + by rewrite (Hle clk user sched1 clk' user' sched2 Hff2 Hfin2 t s E1) in E2.
    + by rewrite (Hle clk' user' sched2 clk user sched1 Hff1 Hfin1 t s E2) in E1.
Qed.

Lemma filter_same_pair_insert t s by_ at_ d :
  List.filter (same_pair t s) (pairs (insert_or_replace_pair t s by_ at_ d))
  = [ {| pr_id := pairs_seq d; pr_asset_tag := t; pr_serial := s;
         pr_assigned_by := by_; pr_assigned_at := at_ |} ]
  ∧ List.filter (λ r, negb (same_pair t s r)) (pairs (insert_or_replace_pair t s by_ at_ d))
    = List.filter (λ r, negb (same_pair t s r)) (pairs d).
Proof.
  simpl. rewrite !List.filter_app. simpl.
  assert (same_pair t s {| pr_id := pairs_seq d; pr_asset_tag := t; pr_serial := s;
                           pr_assigned_by := by_; pr_assigned_at := at_ |} = true) as ->
    by (by apply ServerProofs.same_pair_true).
  simpl. split.
  - replace (List.filter (same_pair t s)
               (List.filter (λ r, negb (same_pair t s r)) (pairs d))) with (@nil PairRow); [done|].
    induction (pairs d) as [|r l IH]; simpl; [done|].
    destruct (same_pair t s r) eqn:E; simpl; [done|]. by rewrite E.
  - rewrite app_nil_r.
    induction (pairs d) as [|r l IH]; simpl; [done|].
    destruct (same_pair t s r) eqn:E; simpl; [done|]. rewrite E. simpl. by f_equal.
Qed.

(** X4. Uploading a pair overwrites its row.  After a batch of one
    item whose tag is registered (no statement failing), [pairs] holds
    exactly one row with the tag and serial of the item: a new row, with
    a fresh id, the uploading user as [assigned_by], and as
    [assigned_at] the [scanned_at] the client sent (the server's clock
    when it sent none).  A row the pair had before, with who assigned it
    and when, is gone; every row of another pair is as it was. *)
Theorem upload_overwrites_the_row clk user d p :
  let h := batch_handler clk user d [p] in
  let t := req_asset_tag p in
  let s := req_serial p in
  is_Some (asset_tags d !! t) →
  List.filter (same_pair t s) (pairs (db h))
  = [ {| pr_id := pairs_seq d; pr_asset_tag := t; pr_serial := s;
         pr_assigned_by := user;
         pr_assigned_at := if truthy (req_scanned_at p) then default ""%string (req_scanned_at p)
                           else js_now clk 1 |} ]
  ∧ List.filter (λ r, negb (same_pair t s r)) (pairs (db h))
    = List.filter (λ r, negb (same_pair t s r)) (pairs d)
  ∧ pairs_seq (db h) = S (pairs_seq d).
Proof.
  intros h t s [row Hrow]. subst h.
  unfold batch_handler, fifo, round, run. simpl foldl.
  set (h0 := init d [p]).
  rewrite (ServerProofs.step_tag_known clk user [p] h0 0 p row eq_refl eq_refl Hrow).
  set (h1 := next_moment (set_stage 0 AwaitPair h0)).
  rewrite (ServerProofs.step_pair clk user [p] h1 0 p eq_refl eq_refl).
  match goal with
  | |- context [step clk user [p] (ok_event 0) (step clk user [p] (ok_event 0) ?h)] =>
      set (h2 := h)
  end.
  rewrite (ServerProofs.step_insert clk user [p] h2 0 p _ _ eq_refl eq_refl).
  match goal with
  | |- context [step clk user [p] (ok_event 0) ?h] => set (h3 := h)
  end.
  rewrite (ServerProofs.step_update clk user [p] h3 0 p eq_refl eq_refl).
  simpl. fold t s. unfold assigned_at_for. simpl.
  destruct (filter_same_pair_insert t s user
              (if truthy (req_scanned_at p) then default ""%string (req_scanned_at p)
               else js_now clk 1) d) as [Hsame Hothers].
  simpl in Hsame, Hothers. done.
Qed.

End BatchProofs.

(** * The listing, search and replace endpoints *)

Module EndpointProofs.
Import Server ServerSpec Runtime Endpoints.

(** ** The order of timestamps as text *)

Lemma ascii_compare_refl c : Ascii.compare c c = Eq.
Proof.
  pose proof (Ascii.compare_antisym c c) as H.
  by destruct (Ascii.compare c c).
Qed.

Lemma compare_common_prefix p a b :
  String.compare (p ++ a) (p ++ b) = String.compare a b.
Proof.
  induction p as [|c p IH]; simpl; [done|]. by rewrite ascii_compare_refl.
Qed.

Lemma truthy_Some s : truthy (Some s) = true ↔ s ≠ ""%string.
Proof.
  simpl. rewrite negb_true_iff. split.
  - intros H ->. done.
  - intros H. by apply String.eqb_neq.
Qed.

(** ** [GET /api/asset-tags] *)

Lemma get_asset_tags_lists since d x :
  get_asset_tags false since d = Sends
    (tag_json <$> List.filter (λ kv, newer_than since kv.2) (map_to_list (asset_tags d)))
  ∧ (x ∈ tag_json <$> List.filter (λ kv, newer_than since kv.2) (map_to_list (asset_tags d))
     ↔ ∃ t r, asset_tags d !! t = Some r ∧ newer_than since r = true
              ∧ x = tag_json (t, r)).
Proof.
  split; [done|]. rewrite list_elem_of_fmap. split.
  - intros ([t r] & -> & Hin). apply list_elem_of_In, filter_In in Hin as [Hin Hnew].
    apply list_elem_of_In, elem_of_map_to_list in Hin. by exists t, r.
  - intros (t & r & Ht & Hnew & ->). exists (t, r). split; [done|].
    apply list_elem_of_In, filter_In. split; [|done].
    by apply list_elem_of_In, elem_of_map_to_list.
Qed.

(** X5. The listing of asset tags compares [updated_at] with [since] as
    text.  A row whose [updated_at] has the form SQLite's
    [CURRENT_TIMESTAMP] writes (date, a space, the time) is never listed
    when [since] is a timestamp of the same date in the form the client
    sends (date, ['T'], the time), however much later the row was
    updated that day; the same row is listed when [since] is absent. *)
Theorem listing_misses_same_day_updates d t r day time stamp :
  asset_tags d !! t = Some r →
  at_updated_at r = (day ++ " " ++ time)%string →
  ∃ all newer,
    get_asset_tags false None d = Sends all
    ∧ tag_json (t, r) ∈ all
    ∧ get_asset_tags false (Some (day ++ "T" ++ stamp)%string) d = Sends newer
    ∧ ∀ x, x ∈ newer → atr_tag x ≠ t.
Proof.
  intros Ht Hat.
  destruct (get_asset_tags_lists None d (tag_json (t, r))) as [Hall Hin].
  eexists _, _. split; [exact Hall|]. split.
  { apply Hin. by exists t, r. }
  split; [apply (get_asset_tags_lists _ d (tag_json (t, r)))|].
  intros x Hx Hxt.
  apply (get_asset_tags_lists _ d x) in Hx as (t' & r' & Ht' & Hnew & ->).
  simpl in Hxt. subst t'. rewrite Ht in Ht'. injection Ht' as <-.
  unfold newer_than in Hnew.
  assert (truthy (Some (day ++ "T" ++ stamp)%string) = true) as Htruthy.
  { apply truthy_Some. by destruct day. }
  rewrite Htruthy in Hnew. simpl in Hnew. rewrite Hat in Hnew. unfold String.ltb in Hnew.
  rewrite compare_common_prefix in Hnew. done.
Qed.

(** ** [GET /api/pairs/search] *)

Lemma plan_elem (plan : list PairRow → list PairRow) l r :
  (∀ l, plan l ≡ₚ l) → r ∈ plan l ↔ r ∈ l.
Proof. intros Hplan. by rewrite (Hplan l). Qed.

Lemma matching_rows q d r :
  r ∈ List.filter (matches q) (pairs d) ↔ r ∈ pairs d ∧ matches q r = true.
Proof. by rewrite list_elem_of_In, filter_In, <- list_elem_of_In. Qed.

Lemma joined_status_tag_state d r :
  joined_status d r = default unused (fst <$> tag_state d (pr_asset_tag r)).
Proof.
  unfold joined_status, tag_state. by destruct (asset_tags d !! pr_asset_tag r).
Qed.

(** X6. What a search answers, whatever order SQLite lists the rows in:
    400 exactly when neither [asset_tag] nor [serial] is given (an empty
    string counts as not given), 500 when the statement fails, 404
    exactly when no stored pair matches every given field; otherwise
    [asset_tag] and [serial] are those of one matching pair, [status] is
    the status of that pair's tag, ['unused'] when the tag has no row in
    [asset_tags], and [history] has one entry for every matching pair,
    of whatever tag when only a serial was given. *)
Theorem search_pairs_outcome plan err q d :
  (∀ l, plan l ≡ₚ l) →
  match search_pairs plan err q d with
  | Fails code _ =>
      (code = 400 ∧ truthy (q_asset_tag q) = false ∧ truthy (q_serial q) = false)
      ∨ (code = 500 ∧ err = true)
      ∨ (code = 404 ∧ ∀ r, r ∈ pairs d → matches q r = false)
  | Sends res =>
      err = false
      ∧ (truthy (q_asset_tag q) = true ∨ truthy (q_serial q) = true)
      ∧ (∃ r0, r0 ∈ pairs d ∧ matches q r0 = true
               ∧ sr_asset_tag res = pr_asset_tag r0 ∧ sr_serial res = pr_serial r0
               ∧ sr_status res = default unused (fst <$> tag_state d (pr_asset_tag r0)))
      ∧ sr_history res ≡ₚ history_entry <$> List.filter (matches q) (pairs d)
  end.
Proof.
  intros Hplan. unfold search_pairs.
  destruct (truthy (q_asset_tag q)) eqn:Ha, (truthy (q_serial q)) eqn:Hs; simpl;
    try (destruct err; [by right; left|]);
    try (by left);
    (destruct (plan (List.filter (matches q) (pairs d))) as [|r0 rows] eqn:Hrows;
     [ right; right; split; [done|]; intros r Hr;
       destruct (matches q r) eqn:Hm; [|done];
       assert (r ∈ plan (List.filter (matches q) (pairs d))) as Hin
         by (apply plan_elem; [done|]; by apply matching_rows);
       rewrite Hrows in Hin; by apply elem_of_nil in Hin
     | split; [done|]; split; [auto|]; split;
       [ assert (r0 ∈ List.filter (matches q) (pairs d)) as [Hin Hm]%matching_rows
           by (apply (plan_elem plan); [done|]; rewrite Hrows; left);
         exists r0; simpl; repeat split; try done; apply joined_status_tag_state
       | simpl; rewrite <- (Hplan (List.filter (matches q) (pairs d))), Hrows; done ] ]).
Qed.

(** ** [PUT /api/pairs/replace] *)

Lemma foldl_later_row_Some l acc e :
  foldl later_row acc l = Some e → acc = Some e ∨ e ∈ l.
Proof.
  revert acc. induction l as [|r l IH]; intros acc H; simpl in *; [by left|].
  destruct (IH _ H) as [Hacc|Hin]; [|right; by right].
  destruct acc as [b|]; simpl in Hacc.
  - destruct (String.ltb _ _); injection Hacc as <-; [right; left|by left].
  - injection Hacc as <-. right. left.
Qed.

Lemma foldl_later_row_None l acc :
  foldl later_row acc l = None → acc = None ∧ l = [].
Proof.
  revert acc. induction l as [|r l IH]; intros acc H; simpl in *; [done|].
  destruct (IH _ H) as [Hacc _].
  destruct acc as [b|]; simpl in Hacc; [by destruct (String.ltb _ _)|done].
Qed.

(** The pair the handler finds is one of the stored pairs it looks for,
    and it finds one whenever there is one. *)
Lemma most_recent_wanted plan rq d :
  (∀ l, plan l ≡ₚ l) →
  match most_recent (plan (List.filter (wanted rq) (pairs d))) with
  | Some e => e ∈ pairs d ∧ wanted rq e = true
  | None => ∀ r, r ∈ pairs d → wanted rq r = false
  end.
Proof.
  intros Hplan. unfold most_recent.
  destruct (foldl later_row None _) as [e|] eqn:E.
  - apply foldl_later_row_Some in E as [?|Hin]; [done|].
    rewrite (Hplan _) in Hin.
    by rewrite list_elem_of_In, filter_In, <- list_elem_of_In in Hin.
  - apply foldl_later_row_None in E as [_ Hnil].
    intros r Hr. destruct (wanted rq r) eqn:Hw; [|done].
    assert (r ∈ plan (List.filter (wanted rq) (pairs d))) as Hin.
    { rewrite (Hplan _). apply list_elem_of_In, filter_In. split; [|done].
      by apply list_elem_of_In. }
    rewrite Hnil in Hin. by apply elem_of_nil in Hin.
Qed.

Lemma insert_pair_Some t s by_ at_ d d1 :
  insert_pair t s by_ at_ d = Some d1 →
  pair_exists d t s = false
  ∧ asset_tags d1 = asset_tags d
  ∧ pairs d1 = pairs d ++ [ {| pr_id := pairs_seq d; pr_asset_tag := t; pr_serial := s;
                               pr_assigned_by := by_; pr_assigned_at := at_ |} ].
Proof.
  unfold insert_pair. destruct (pair_exists d t s); [done|].
  intros [= <-]. done.
Qed.

(** X7. A replace never deletes or rewrites a stored pair and never adds
    or removes an asset tag, whichever of its statements fail: a request
    that is refused (400, 404, 500) leaves the database as it was, and a
    request that is accepted appends exactly one row to [pairs], with a
    fresh id, the user of the request and the server's clock, for a
    (tag, serial) that was not stored before. *)
Theorem replace_keeps_history plan flt clk moment user rq d :
  let reply := (replace_pair plan flt clk moment user rq d).1 in
  let d' := (replace_pair plan flt clk moment user rq d).2 in
  (∀ t, is_Some (asset_tags d' !! t) ↔ is_Some (asset_tags d !! t))
  ∧ (rr_success reply = false → d' = d)
  ∧ (rr_success reply = true →
       ∃ row, pairs d' = pairs d ++ [row]
              ∧ pr_id row = pairs_seq d ∧ pr_assigned_by row = user
              ∧ pr_assigned_at row = js_now clk moment
              ∧ pair_exists d (pr_asset_tag row) (pr_serial row) = false).
Proof.
  unfold replace_pair.
  destruct (_ || _ || _); [done|].
  destruct (find_fails flt); [done|].
  destruct (most_recent _) as [e|]; [|done].
  destruct (if insert_fails flt then None else _) as [d1|] eqn:Hins; [|done].
  destruct (insert_fails flt); [done|].
  apply insert_pair_Some in Hins as (Hnew & Htags & Hpairs). simpl.
  split; [|split; [done|]].
  - intros t. destruct (update_fails flt); [by rewrite Htags|].
    by rewrite ServerProofs.known_update, Htags.
  - intros _. eexists. split.
    + destruct (update_fails flt); simpl; exact Hpairs.
    + done.
Qed.

(** X8. Replacing the serial of an asset tag by a serial that is already
    stored with that tag (the serial it has now, or one it had before)
    is refused with 500 'Failed to create replacement pair' and changes
    nothing: the insert violates [UNIQUE(asset_tag, serial)]. *)
Theorem replace_existing_pair_rejected plan flt clk moment user rq d t s :
  (∀ l, plan l ≡ₚ l) →
  searchBy rq = Some "asset_tag"%string → value rq = Some t → t ≠ ""%string →
  truthy (new_asset_tag rq) = false →
  new_serial rq = Some s → s ≠ ""%string →
  find_fails flt = false →
  pair_exists d t s = true →
  replace_pair plan flt clk moment user rq d
  = (refused 500 "Failed to create replacement pair", d).
Proof.
  intros Hplan Hby Hv Ht Hnt Hns Hs Hfind Hex.
  pose proof (most_recent_wanted plan rq d Hplan) as Hfound.
  unfold replace_pair. rewrite Hby, Hv, Hnt, Hns, Hfind.
  rewrite (proj2 (truthy_Some t) Ht), (proj2 (truthy_Some s) Hs). simpl.
  destruct (most_recent _) as [e|].
  - destruct Hfound as [_ Hw]. unfold wanted in Hw. rewrite Hby, Hv in Hw. simpl in Hw.
    apply String.eqb_eq in Hw.
    unfold updateAssetTag, updateSerial. rewrite Hnt, Hns.
    rewrite (proj2 (truthy_Some s) Hs). simpl. rewrite Hw.
    destruct (insert_fails flt); [done|].
    unfold insert_pair. by rewrite Hex.
  - apply ServerProofs.pair_exists_true in Hex as (r & Hr & [Hrt _]%ServerProofs.same_pair_true).
    specialize (Hfound r Hr). unfold wanted in Hfound. rewrite Hby, Hv in Hfound.
    simpl in Hfound. apply String.eqb_neq in Hfound. done.
Qed.

(** X9. An accepted replace writes to one row of [asset_tags] at most,
    the row of the target tag ([new_asset_tag], or the tag of the pair
    that was found): that tag becomes used with the target serial if it
    is registered and the update does not fail, and success is reported
    also when it is not registered, in which case no row is created.
    Every other tag, the tag a serial was moved away from included,
    keeps its row as it was. *)
Theorem replace_touches_only_target_tag plan flt clk moment user rq d :
  let reply := (replace_pair plan flt clk moment user rq d).1 in
  let d' := (replace_pair plan flt clk moment user rq d).2 in
  (∀ l, plan l ≡ₚ l) →
  rr_success reply = true →
  ∃ e, e ∈ pairs d ∧ wanted rq e = true
       ∧ pair_exists d' (updateAssetTag rq e) (updateSerial rq e) = true
       ∧ (∀ t, t ≠ updateAssetTag rq e → asset_tags d' !! t = asset_tags d !! t)
       ∧ tag_state d' (updateAssetTag rq e)
         = if update_fails flt then tag_state d (updateAssetTag rq e)
           else (λ _, (used, Some (updateSerial rq e))) <$> tag_state d (updateAssetTag rq e).
Proof.
  intros reply d' Hplan. unfold reply, d'. clear reply d'.
  pose proof (most_recent_wanted plan rq d Hplan) as Hfound.
  unfold replace_pair.
  destruct (_ || _ || _); [done|].
  destruct (find_fails flt); [done|].
  destruct (most_recent _) as [e|]; [|done].
  destruct (if insert_fails flt then None else _) as [d1|] eqn:Hins; [|done].
  destruct (insert_fails flt); [done|].
  apply insert_pair_Some in Hins as (Hnew & Htags & Hpairs). simpl.
  intros _. exists e. destruct Hfound as [Hin Hw]. split; [done|]. split; [done|].
  assert (pair_exists d1 (updateAssetTag rq e) (updateSerial rq e) = true) as Hstored.
  { apply ServerProofs.pair_exists_true. eexists. split.
    - rewrite Hpairs. apply elem_of_app. right. by apply list_elem_of_singleton.
    - by apply ServerProofs.same_pair_true. }
  destruct (update_fails flt).
  - split; [done|]. split; [intros; by rewrite Htags|].
    unfold tag_state. by rewrite Htags.
  - split; [done|]. split.
    + intros t Hne. simpl. rewrite lookup_alter_ne by done. by rewrite Htags.
    + rewrite ServerProofs.tag_state_update. unfold touch. simpl.
      rewrite decide_True by done. unfold tag_state. by rewrite Htags.
Qed.

(** ** A search after a replace *)




End EndpointProofs.

(** * The endpoints on concrete databases *)

Module EndpointTests.
Import Server ServerSpec Runtime Endpoints ServerExamples EndpointExamples.

(** The first item of the batch [three] on the seeded database. *)
Lemma batch_never_reports_in_use_witness :
  let h := run clk "admin" three (fifo 3) (init seeded three) in
  ∃ r, slot (results h) 0 = Some r
       ∧ res_status r = ok_inserted
       ∧ pair_exists (db h) "AT001" "SN1" = true.
Proof.
  intros h.
  pose (r := {| res_status := ok_inserted; res_asset_tag := "AT001"; res_serial := "SN1";
                res_message := None |}).
  assert (slot (results h) 0 = Some r) as Hr by (vm_compute; reflexivity).
  destruct (BatchProofs.batch_never_reports_in_use clk "admin" seeded three (fifo 3) 0 r Hr)
    as (_ & Hstored & _).
  exists r. split; [exact Hr|]. split; [reflexivity|].
  exact (proj1 (Hstored eq_refl)).
Defined.

(** [AT001] was updated by the server on 2024-05-01 at 15:30; a client
    whose newest record is from 10:00 that day does not get it. *)
Lemma listing_misses_same_day_updates_witness :
  ∃ all newer,
    get_asset_tags false None in_use = Sends all
    ∧ tag_json ("AT001", updated_tag) ∈ all
    ∧ get_asset_tags false (Some "2024-05-01T10:00:00.000Z") in_use = Sends newer
    ∧ ∀ x, x ∈ newer → atr_tag x ≠ "AT001".
Proof.
  apply (EndpointProofs.listing_misses_same_day_updates
           in_use "AT001" updated_tag "2024-05-01" "15:30:00" "10:00:00.000Z");
    reflexivity.
Defined.

(** A search by serial alone: the history mixes the tags. *)
Lemma search_pairs_outcome_witness :
  ∃ res, search_pairs table_order false (by_serial "SN2") in_use = Sends res
         ∧ sr_asset_tag res = "AT001" ∧ sr_status res = used
         ∧ length (sr_history res) = 2.
Proof.
  pose proof (EndpointProofs.search_pairs_outcome table_order false (by_serial "SN2") in_use
                (λ l, reflexivity l)) as H.
  vm_compute in H |- *. eexists. repeat split.
Defined.

Lemma replace_existing_pair_rejected_witness :
  replace_pair table_order no_faults clk 0 "admin" (new_serial_for "AT001" "SN1") in_use
  = (refused 500 "Failed to create replacement pair", in_use).
Proof.
  apply (EndpointProofs.replace_existing_pair_rejected
           table_order no_faults clk 0 "admin" (new_serial_for "AT001" "SN1") in_use
           "AT001" "SN1"); try reflexivity; try done.
Defined.

(** Moving [SN1] from [AT001] to [AT002]: [AT001] stays used with [SN2]. *)
Lemma replace_touches_only_target_tag_witness :
  let d' := (replace_pair table_order no_faults clk 0 "admin"
               (move_serial_to "SN1" "AT002") in_use).2 in
  tag_state d' "AT001" = Some (used, Some "SN2")
  ∧ tag_state d' "AT002" = Some (used, Some "SN1").
Proof.
  pose proof (EndpointProofs.replace_touches_only_target_tag
                table_order no_faults clk 0 "admin" (move_serial_to "SN1" "AT002") in_use
                (λ l, reflexivity l) eq_refl) as (e & _ & _ & _ & _ & _).
  vm_compute. done.
Defined.


End EndpointTests.

(** * The client: what every operation keeps *)

Module ClientExtra.
Import Db Runtime ClientSpec SyncSpec.

Section Keeps.
Variable P : Store → Prop.

Lemma keeps_refl w : keeps P w w.
Proof. by intros ?. Qed.

Lemma keeps_trans w1 w2 w3 : keeps P w1 w2 → keeps P w2 w3 → keeps P w1 w3.
Proof. unfold keeps. auto. Qed.

Lemma keeps_write_store f :
  (∀ s, P s → P (f s)) → preserves (keeps P) (write_store f).
Proof. intros Hf w HP. by apply Hf. Qed.

Lemma keeps_read_store {A} (f : Store → A) : preserves (keeps P) (read_store f).
Proof. by intros w HP. Qed.

Lemma keeps_now : preserves (keeps P) now.
Proof. by intros w HP. Qed.

Lemma keeps_fetch r : preserves (keeps P) (fetch r).
Proof.
  intros w HP. unfold after, fetch. by destruct (network w (length (sent w))).
Qed.

Ltac keeps_bind := apply (ClientProofs.preserves_bind (keeps P) keeps_trans).
Ltac keeps_try := apply (ClientProofs.preserves_try_catch (keeps P) keeps_trans).
Ltac keeps_for := apply (ClientProofs.preserves_for_of (keeps P) keeps_refl keeps_trans).
Ltac keeps_ret := apply (ClientProofs.preserves_ret (keeps P) keeps_refl).
Ltac keeps_throw := apply (ClientProofs.preserves_throw (keeps P) keeps_refl).

Hypothesis P_cache : ∀ s t a, tag a = t → P s → P (set_assetTags (λ m, <[t := a]> m) s).
Hypothesis P_token : ∀ s f, P s → P (set_authTokens f s).
Hypothesis P_no_pairs : ∀ s, P s → P (set_pairs (λ _, []) s).
Hypothesis P_no_queue : ∀ s, P s → P (set_uploadQueue (λ _, []) s).
Hypothesis P_batch_row :
  ∀ s k f, (∀ b, batch_id (f b) = batch_id b) → P s → P (uploadQueue_update k f s).
Hypothesis P_pair_rows : ∀ s t sr st, P s → P (pairs_modify_where t sr st s).
Hypothesis P_pair_row : ∀ s k st, P s → P (pairs_update k (with_pair_status st) s).
Hypothesis P_add_pair : ∀ s t sr at_ st, P s → P (pairs_add t sr at_ st s).2.
Hypothesis P_add_batch : ∀ s its st at_, P s → P (uploadQueue_add its st at_ s).2.

Lemma keeps_updateAssetTag t st ls : preserves (keeps P) (dbHelpers.updateAssetTag t st ls).
Proof.
  keeps_bind; [apply keeps_now|]. intros stamp.
  apply keeps_write_store. intros s. by apply P_cache.
Qed.

Lemma keeps_getCurrentAuthToken : preserves (keeps P) dbHelpers.getCurrentAuthToken.
Proof.
  keeps_bind; [apply keeps_read_store|]. intros [t|]; [|keeps_ret].
  keeps_bind; [apply keeps_now|]. intros today.
  destruct (String.leb _ _); [|keeps_ret].
  keeps_bind; [|intros; keeps_ret]. apply keeps_write_store. intros s. apply P_token.
Qed.

Lemma keeps_getAuthToken : preserves (keeps P) ApiClient.getAuthToken.
Proof. keeps_bind; [apply keeps_getCurrentAuthToken|]. intros tok. keeps_ret. Qed.

Lemma keeps_clearUserData : preserves (keeps P) dbHelpers.clearUserData.
Proof.
  keeps_bind; [by apply keeps_write_store|]. intros _.
  keeps_bind; [by apply keeps_write_store|]. intros _.
  apply keeps_write_store. intros s. apply P_token.
Qed.

Lemma keeps_makeRequest ep meth body :
  preserves (keeps P) (ApiClient.makeRequest ep meth body).
Proof.
  keeps_bind; [apply keeps_getAuthToken|]. intros tok.
  keeps_bind; [apply keeps_fetch|]. intros response.
  destruct (Nat.eqb _ _).
  - keeps_bind; [apply keeps_clearUserData|]. intros _. keeps_throw.
  - destruct (negb _); [keeps_throw|keeps_ret].
Qed.

Lemma keeps_uploadPairs ps : preserves (keeps P) (ApiClient.uploadPairs ps).
Proof.
  keeps_bind; [apply keeps_makeRequest|]. intros [rs|ts|]; first [keeps_ret|keeps_throw].
Qed.

Lemma keeps_getAssetTags since : preserves (keeps P) (ApiClient.getAssetTags since).
Proof.
  keeps_bind; [apply keeps_makeRequest|]. intros [rs|ts|]; first [keeps_ret|keeps_throw].
Qed.

Lemma keeps_replay_batch b : preserves (keeps P) (NetworkManager.replay_batch b).
Proof.
  keeps_try.
  - keeps_bind; [apply keeps_uploadPairs|]. intros results.
    keeps_bind.
    { keeps_for. intros r. destruct (is_success r); [apply keeps_updateAssetTag|keeps_ret]. }
    intros _. keeps_bind.
    { apply keeps_write_store. intros s. by apply P_batch_row. }
    intros _. keeps_for. intros pair.
    destruct (NetworkManager.result_for results pair) as [r|]; [|keeps_ret].
    destruct (is_success r); [|keeps_ret].
    apply keeps_write_store. intros s. apply P_pair_rows.
  - intros msg. apply keeps_write_store. intros s. by apply P_batch_row.
Qed.

Lemma keeps_processOfflineQueue : preserves (keeps P) NetworkManager.processOfflineQueue.
Proof.
  intros w. unfold after, NetworkManager.processOfflineQueue.
  destruct (isOnline w); simpl; [|apply keeps_refl].
  revert w. keeps_try; [|intros; keeps_ret].
  keeps_bind; [apply keeps_read_store|]. intros pending.
  keeps_for. apply keeps_replay_batch.
Qed.

Lemma keeps_on_online : preserves (keeps P) NetworkManager.on_online.
Proof.
  keeps_bind; [by intros w HP|]. intros _. apply keeps_processOfflineQueue.
Qed.

Lemma keeps_syncAssetTags : preserves (keeps P) NetworkManager.syncAssetTags.
Proof.
  intros w. unfold after, NetworkManager.syncAssetTags.
  destruct (isOnline w); simpl; [|apply keeps_refl].
  revert w. keeps_try; [|intros; keeps_ret].
  keeps_bind; [apply keeps_read_store|]. intros lastTag.
  keeps_bind; [apply keeps_getAssetTags|]. intros ts.
  keeps_for. intros t. apply keeps_updateAssetTag.
Qed.

Lemma keeps_addPair t s : preserves (keeps P) (dbHelpers.addPair t s).
Proof.
  keeps_bind; [apply keeps_now|]. intros stamp w HP. unfold after. simpl.
  by apply (P_add_pair (store w) t s stamp p_pending).
Qed.

Lemma keeps_queueForUpload ps : preserves (keeps P) (dbHelpers.queueForUpload ps).
Proof.
  keeps_bind; [apply keeps_now|]. intros stamp w HP. unfold after. simpl.
  by apply (P_add_batch (store w) ps b_pending stamp).
Qed.

Lemma keeps_updatePairStatus t s st : preserves (keeps P) (dbHelpers.updatePairStatus t s st).
Proof.
  keeps_bind; [apply keeps_read_store|]. intros [p|]; [|keeps_ret].
  apply keeps_write_store. intros s0. apply P_pair_row.
Qed.

Lemma keeps_validateAndAddPair u : preserves (keeps P) (PairBuilder.validateAndAddPair u).
Proof.
  unfold PairBuilder.validateAndAddPair. destruct (negb _); [keeps_ret|].
  keeps_bind; [|intros; keeps_ret]. keeps_try; [|intros; keeps_ret].
  keeps_bind; [apply keeps_read_store|]. intros [info|]; [|keeps_ret].
  destruct (PairBuilder.used_with_other_serial _ _); [keeps_ret|].
  keeps_bind; [apply keeps_addPair|]. intros _. keeps_ret.
Qed.

Lemma keeps_confirmMissingTag u : preserves (keeps P) (PairBuilder.confirmMissingTag u).
Proof.
  keeps_bind; [apply keeps_updateAssetTag|]. intros _. apply keeps_validateAndAddPair.
Qed.

End Keeps.

(** ** The tables stay well formed *)

Lemma ids_fresh {A} (key : A → nat) (l : list A) (k : nat) (x : A) :
  NoDup (key <$> l) → Forall (λ y, key y < k) l → key x = k →
  NoDup (key <$> (l ++ [x])) ∧ Forall (λ y, key y < S k) (l ++ [x]).
Proof.
  intros Hnd Hlt Hx. split.
  - rewrite fmap_app. apply NoDup_app. split; [done|]. split.
    + intros n Hn Hn'. apply list_elem_of_singleton in Hn'. subst n.
      apply list_elem_of_fmap in Hn as (y & Hy & Hin).
      rewrite Forall_forall in Hlt. specialize (Hlt y Hin). lia.
    + simpl. apply NoDup_singleton.
  - apply Forall_app. split.
    + eapply Forall_impl; [done|]. simpl. lia.
    + constructor; [lia|done].
Qed.

Lemma ids_map {A} (key : A → nat) (g : A → A) (l : list A) (k : nat) :
  (∀ y, key (g y) = key y) →
  NoDup (key <$> l) → Forall (λ y, key y < k) l →
  NoDup (key <$> List.map g l) ∧ Forall (λ y, key y < k) (List.map g l).
Proof.
  intros Hg Hnd Hlt.
  assert (key <$> List.map g l = key <$> l) as Heq.
  { induction l as [|y l IH]; simpl; [done|].
    apply Forall_cons in Hlt as [_ Hlt]. apply NoDup_cons in Hnd as [_ Hnd].
    f_equal; [apply Hg|by apply IH]. }
  split; [by rewrite Heq|].
  apply Forall_forall. intros y Hy. apply list_elem_of_In, in_map_iff in Hy as (z & <- & Hz).
  rewrite Hg. rewrite Forall_forall in Hlt. by apply Hlt, list_elem_of_In.
Qed.

Lemma store_wf_cache s t a :
  tag a = t → store_wf s → store_wf (set_assetTags (λ m, <[t := a]> m) s).
Proof.
  intros Ha (H1 & H2 & H3 & H4 & H5). repeat split; try done.
  simpl. by apply map_Forall_insert_2.
Qed.

Lemma store_wf_token s f : store_wf s → store_wf (set_authTokens f s).
Proof. by intros (H1 & H2 & H3 & H4 & H5). Qed.

Lemma store_wf_no_pairs s : store_wf s → store_wf (set_pairs (λ _, []) s).
Proof.
  intros (H1 & H2 & H3 & H4 & H5). repeat split; try done; simpl; constructor.
Qed.

Lemma store_wf_no_queue s : store_wf s → store_wf (set_uploadQueue (λ _, []) s).
Proof.
  intros (H1 & H2 & H3 & H4 & H5). repeat split; try done; simpl; constructor.
Qed.

Lemma store_wf_batch_row s k f :
  (∀ b, batch_id (f b) = batch_id b) → store_wf s → store_wf (uploadQueue_update k f s).
Proof.
  intros Hf (H1 & H2 & H3 & H4 & H5).
  destruct (ids_map batch_id (λ b, if decide (batch_id b = k) then f b else b)
              (uploadQueue s) (uploadQueue_key s)) as [H3' H4']; try done.
  intros y. by case_decide.
Qed.

Lemma store_wf_pair_rows s t sr st : store_wf s → store_wf (pairs_modify_where t sr st s).
Proof.
  intros (H1 & H2 & H3 & H4 & H5).
  destruct (ids_map pair_id (λ p, if pair_matches t sr p then with_pair_status st p else p)
              (pairs s) (pairs_key s)) as [H1' H2']; try done.
  intros y. by destruct (pair_matches t sr y).
Qed.

Lemma store_wf_pair_row s k st :
  store_wf s → store_wf (pairs_update k (with_pair_status st) s).
Proof.
  intros (H1 & H2 & H3 & H4 & H5).
  destruct (ids_map pair_id (λ p, if decide (pair_id p = k) then with_pair_status st p else p)
              (pairs s) (pairs_key s)) as [H1' H2']; try done.
  intros y. by case_decide.
Qed.

Lemma store_wf_add_pair s t sr at_ st : store_wf s → store_wf (pairs_add t sr at_ st s).2.
Proof.
  intros (H1 & H2 & H3 & H4 & H5).
  destruct (ids_fresh pair_id (pairs s) (pairs_key s)
              {| pair_id := pairs_key s; pair_asset_tag := t; pair_serial := sr;
                 pair_scanned_at := at_; pair_status := st |}) as [H1' H2']; done.
Qed.

Lemma store_wf_add_batch s its st at_ :
  store_wf s → store_wf (uploadQueue_add its st at_ s).2.
Proof.
  intros (H1 & H2 & H3 & H4 & H5).
  destruct (ids_fresh batch_id (uploadQueue s) (uploadQueue_key s)
              {| batch_id := uploadQueue_key s; batch_items := its; batch_status := st;
                 batch_created_at := at_; batch_error_message := None |}) as [H3' H4']; done.
Qed.

(** X11. The local store stays well formed under every operation of the
    client: if the ids of the pairs are distinct and below the key
    generator of the table, the same for the upload queue, and every
    cached asset tag is stored under its own name, then this still holds
    after going online (with the replay of the queue, whatever the
    network answers), after a refresh of the asset tags, after an
    admission and after the confirmation of a missing tag, after queueing
    a batch, after changing the status of a pair and after any request. *)
Theorem store_stays_well_formed w :
  store_wf (store w) →
  store_wf (store (after NetworkManager.on_online w))
  ∧ store_wf (store (after NetworkManager.syncAssetTags w))
  ∧ (∀ u, store_wf (store (after (PairBuilder.validateAndAddPair u) w)))
  ∧ (∀ u, store_wf (store (after (PairBuilder.confirmMissingTag u) w)))
  ∧ (∀ ps, store_wf (store (after (dbHelpers.queueForUpload ps) w)))
  ∧ (∀ t s st, store_wf (store (after (dbHelpers.updatePairStatus t s st) w)))
  ∧ (∀ ep meth body, store_wf (store (after (ApiClient.makeRequest ep meth body) w))).
Proof.
  intros Hwf.
  pose proof store_wf_cache. pose proof store_wf_token. pose proof store_wf_no_pairs.
  pose proof store_wf_no_queue. pose proof store_wf_batch_row. pose proof store_wf_pair_rows.
  pose proof store_wf_pair_row. pose proof store_wf_add_pair. pose proof store_wf_add_batch.
  split; [|split; [|split; [|split; [|split; [|split]]]]]; intros.
  - by apply (keeps_on_online store_wf).
  - by apply (keeps_syncAssetTags store_wf).
  - by apply (keeps_validateAndAddPair store_wf).
  - by apply (keeps_confirmMissingTag store_wf).
  - by apply (keeps_queueForUpload store_wf).
  - by apply (keeps_updatePairStatus store_wf).
  - by apply (keeps_makeRequest store_wf).
Qed.

(** ** The session token on a request *)

(** What [getAuthToken] hands to the request. *)
Lemma getAuthToken_bearer w :
  ∃ tok w0,
    ApiClient.getAuthToken w = (Ok tok, w0)
    ∧ (λ t, "Bearer " ++ t)%string <$> tok = bearer w
    ∧ sent w0 = sent w
    ∧ ∀ t, authTokens (store w) !! "current"%string = Some t →
           String.leb (expires_at t) (clock w (ticks w)) = true →
           authTokens (store w0) !! "current"%string = None.
Proof.
  unfold ApiClient.getAuthToken, dbHelpers.getCurrentAuthToken, bind, read_store, now,
    write_store, ret, bearer. simpl.
  destruct (authTokens (store w) !! "current"%string) as [t|] eqn:Et; simpl.
  - destruct (String.leb (expires_at t) (clock w (ticks w))) eqn:Eexp; simpl.
    + eexists _, _. split; [reflexivity|]. simpl. repeat split; try done.
      intros _ _ _. apply lookup_delete_eq.
    + eexists _, _. split; [reflexivity|]. simpl.
      split; [by destruct (nonempty (token t))|]. split; [done|].
      intros t' [= <-]. congruence.
  - eexists _, _. split; [reflexivity|]. by repeat split.
Qed.

(** X12. Every request [makeRequest] makes is sent exactly once, to the
    endpoint and with the body it was given, whatever comes back; it
    carries ['Bearer <token>'] exactly when a token is stored, has not
    expired at the reading of the clock and is not empty, and no
    [Authorization] header otherwise: an expired token is never sent (the
    request still goes out, without the header), and it is deleted from
    the store. *)
Theorem request_carries_valid_token_only ep meth body w :
  let w' := after (ApiClient.makeRequest ep meth body) w in
  sent w' = sent w ++ [ {| endpoint := ep; method := meth;
                           authorization := bearer w; payload := body |} ]
  ∧ (∀ t, authTokens (store w) !! "current"%string = Some t →
          String.leb (expires_at t) (clock w (ticks w)) = true →
          authTokens (store w') !! "current"%string = None).
Proof.
  intros w'. subst w'.
  destruct (ClientProofs.makeRequest_run ep meth body w) as (tok & w0 & Htok & _ & Hrun).
  destruct (getAuthToken_bearer w) as (tok' & w0' & Htok' & Hbearer & Hsent & Hgone).
  rewrite Htok in Htok'. injection Htok' as <- <-.
  unfold after. rewrite Hrun, Hbearer. clear Hrun.
  destruct (network w (length (sent w))) as [r|msg]; simpl.
  - destruct (Nat.eqb (http_status r) 401); simpl.
    + by rewrite Hsent.
    + destruct (ApiClient.ok r); simpl; by rewrite Hsent.
  - by rewrite Hsent.
Qed.

Lemma split_no_space s : has_space s = false → Middleware.split_on_space s = [s].
Proof.
  induction s as [|c s IH]; simpl; [done|].
  intros [Hc Hs]%orb_false_iff. rewrite Hc, (IH Hs). done.
Qed.

Lemma token_of_bearer tok :
  has_space tok = false →
  Middleware.token_of (Some ("Bearer " ++ tok)%string) = Some tok.
Proof.
  intros Hs. unfold Middleware.token_of.
  change (truthy (Some ("Bearer " ++ tok)%string)) with true.
  change (Middleware.split_on_space (default ""%string (Some ("Bearer " ++ tok)%string)))
    with ("Bearer"%string :: Middleware.split_on_space tok).
  by rewrite (split_no_space tok Hs).
Qed.

(** X13. The header the client sends and the middleware of the server.
    Without a stored token, with an expired one or with an empty one the
    request carries no header and the middleware answers 401 'Access
    token required', whatever [jwt.verify] would say.  With a stored,
    unexpired token that is not empty and holds no space, the middleware
    recovers exactly the stored token from the header and lets the
    request through for the user [jwt.verify] gives, or answers 403 if
    the token does not verify. *)
Theorem session_header_round_trip verify w :
  (bearer w = None →
     Middleware.authenticateToken verify (bearer w)
     = Endpoints.Fails 401 "Access token required")
  ∧ (∀ t, authTokens (store w) !! "current"%string = Some t →
          String.leb (expires_at t) (clock w (ticks w)) = false →
          token t ≠ ""%string → has_space (token t) = false →
          bearer w = Some ("Bearer " ++ token t)%string
          ∧ Middleware.authenticateToken verify (bearer w)
            = match verify (token t) with
              | Some user => Endpoints.Sends user
              | None => Endpoints.Fails 403 "Invalid or expired token"
              end).
Proof.
  split.
  - intros ->. done.
  - intros t Ht Hexp Hne Hsp.
    assert (bearer w = Some ("Bearer " ++ token t)%string) as Hb.
    { unfold bearer, nonempty. rewrite Ht, Hexp.
      by rewrite (proj2 (String.eqb_neq (token t) "") Hne). }
    split; [done|]. rewrite Hb. unfold Middleware.authenticateToken.
    rewrite (token_of_bearer _ Hsp). simpl.
    by rewrite (proj2 (String.eqb_neq (token t) "") Hne).
Qed.

(** ** An expired session and the queue *)

Lemma emptied_cache s t a : emptied s → emptied (set_assetTags (λ m, <[t := a]> m) s).
Proof. by intros [? ?]. Qed.

Lemma emptied_token s f : emptied s → emptied (set_authTokens f s).
Proof. by intros [? ?]. Qed.

Lemma emptied_no_pairs s : emptied s → emptied (set_pairs (λ _, []) s).
Proof. by intros [? ?]. Qed.

Lemma emptied_no_queue s : emptied s → emptied (set_uploadQueue (λ _, []) s).
Proof. by intros [? ?]. Qed.

Lemma emptied_batch_row s k f : emptied s → emptied (uploadQueue_update k f s).
Proof. intros [? Hq]. split; [done|]. simpl. by rewrite Hq. Qed.

Lemma emptied_pair_rows s t sr st : emptied s → emptied (pairs_modify_where t sr st s).
Proof. intros [Hp ?]. split; [|done]. simpl. by rewrite Hp. Qed.

(** Once the pairs and the queue are empty, replaying batches read
    earlier does not bring anything back. *)
Lemma emptied_replay_all bs w :
  emptied (store w) → emptied (store (after (for_of bs NetworkManager.replay_batch) w)).
Proof.
  apply (ClientProofs.preserves_for_of (keeps emptied) (keeps_refl emptied)
           (keeps_trans emptied)).
  intros b. apply keeps_replay_batch.
  - intros s t a _. apply emptied_cache.
  - apply emptied_token.
  - apply emptied_no_pairs.
  - apply emptied_no_queue.
  - intros s k f _. apply emptied_batch_row.
  - apply emptied_pair_rows.
Qed.

Lemma replay_all_extends bs w :
  ∃ more, sent (after (for_of bs NetworkManager.replay_batch) w) = sent w ++ more.
Proof.
  unfold after. revert w. induction bs as [|b bs IH]; intros w; simpl.
  - exists []. by rewrite app_nil_r.
  - rewrite ClientProofs.bind_run.
    destruct (ClientProofs.replay_batch_run b w) as (w1 & -> & _ & _ & (req & Hreq & _) & _).
    destruct (IH w1) as [more Hmore].
    exists (req :: more). by rewrite Hmore, Hreq, <- app_assoc.
Qed.

(** X14. Going online with an expired session.  When the stored token
    has expired and a batch is pending, the upload of the first pending
    batch is sent without an [Authorization] header; when it is answered
    as the middleware of the server answers a request without the
    header, which is with a 401, the client deletes every pair and every
    queued batch, and they are still gone when the queue has been
    processed: the scans that were waiting for the upload are lost. *)
Theorem expired_session_loses_queue verify w t b r msg :
  let w' := after NetworkManager.on_online w in
  authTokens (store w) !! "current"%string = Some t →
  String.leb (expires_at t) (clock w (ticks w)) = true →
  b ∈ uploadQueue (store w) → batch_status b = b_pending →
  network w (length (sent w)) = Responds r →
  Middleware.authenticateToken verify None = Endpoints.Fails (http_status r) msg →
  (∃ req, sent w' !! length (sent w) = Some req ∧ authorization req = None)
  ∧ http_status r = 401
  ∧ pairs (store w') = [] ∧ uploadQueue (store w') = [].
Proof.
  intros w' Ht Hexp Hb Hpending Hnet Hserver. subst w'.
  assert (http_status r = 401) as H401 by (by injection Hserver as <- _).
  rewrite ClientProofs.on_online_run.
  destruct (List.filter is_pending (uploadQueue (store w))) as [|b1 rest] eqn:Hfilter.
  { assert (b ∈ List.filter is_pending (uploadQueue (store w))) as Hin.
    { apply list_elem_of_In, filter_In. split; [by apply list_elem_of_In|].
      by apply bool_decide_eq_true. }
    rewrite Hfilter in Hin. by apply elem_of_nil in Hin. }
  set (w1 := with_isOnline true w).
  destruct (ClientProofs.uploadPairs_run (batch_items b1) w1) as (tok & w0 & Htok & _ & Hrun).
  destruct (getAuthToken_bearer w1) as (tok' & w0' & Htok' & Hbearer & Hsent & _).
  rewrite Htok in Htok'. injection Htok' as <- <-.
  assert (bearer w1 = None) as Hnone by (unfold bearer; simpl; by rewrite Ht, Hexp).
  rewrite Hbearer, Hnone in Hrun. simpl in Hrun. rewrite Hnet, H401 in Hrun. simpl in Hrun.
  unfold after. simpl for_of. rewrite ClientProofs.bind_run.
  rewrite ClientProofs.replay_batch_unfold, ClientProofs.try_catch_run,
    ClientProofs.bind_run, Hrun.
  unfold write_store at 1.
  match goal with
  | |- context [for_of rest NetworkManager.replay_batch ?w2] =>
      pose proof (emptied_replay_all rest w2) as Hkeep;
      destruct (replay_all_extends rest w2) as [more Hmore];
      destruct (ClientProofs.replay_all_sent rest w2) as (w3 & Hrest & _)
  end.
  unfold after in Hmore, Hkeep. simpl in Hmore, Hkeep |- *.
  rewrite Hrest in Hkeep. rewrite Hrest in Hmore. rewrite Hrest. simpl in *.
  split.
  - eexists. split.
    + rewrite Hmore, Hsent, <- app_assoc. by apply list_lookup_middle.
    + done.
  - split; [done|]. by apply Hkeep.
Qed.

(** ** A refresh of the asset tags *)

Lemma foldl_last_match {A} (f : A → bool) (l : list A) (acc : option A) :
  foldl (λ acc x, if f x then Some x else acc) acc l
  = match foldl (λ acc x, if f x then Some x else acc) None l with
    | Some y => Some y
    | None => acc
    end.
Proof.
  revert acc. induction l as [|x l IH]; intros acc; simpl; [done|].
  rewrite (IH (if f x then Some x else acc)), (IH (if f x then Some x else None)).
  destruct (foldl _ None l); [done|]. by destruct (f x).
Qed.

Lemma listed_last_cons t x ts :
  listed_last t (x :: ts)
  = match listed_last t ts with
    | Some y => Some y
    | None => if bool_decide (atr_tag x = t) then Some x else None
    end.
Proof.
  unfold listed_last. simpl.
  by rewrite (foldl_last_match (λ x, bool_decide (atr_tag x = t)) ts
                (if bool_decide (atr_tag x = t) then Some x else None)).
Qed.


Lemma cache_view_updateAssetTag t st ls w t' :
  cache_view (store (after (dbHelpers.updateAssetTag t st ls) w)) t'
  = if bool_decide (t = t') then Some (st, ls) else cache_view (store w) t'.
Proof.
  unfold after, cache_view. rewrite ClientProofs.updateAssetTag_writes. simpl.
  case_bool_decide as H.
  - subst. by rewrite lookup_insert_eq.
  - by rewrite lookup_insert_ne.
Qed.

(** The loop of a refresh: every entry is written, the last one for a
    tag stays. *)
Lemma upsert_all_run ts w :
  ∃ w', upsert_all ts w = (Ok tt, w')
        ∧ only_cache_changed w w'
        ∧ ∀ t, cache_view (store w') t
               = match listed_last t ts with
                 | Some x => Some (atr_status x, atr_last_serial x)
                 | None => cache_view (store w) t
                 end.
Proof.
  unfold upsert_all. revert w. induction ts as [|x ts IH]; intros w; simpl.
  - exists w. split; [done|]. split; [apply ClientProofs.only_cache_changed_refl|done].
  - rewrite ClientProofs.bind_run, ClientProofs.updateAssetTag_writes.
    pose proof (cache_view_updateAssetTag (atr_tag x) (atr_status x) (atr_last_serial x) w)
      as Hview.
    unfold after in Hview. rewrite ClientProofs.updateAssetTag_writes in Hview.
    simpl in Hview.
    match goal with
    | |- context [for_of ts _ ?w1] => destruct (IH w1) as (w' & Hrun & Hframe & Hall)
    end.
    exists w'. split; [done|]. split.
    + eapply ClientProofs.only_cache_changed_trans; [|done]. by repeat split.
    + intros t. rewrite Hall, listed_last_cons, Hview.
      destruct (listed_last t ts); [done|]. by destruct (bool_decide (atr_tag x = t)).
Qed.

(** How a refresh ends: it never throws. *)
Lemma syncAssetTags_run w :
  ∃ tok w0,
    ApiClient.getAuthToken w = (Ok tok, w0) ∧
    only_token_changed w w0 ∧
    let since := updated_at <$> assetTags_last_by_updated_at (store w) in
    let w1 := sending {| endpoint := "/asset-tags"; method := "GET";
                         authorization := (λ t, "Bearer " ++ t)%string <$> tok;
                         payload := AssetTagsSince (if truthy since then since else None) |}
                      w0 in
    NetworkManager.syncAssetTags w
    = (Ok tt,
       if isOnline w then
         match network w (length (sent w)) with
         | NetworkFails msg => w1
         | Responds r =>
             if Nat.eqb (http_status r) 401 then with_store user_data_cleared w1
             else if ApiClient.ok r then
                    match body_json r with
                    | JsonTags ts => after (upsert_all ts) w1
                    | _ => w1
                    end
             else w1
         end
       else w).
Proof.
  destruct (ClientProofs.getAssetTags_run
              (updated_at <$> assetTags_last_by_updated_at (store w)) w)
    as (tok & w0 & Htok & Hframe & Hrun).
  exists tok, w0. split; [done|]. split; [done|]. intros since w1.
  unfold NetworkManager.syncAssetTags.
  destruct (isOnline w); simpl; [|done].
  rewrite ClientProofs.try_catch_run, ClientProofs.bind_run. unfold read_store at 1.
  rewrite ClientProofs.bind_run, Hrun.
  destruct (network w (length (sent w))) as [r|msg]; [|done].
  destruct (Nat.eqb (http_status r) 401); [done|].
  destruct (ApiClient.ok r); [|done].
  destruct (body_json r) as [rs|ts|]; try done.
  fold (upsert_all ts). fold since. fold w1.
  destruct (upsert_all_run ts w1) as (w' & Hup & _). unfold after. by rewrite Hup.
Qed.

Lemma ok_not_401 r : ApiClient.ok r = true → Nat.eqb (http_status r) 401 = false.
Proof.
  unfold ApiClient.ok. intros [_ Hle]%andb_true_iff.
  apply Nat.leb_le in Hle. apply Nat.eqb_neq. lia.
Qed.

(** X15. A refresh of the asset tags never throws and never tells its
    caller what happened.  Offline it does nothing, not even a request.
    Unless the request is answered with a 401, the pairs and the upload
    queue are as they were.  The cache changes only when the answer is a
    2xx whose body is a list of tags: then every tag of the list takes
    the status and last serial of its last entry in the list, and every
    other cached tag is kept as it was (a refresh never removes a tag).
    When the request is answered with a 401, every pair and every queued
    batch is deleted, unsynced ones included, and the cache is kept. *)
Theorem refresh_is_silent w :
  let o := network w (length (sent w)) in
  ∃ w', NetworkManager.syncAssetTags w = (Ok tt, w')
        ∧ (isOnline w = false → w' = w)
        ∧ (unauthorized o = false →
             pairs (store w') = pairs (store w)
             ∧ uploadQueue (store w') = uploadQueue (store w))
        ∧ (listing_of o = None → assetTags (store w') = assetTags (store w))
        ∧ (isOnline w = true → ∀ ts, listing_of o = Some ts →
             ∀ t, cache_view (store w') t
                  = match listed_last t ts with
                    | Some x => Some (atr_status x, atr_last_serial x)
                    | None => cache_view (store w) t
                    end)
        ∧ (isOnline w = true → unauthorized o = true →
             emptied (store w') ∧ assetTags (store w') = assetTags (store w)).
Proof.
  intros o. subst o.
  destruct (syncAssetTags_run w) as (tok & w0 & _ & Hframe & Hrun).
  destruct Hframe as (_ & _ & _ & _ & _ & Hpairs & Hqueue & Htags).
  eexists. split; [exact Hrun|]. clear Hrun.
  unfold unauthorized, listing_of.
  destruct (isOnline w); [|by repeat split].
  destruct (network w (length (sent w))) as [r|msg]; simpl.
  2:{ repeat split; try done. }
  destruct (Nat.eqb (http_status r) 401) eqn:E401; simpl.
  { assert (ApiClient.ok r = false) as ->.
    { destruct (ApiClient.ok r) eqn:Eok; [|done].
      apply ok_not_401 in Eok. congruence. }
    repeat split; try done. }
  destruct (ApiClient.ok r); simpl; [|by repeat split].
  destruct (body_json r) as [rs|ts|]; simpl; try (by repeat split).
  match goal with
  | |- context [after (upsert_all ts) ?w1] =>
      destruct (upsert_all_run ts w1) as (w' & Hup & Hframe & Hview)
  end.
  unfold after. rewrite Hup. simpl.
  destruct Hframe as (_ & _ & _ & _ & Hp & Hq). simpl in *.
  split; [done|]. split; [intros _; split; congruence|]. split; [done|].
  split; [|done]. intros _ ts' [= <-] t. rewrite Hview.
  destruct (listed_last t ts); [done|]. unfold cache_view. simpl. by rewrite Htags.
Qed.

Lemma listed_last_Some t ts x :
  listed_last t ts = Some x → x ∈ ts ∧ atr_tag x = t.
Proof.
  induction ts as [|y ts IH]; [done|]. rewrite listed_last_cons.
  destruct (listed_last t ts) as [z|].
  - intros [= <-]. destruct IH as [? ?]; [done|]. split; [by right|done].
  - case_bool_decide as H; [|done]. intros [= <-]. split; [left|done].
Qed.

Lemma listed_last_None t ts x :
  listed_last t ts = None → x ∈ ts → atr_tag x ≠ t.
Proof.
  induction ts as [|y ts IH]; [by intros _ ?%elem_of_nil|]. rewrite listed_last_cons.
  destruct (listed_last t ts) as [z|]; [done|].
  case_bool_decide as H; [done|]. intros _ [->|Hin]%elem_of_cons; [done|by apply IH].
Qed.

Lemma last_by_updated_at_empty s :
  assetTags s = ∅ → assetTags_last_by_updated_at s = None.
Proof.
  intros H. unfold assetTags_last_by_updated_at. by rewrite H, map_to_list_empty.
Qed.

(** X16. A refresh answered by the server's listing.  The request asks
    with [since] the greatest [updated_at] of the cache (nothing when the
    cache is empty).  When the answer is the listing of the server's
    [asset_tags] for that [since], the cache afterwards holds, for every
    tag the server lists (all of them without [since], those with a
    textually greater [updated_at] otherwise), the status and last serial
    the server has; every other cached tag is as it was.  In particular
    the first refresh of an empty cache copies the whole table. *)
Theorem refresh_against_server d w r ts :
  let w' := after NetworkManager.syncAssetTags w in
  isOnline w = true →
  network w (length (sent w)) = Responds r →
  ApiClient.ok r = true → body_json r = JsonTags ts →
  Endpoints.get_asset_tags false (watermark (store w)) d = Endpoints.Sends ts →
  (∃ req, sent w' = sent w ++ [req]
          ∧ payload req = AssetTagsSince (watermark (store w)))
  ∧ (∀ t, cache_view (store w') t
          = match Server.asset_tags d !! t with
            | Some row =>
                if Endpoints.newer_than (watermark (store w)) row
                then Some (Server.at_status row, Server.at_last_serial row)
                else cache_view (store w) t
            | None => cache_view (store w) t
            end)
  ∧ (assetTags (store w) = ∅ →
     ∀ t, cache_view (store w') t = Server.tag_state d t).
Proof.
  intros w' Honline Hnet Hok Hjson Hserver. subst w'.
  destruct (syncAssetTags_run w) as (tok & w0 & _ & Hframe & Hrun).
  destruct Hframe as (Hsent & _ & _ & _ & _ & _ & _ & Htags).
  unfold after. rewrite Hrun, Honline, Hnet, (ok_not_401 r Hok), Hok, Hjson. clear Hrun.
  match goal with
  | |- context [after (upsert_all ts) ?w1] =>
      destruct (upsert_all_run ts w1) as (w' & Hup & Hframe & Hview)
  end.
  unfold after. rewrite Hup. simpl.
  destruct Hframe as (Hsent' & _). simpl in Hsent'.
  assert (∀ t, cache_view (store w') t
          = match Server.asset_tags d !! t with
            | Some row =>
                if Endpoints.newer_than (watermark (store w)) row
                then Some (Server.at_status row, Server.at_last_serial row)
                else cache_view (store w) t
            | None => cache_view (store w) t
            end) as Hall.
  { intros t. rewrite Hview.
    assert (cache_view (store w0) t = cache_view (store w) t) as Hold
      by (unfold cache_view; by rewrite Htags).
    simpl. rewrite Hold. clear Hview Hold.
    destruct (listed_last t ts) as [x|] eqn:Hlast.
    - apply listed_last_Some in Hlast as [Hin Hx].
      destruct (EndpointProofs.get_asset_tags_lists (watermark (store w)) d x) as [Heq Hmem].
      rewrite Hserver in Heq. injection Heq as Heq. rewrite Heq in Hin.
      apply Hmem in Hin as (t' & row & Hrow & Hnew & ->). simpl in Hx. subst t'.
      by rewrite Hrow, Hnew.
    - destruct (Server.asset_tags d !! t) as [row|] eqn:Hrow; [|done].
      destruct (Endpoints.newer_than (watermark (store w)) row) eqn:Hnew; [|done].
      destruct (EndpointProofs.get_asset_tags_lists (watermark (store w)) d
                  (Endpoints.tag_json (t, row))) as [Heq Hmem].
      rewrite Hserver in Heq. injection Heq as Heq.
      assert (Endpoints.tag_json (t, row) ∈ ts) as Hin.
      { rewrite Heq. apply Hmem. by exists t, row. }
      by destruct (listed_last_None t ts _ Hlast Hin). }
  split; [|split; [exact Hall|]].
  - eexists. split; [rewrite Hsent', Hsent; reflexivity|done].
  - intros Hempty t. rewrite Hall. unfold Server.tag_state, cache_view.
    assert (watermark (store w) = None) as ->.
    { unfold watermark. by rewrite (last_by_updated_at_empty _ Hempty). }
    rewrite Hempty, lookup_empty. simpl.
    by destruct (Server.asset_tags d !! t).
Qed.

(** ** A replay answered by the server's batch handler *)




(** What the handler answers, item by item, when statements finish in
    the order issued: the entry names the item and is a success exactly
    when the tag of the item is registered. *)
Lemma batch_answers_by_item clk user d items rs :
  Server.response (Server.batch_handler clk user d items) = Some (Some <$> rs) →
  Forall2 (λ p r, res_asset_tag r = req_asset_tag p ∧ res_serial r = req_serial p
                  ∧ is_success r = ServerSpec.known d p
                  ∧ (is_success r = true →
                     Server.pair_exists (Server.db (Server.batch_handler clk user d items))
                       (req_asset_tag p) (req_serial p) = true))
          items rs.
Proof.
  intros Hresp.
  destruct (decide (0 < length items)) as [Hn|Hn].
  2:{ destruct items; [|simpl in Hn; lia]. done. }
  destruct (ServerProofs.batch_response_aligned clk user d items Hn)
    as (rs' & Hrs' & Hlen & Hnames).
  rewrite Hresp in Hrs'. injection Hrs' as <-. rewrite length_fmap in Hlen.
  destruct (ServerProofs.Inv_run clk user items (Server.fifo (length items)) _
              (ServerProofs.Inv_init items d)) as [_ Hcompleted _ _ Hinv].
  fold (Server.batch_handler clk user d items) in Hcompleted, Hinv.
  rewrite Hresp in Hinv. case_decide as Hdec; [|done]. injection Hinv as Hresults.
  apply Forall2_same_length_lookup_2; [done|].
  intros i p r Hp Hr.
  destruct (Hnames i p Hp) as (r' & Hr' & Ht & Hs).
  rewrite list_lookup_fmap, Hr in Hr'. simpl in Hr'. injection Hr' as <-.
  split; [done|]. split; [done|].
  destruct (ServerProofs.batch_handler_answer clk user items d i p Hp) as (r'' & Hslot & Hcases).
  unfold slot in Hslot. rewrite <- Hresults, list_lookup_fmap, Hr in Hslot. simpl in Hslot.
  injection Hslot as <-.
  destruct Hcases as [[Hmiss Hk]|(Hsucc & Hk & Hex & _)].
  - rewrite Hk. unfold is_success. rewrite Hmiss. split; [done|]. done.
  - rewrite Hk, Hsucc. done.
Qed.

Lemma known_by_tag d p :
  ServerSpec.known d p = bool_decide (is_Some (Server.asset_tags d !! req_asset_tag p)).
Proof. done. Qed.





(** X18. A pair whose tag the server does not know is dropped without a
    trace.  When the upload of a batch is answered with what the batch
    handler sends (statements finishing in the order issued, none
    failing) and the tag of an item is not registered on the server, the
    server stores nothing for that item, the local pairs with its tag
    and serial keep the status they had, and the batch is marked done
    all the same: it is not among the pending batches that a later
    transition to online replays. *)
Theorem unregistered_tag_is_dropped clk user d b w r rs it :
  let items := as_request <$> batch_items b in
  let h := Server.batch_handler clk user d items in
  let w' := after (NetworkManager.replay_batch b) w in
  network w (length (sent w)) = Responds r →
  ApiClient.ok r = true → body_json r = JsonResults rs →
  Server.response h = Some (Some <$> rs) →
  it ∈ batch_items b →
  Server.asset_tags d !! pair_asset_tag it = None →
  Server.pair_exists (Server.db h) (pair_asset_tag it) (pair_serial it)
  = Server.pair_exists d (pair_asset_tag it) (pair_serial it)
  ∧ (∀ row, row ∈ pairs (store w) →
            pair_matches (pair_asset_tag it) (pair_serial it) row = true →
            row ∈ pairs (store w'))
  ∧ (∀ x, x ∈ List.filter is_pending (uploadQueue (store w')) →
          batch_id x ≠ batch_id b).
Proof.
  intros items h w' Hnet Hok Hjson Hresp Hit Hnone.
  pose proof (batch_answers_by_item clk user d items rs Hresp) as Hfull.
  destruct (ClientProofs.replay_batch_response b w r rs Hnet Hok Hjson)
    as (w1 & Hrun & Hqueue & Hpairs & _).
  assert (store w' = store w1) as Hw' by (unfold w', after; by rewrite Hrun).
  split; [|split].
  - destruct (BatchProofs.Kept_run clk user items d (Server.fifo (length items)) _
                (BatchProofs.Kept_init items d)) as [_ Hold Hnew _ _ _].
    fold (Server.batch_handler clk user d items) in Hold, Hnew. fold h in Hold, Hnew.
    destruct (Server.pair_exists (Server.db h) (pair_asset_tag it) (pair_serial it)) eqn:E1,
      (Server.pair_exists d (pair_asset_tag it) (pair_serial it)) eqn:E2; try done.
    + destruct (Hnew _ _ E1) as [?|(p & _ & Ht & _ & Hk)]; [congruence|].
      rewrite known_by_tag, Ht in Hk. apply bool_decide_eq_true in Hk.
      rewrite Hnone in Hk. by destruct Hk.
    + rewrite (Hold _ _ E2) in E1. done.
  - intros row Hrow Hmatch. rewrite Hw', Hpairs.
    apply list_elem_of_fmap. exists row. split; [|done].
    unfold pair_after. rewrite ClientProofs.marked_uploaded_false; [done|].
    intros res Hres Htag _.
    apply list_elem_of_lookup in Hres as [j Hj].
    destruct (Forall2_lookup_r _ _ _ _ _ Hfull Hj) as (p & _ & Htp & _ & Hk & _).
    rewrite Hk, known_by_tag, <- Htp, Htag.
    apply bool_decide_eq_false. intros [? Hsome].
    unfold pair_matches in Hmatch. apply andb_true_iff in Hmatch as [Hm _].
    apply String.eqb_eq in Hm. rewrite Hm, Hnone in Hsome. done.
  - intros x Hx Hid. rewrite Hw', Hqueue in Hx.
    apply list_elem_of_In, filter_In in Hx as [Hx Hpend].
    unfold update_row in Hx. apply in_map_iff in Hx as (x0 & Hx0 & _).
    destruct (decide (batch_id x0 = batch_id b)) as [Heq|Hne].
    + subst x. unfold is_pending in Hpend. by apply bool_decide_eq_true in Hpend.
    + subst x. done.
Qed.

(** ** Admission and the local tables *)




(** X21. A batch that is queued is uploaded at the next transition to
    online, after the batches that were already pending and in one
    request of its own; the request carries the pairs as they were
    given to [queueForUpload]. *)
Theorem queued_batch_is_uploaded ps w :
  let w1 := after (dbHelpers.queueForUpload ps) w in
  let w2 := after NetworkManager.on_online w1 in
  payload <$> sent w2
  = (payload <$> sent w)
    ++ ((λ b, UploadPairs (batch_items b)) <$> List.filter is_pending (uploadQueue (store w)))
    ++ [UploadPairs ps].
Proof.
  intros w1 w2. subst w2. rewrite ClientProofs.on_online_run.
  match goal with
  | |- context [after (for_of ?bs _) ?w0] =>
      destruct (ClientProofs.replay_all_sent bs w0) as (w' & Hrun & _ & _ & _ & Hsent)
  end.
  unfold after at 1. rewrite Hrun. simpl. rewrite Hsent. f_equal.
  unfold w1, after. simpl. rewrite List.filter_app, fmap_app. done.
Qed.

(** X22. [updatePairStatus] changes one row at most: the first pair with
    the given tag and serial takes the status, and every other pair
    keeps its own, later pairs with the same tag and serial included
    (the ids of the table being distinct). *)
Theorem updatePairStatus_first_match t s st w l1 p l2 :
  pairs (store w) = l1 ++ p :: l2 →
  Forall (λ q, pair_matches t s q = false) l1 →
  pair_matches t s p = true →
  NoDup (pair_id <$> pairs (store w)) →
  pairs (store (after (dbHelpers.updatePairStatus t s st) w))
  = l1 ++ with_pair_status st p :: l2.
Proof.
  intros Hpairs Hl1 Hp Hnd.
  assert (List.find (pair_matches t s) (pairs (store w)) = Some p) as Hfind.
  { rewrite Hpairs. clear Hpairs Hnd. induction Hl1 as [|q l1 Hq _ IH]; simpl.
    - by rewrite Hp.
    - by rewrite Hq. }
  unfold after, dbHelpers.updatePairStatus, bind, read_store. simpl. rewrite Hfind. simpl.
  rewrite Hpairs in Hnd |- *. rewrite fmap_app in Hnd. simpl in Hnd.
  apply NoDup_app in Hnd as (_ & Hdisj & Hnd2). apply NoDup_cons in Hnd2 as [Hnotin _].
  rewrite map_app. simpl. rewrite decide_True by done. f_equal; [|f_equal].
  - rewrite <- (map_id l1) at 2. apply map_ext_in. intros q Hq.
    rewrite decide_False; [done|]. intros Heq.
    apply (Hdisj (pair_id q)).
    + apply list_elem_of_fmap. exists q. split; [done|]. by apply list_elem_of_In.
    + rewrite Heq. left.
  - rewrite <- (map_id l2) at 2. apply map_ext_in. intros q Hq.
    rewrite decide_False; [done|]. intros Heq. apply Hnotin.
    apply list_elem_of_fmap. exists q. split; [done|]. by apply list_elem_of_In.
Qed.

(** ** The session shown by the application *)

Lemma getCurrentAuthToken_valid w t :
  authTokens (store w) !! "current"%string = Some t →
  String.leb (expires_at t) (clock w (ticks w)) = false →
  dbHelpers.getCurrentAuthToken w
  = (Ok (Some t),
     {| store := store w; isOnline := isOnline w; clock := clock w;
        ticks := S (ticks w); network := network w; sent := sent w |}).
Proof.
  intros Ht Hexp.
  unfold dbHelpers.getCurrentAuthToken, bind, read_store, now, ret. simpl.
  by rewrite Ht, Hexp.
Qed.

(** X23. A session rejected while the application starts.  When the
    stored token has not expired locally, the application shows the user
    as logged in and then refreshes the asset tags; if that request is
    answered with a 401, the token, every pair and every queued batch
    are deleted, and the application still shows the user as logged in
    under the name of the deleted token: nothing of the session is left
    but the screen. *)
Theorem rejected_session_stays_logged_in a w t r :
  authTokens (store w) !! "current"%string = Some t →
  String.leb (expires_at t) (clock w (ticks w)) = false →
  isOnline w = true →
  network w (length (sent w)) = Responds r → http_status r = 401 →
  ∃ a' w', App.checkAuthStatus true a w = (Ok a', w')
           ∧ App.isLoggedIn a' = true ∧ App.username a' = username t
           ∧ App.isLoading a' = false
           ∧ authTokens (store w') = ∅
           ∧ pairs (store w') = [] ∧ uploadQueue (store w') = [].
Proof.
  intros Ht Hexp Honline Hnet H401.
  unfold App.checkAuthStatus.
  rewrite ClientProofs.bind_run, ClientProofs.try_catch_run, ClientProofs.bind_run.
  rewrite (getCurrentAuthToken_valid w t Ht Hexp).
  rewrite ClientProofs.try_catch_run, ClientProofs.bind_run.
  match goal with
  | |- context [NetworkManager.syncAssetTags ?w0] =>
      set (wA := w0); destruct (syncAssetTags_run wA) as (tok & w1 & _ & _ & Hrun)
  end.
  change (isOnline wA) with (isOnline w) in Hrun.
  change (network wA (length (sent wA))) with (network w (length (sent w))) in Hrun.
  rewrite Honline, Hnet, H401 in Hrun. rewrite Hrun.
  eexists _, _. split; [reflexivity|]. simpl. done.
Qed.

(** X24. Logging out deletes every pair and every queued batch together
    with the token, pending pairs and batches that were never uploaded
    included, and makes no request: nothing is uploaded first.  The
    cache of asset tags is kept.  Afterwards the application, when it
    starts, finds no session: it shows the login screen and makes no
    request, online or not. *)
Theorem logout_discards_unsynced_work a w :
  ∃ a1 w1,
    App.handleLogout a w = (Ok a1, w1)
    ∧ App.isLoggedIn a1 = false ∧ App.username a1 = ""%string
    ∧ pairs (store w1) = [] ∧ uploadQueue (store w1) = [] ∧ authTokens (store w1) = ∅
    ∧ assetTags (store w1) = assetTags (store w)
    ∧ sent w1 = sent w
    ∧ ∀ online, ∃ a2, App.checkAuthStatus online a1 w1 = (Ok a2, w1)
                      ∧ App.isLoggedIn a2 = false ∧ App.isLoading a2 = false.
Proof.
  eexists _, _. split; [reflexivity|]. simpl. repeat split.
  intros online.
  unfold App.checkAuthStatus, bind, try_catch, dbHelpers.getCurrentAuthToken, read_store, ret.
  simpl. eexists. split; [reflexivity|done].
Qed.
End ClientExtra.

(** * The client and the server together, on concrete sessions *)

Module SyncTests.
Import Db Runtime ClientSpec SyncSpec ClientExamples SyncExamples.

Lemma batch_order_does_not_matter_witness :
  let h1 := Server.run ServerExamples.clk "admin" two (Server.fifo 2) (Server.init ServerExamples.seeded two) in
  let h2 := Server.run ServerExamples.clk "admin" two item_by_item
              (Server.init ServerExamples.seeded two) in
  (∀ t, Server.tag_state (Server.db h1) t = Server.tag_state (Server.db h2) t)
  ∧ (∀ t s, Server.pair_exists (Server.db h1) t s = Server.pair_exists (Server.db h2) t s).
Proof.
  apply (BatchProofs.batch_order_does_not_matter
           ServerExamples.clk ServerExamples.clk "admin" "admin" ServerExamples.seeded two
           (Server.fifo 2) item_by_item).
  - apply ServerProofs.fault_free_fifo.
  - unfold ServerSpec.fault_free, item_by_item. simpl. repeat constructor.
  - intros p q Hp Hq Ht. unfold two in *.
    repeat (apply elem_of_cons in Hp as [->|Hp]); try (by apply elem_of_nil in Hp);
      repeat (apply elem_of_cons in Hq as [->|Hq]); try (by apply elem_of_nil in Hq);
      done.
  - intros [|[|i]] s; vm_compute; congruence.
  - intros [|[|i]] s; vm_compute; congruence.
Defined.

Lemma session_state_is_well_formed : store_wf (store world3).
Proof.
  unfold store_wf. repeat split.
  - vm_compute. apply NoDup_ListNoDup. repeat constructor; simpl; intuition lia.
  - vm_compute. repeat constructor.
  - vm_compute. apply NoDup_ListNoDup. repeat constructor; simpl; intuition lia.
  - vm_compute. repeat constructor.
  - apply map_Forall_insert_2; [done|]. apply map_Forall_insert_2; [done|].
    apply map_Forall_empty.
Qed.

Lemma store_stays_well_formed_witness :
  store_wf (store (after NetworkManager.on_online world3))
  ∧ store_wf (store (after (PairBuilder.validateAndAddPair (form "AT002" "SN5")) world3)).
Proof.
  destruct (ClientExtra.store_stays_well_formed world3 session_state_is_well_formed)
    as (Honline & _ & Hadmit & _).
  split; [exact Honline|apply Hadmit].
Defined.

Lemma expired_session_loses_queue_witness :
  let w' := after NetworkManager.on_online expired_world in
  pairs (store expired_world) ≠ []
  ∧ pairs (store w') = [] ∧ uploadQueue (store w') = [].
Proof.
  intros w'.
  destruct (ClientExtra.expired_session_loses_queue (λ _, Some "admin"%string) expired_world
              expired_session mixed_batch response_401 "Access token required")
    as (_ & _ & Hp & Hq); try reflexivity.
  - left.
  - split; [done|]. split; [exact Hp|exact Hq].
Defined.

Lemma refresh_against_server_witness :
  let w' := after NetworkManager.syncAssetTags refreshing_world in
  cache_view (store w') "AT001" = Some (used, Some "SN2"%string)
  ∧ cache_view (store w') "AT002" = Some (unused, None).
Proof.
  intros w'. subst w'.
  destruct (ClientExtra.refresh_against_server EndpointExamples.in_use refreshing_world
              {| http_status := 200; body_text := "";
                 body_json := JsonTags (served_listing EndpointExamples.in_use
                                          (watermark (a_store [] []))) |}
              (served_listing EndpointExamples.in_use (watermark (a_store [] []))))
    as (_ & Hview & _); [by vm_compute..|].
  split.
  - rewrite (Hview "AT001"%string). vm_compute. reflexivity.
  - rewrite (Hview "AT002"%string). vm_compute. reflexivity.
Defined.



Lemma updatePairStatus_first_match_witness :
  pair_status <$> pairs (store (after (dbHelpers.updatePairStatus "AT002" "SN2" p_uploaded)
                                  scanned_twice))
  = [p_pending; p_uploaded; p_pending].
Proof.
  rewrite (ClientExtra.updatePairStatus_first_match "AT002" "SN2" p_uploaded scanned_twice
             [pair 1 "AT001" "SN1" p_pending] (pair 2 "AT002" "SN2" p_pending)
             [pair 3 "AT002" "SN2" p_pending]); try reflexivity.
  - repeat constructor.
  - simpl. apply NoDup_ListNoDup. repeat constructor; simpl; intuition lia.
Defined.

Lemma rejected_session_stays_logged_in_witness :
  ∃ a' w', App.checkAuthStatus true starting rejected_world = (Ok a', w')
           ∧ App.isLoggedIn a' = true ∧ App.username a' = "admin"%string
           ∧ pairs (store rejected_world) ≠ []
           ∧ authTokens (store w') = ∅ ∧ pairs (store w') = [].
Proof.
  destruct (ClientExtra.rejected_session_stays_logged_in starting rejected_world session
              response_401)
    as (a' & w' & Hrun & Hin & Hname & _ & Htok & Hpairs & _); try reflexivity.
  exists a', w'. repeat split; try done.
Defined.

(** [SN1] was paired with [AT001] by admin; bob uploads the pair again. *)
Lemma upload_overwrites_the_row_witness :
  let h := Server.batch_handler ServerExamples.clk "bob" EndpointExamples.in_use
             [ServerExamples.item "AT001" "SN1"] in
  (Server.pr_id <$> Server.pairs EndpointExamples.in_use,
   Server.pr_assigned_by <$> List.filter (Server.same_pair "AT001" "SN1")
                               (Server.pairs EndpointExamples.in_use))
  = ([1; 2; 3], ["admin"%string])
  ∧ (Server.pr_id <$> Server.pairs (Server.db h),
     Server.pr_assigned_by <$> List.filter (Server.same_pair "AT001" "SN1")
                                 (Server.pairs (Server.db h)))
    = ([2; 3; 4], ["bob"%string]).
Proof.
  intros h. subst h.
  destruct (BatchProofs.upload_overwrites_the_row ServerExamples.clk "bob"
              EndpointExamples.in_use (ServerExamples.item "AT001" "SN1"))
    as (Hsame & _ & _).
  { vm_compute. eexists. reflexivity. }
  split; [reflexivity|]. vm_compute. reflexivity.
Defined.

Lemma unregistered_tag_is_dropped_witness :
  let h := Server.batch_handler ServerExamples.clk "admin" ServerExamples.seeded
             (as_request <$> batch_items mixed_batch) in
  let w' := after (NetworkManager.replay_batch mixed_batch) uploading_world in
  Server.pair_exists (Server.db h) "AT999" "SN9" = false
  ∧ pair 2 "AT999" "SN9" p_pending ∈ pairs (store w')
  ∧ List.filter is_pending (uploadQueue (store w')) = [].
Proof.
  intros h w'. subst h w'.
  destruct (ClientExtra.unregistered_tag_is_dropped ServerExamples.clk "admin"
              ServerExamples.seeded mixed_batch uploading_world
              (ok_results (served_results ServerExamples.seeded mixed_batch))
              (served_results ServerExamples.seeded mixed_batch)
              (pair 2 "AT999" "SN9" p_pending))
    as (Hserver & Hlocal & _); [by vm_compute..| |by vm_compute|].
  { right. left. }
  split; [by vm_compute|]. split.
  - apply Hlocal; [right; left|reflexivity].
  - vm_compute. reflexivity.
Defined.

(** The session of [idle_world] against a server that accepts its token. *)
Lemma session_header_round_trip_witness :
  let verify := λ tok, if String.eqb tok "jwt" then Some "admin"%string else None in
  bearer idle_world = Some "Bearer jwt"%string
  ∧ Middleware.authenticateToken verify (bearer idle_world) = Endpoints.Sends "admin"%string.
Proof.
  intros verify.
  apply (proj2 (ClientExtra.session_header_round_trip verify idle_world) session);
    try reflexivity.
  done.
Defined.

End SyncTests.
